(** * The process run supervisor of mamba: [libmamba/src/core/run.cpp]

    A shallow embedding of the registry of running processes
    ([get_all_running_processes_info], [is_process_name_running],
    [ScopedProcFile]), of the name generator
    ([generate_unique_process_name]) and of the supervisor
    ([run_in_environment]), for the non-Windows build, followed by the
    properties proved about them. *)

From Stdlib Require Import String Ascii List ZArith Bool Arith Lia.
From Stdlib Require Import DecimalString DecimalNat DecimalFacts.
From Stdlib Require OrderedTypeEx.
Import ListNotations.
Open Scope string_scope.

Set Implicit Arguments.
Set Warnings "-register-all".

(** ** Outcomes of a call *)

(** The exceptions the supervisor and its libraries raise.  A failed
    [assert] (or a library precondition that is checked by an assertion
    only) is kept apart as [assertion_failure]. *)
Inductive exn : Type :=
| filesystem_error (what : string)
| parse_error
| type_error
| runtime_error (what : string)
| mamba_error (what : string)
| assertion_failure (what : string).

(** A call returns, throws, ends the whole process ([exit], or
    [std::terminate] when a destructor throws), or is cut short by the
    bound put on the number of iterations of a loop. *)
Inductive result (A : Type) : Type :=
| Ok (a : A)
| Throw (e : exn)
| Exit (code : Z)
| Terminate
| OutOfFuel.

Arguments Ok {A} a.
Arguments Throw {A} e.
Arguments Exit {A} code.
Arguments Terminate {A}.
Arguments OutOfFuel {A}.

Definition result_bind {A B} (r : result A) (k : A -> result B) : result B :=
  match r with
  | Ok a => k a
  | Throw e => Throw e
  | Exit c => Exit c
  | Terminate => Terminate
  | OutOfFuel => OutOfFuel
  end.

(** ** File names: [fs::u8path::extension] and [replace_extension] *)

Module Path.

Definition dot : ascii := "."%char.

(** Splits at the rightmost period: the text before it, and the text
    from it on (period included). *)
Fixpoint rsplit_dot (s : string) : option (string * string) :=
  match s with
  | EmptyString => None
  | String c rest =>
      match rsplit_dot rest with
      | Some (pre, ext) => Some (String c pre, ext)
      | None => if Ascii.eqb c dot then Some (EmptyString, s) else None
      end
  end.

Definition is_special (filename : string) : bool :=
  (filename =? ".") || (filename =? "..").

(** The extension starts at the rightmost period of the file name; a
    period in first position does not count, and "." and ".." have
    none. *)
Definition extension (filename : string) : string :=
  if is_special filename then ""
  else match filename with
       | EmptyString => ""
       | String _ rest =>
           match rsplit_dot rest with
           | Some (_, ext) => ext
           | None => ""
           end
       end.

(** [replace_extension()] with no replacement removes the extension. *)
Definition replace_extension (filename : string) : string :=
  if is_special filename then filename
  else match filename with
       | EmptyString => ""
       | String c rest =>
           match rsplit_dot rest with
           | Some (pre, _) => String c pre
           | None => filename
           end
       end.

(** [fs::u8path::operator/] on a directory and a file name. *)
Definition join (dir filename : string) : string := dir ++ "/" ++ filename.

(** No period occurs in the string. *)
Fixpoint no_dot (s : string) : bool :=
  match s with
  | EmptyString => true
  | String c rest => negb (Ascii.eqb c dot) && no_dot rest
  end.

End Path.

(** [fmt::format("{}", n)] for a process identifier. *)
Definition to_string (n : nat) : string := NilZero.string_of_uint (Nat.to_uint n).

(** ** JSON values, as [nlohmann::json] holds them

    The operations are those [run.cpp] calls, with the results the
    library documents for them. *)

Inductive json : Type :=
| JNull
| JBool (b : bool)
| JNumber (z : Z)
| JString (s : string)
| JArray (items : list json)
| JObject (members : list (string * json)).

Module Json.

(** An object is a [std::map] from keys to values: the members are
    kept sorted by key, each key once. *)
Fixpoint find (key : string) (members : list (string * json)) : option json :=
  match members with
  | [] => None
  | (k, v) :: rest => if k =? key then Some v else find key rest
  end.

Fixpoint assign (key : string) (v : json) (members : list (string * json))
  : list (string * json) :=
  match members with
  | [] => [(key, v)]
  | (k, v') :: rest =>
      match String.compare key k with
      | Lt => (key, v) :: members
      | Eq => (key, v) :: rest
      | Gt => (k, v') :: assign key v rest
      end
  end.

(** [j[key] = v]: a null value becomes an object first; any other
    value that is not an object throws. *)
Definition set (key : string) (v : json) (j : json) : result json :=
  match j with
  | JNull => Ok (JObject [(key, v)])
  | JObject members => Ok (JObject (assign key v members))
  | _ => Throw type_error
  end.

(** [j[key]] on a constant value: the key has to be there (the library
    checks it with an assertion only), and the value has to be an
    object. *)
Definition at_const (key : string) (j : json) : result json :=
  match j with
  | JObject members =>
      match find key members with
      | Some v => Ok v
      | None => Throw (assertion_failure "key not found")
      end
  | _ => Throw type_error
  end.

(** [j == s] for a string [s]. *)
Definition eq_string (j : json) (s : string) : bool :=
  match j with
  | JString s' => s' =? s
  | _ => false
  end.

(** [j.push_back(v)]: a null value becomes an array first. *)
Definition push_back (j v : json) : result json :=
  match j with
  | JNull => Ok (JArray [v])
  | JArray items => Ok (JArray (items ++ [v]))
  | _ => Throw type_error
  end.

(** [j.empty()] *)
Definition empty (j : json) : bool :=
  match j with
  | JNull => true
  | JArray [] => true
  | JObject [] => true
  | _ => false
  end.

(** A [std::vector<std::string>] converted to a value. *)
Definition of_strings (l : list string) : json := JArray (map JString l).

End Json.

(** ** The child process library ([reproc]) as the supervisor uses it

    The library is not under src/: its types are given as the
    supervisor uses them, and what it does with them is modelled from
    the spec where the definitions say so. *)

Module Reproc.

Inductive stop : Type := noop | wait | terminate | kill.

(** An action and the time, in milliseconds, to wait after it. *)
Record stop_action : Type := { action : stop; timeout : Z }.

Record stop_actions : Type :=
  { first : stop_action; second : stop_action; third : stop_action }.

Definition INFINITE : Z := -1.
Definition DEADLINE : Z := -2.

Definition no_action : stop_action := {| action := noop; timeout := 0 |}.

(** The [stop] member of a fresh [reproc::options]: three idle
    actions. *)
Definition no_actions : stop_actions :=
  {| first := no_action; second := no_action; third := no_action |}.

Inductive redirect : Type := parent | discard.
Inductive env_behavior : Type := extend | empty.

Record options : Type :=
  { working_directory : option string;
    env_kind : env_behavior;
    env_extra : list (string * string);
    redirect_in : redirect;
    redirect_out : redirect;
    redirect_err : redirect;
    redirect_parent : bool;
    stop_policy : stop_actions }.

Definition is_noop (a : stop_action) : bool :=
  match action a with noop => true | _ => false end.

(** Modelled from the spec: the actions a stop request goes through,
    "stop(escalation-actions)".  The spec words the escalation the
    handler asks for; on a request of three idle actions, which is
    what start options that set none hold, it is silent, and the
    default of the library is taken: wait until the deadline, then
    terminate and wait without bound. *)
Definition effective (sa : stop_actions) : list stop_action :=
  if is_noop (first sa) && is_noop (second sa) && is_noop (third sa)
  then [ {| action := wait; timeout := DEADLINE |};
         {| action := terminate; timeout := INFINITE |};
         no_action ]
  else [first sa; second sa; third sa].

End Reproc.

(** ** What is observed of a run *)

Inductive log_level : Type := LOG_DEBUG | LOG_INFO | LOG_WARNING.

Inductive event : Type :=
| EvLog (level : log_level) (msg : string)
| EvRunningProcesses (listing : json)
| EvStdout (line : string)
| EvStderr (line : string)
| EvDirCreated
| EvForked (child : nat)
| EvLockAcquired
| EvLockReleased
| EvRecordWritten (path : string) (doc : json)
| EvRecordRemoved (path : string)
| EvSpawn (command : list string) (opt : Reproc.options)
| EvHandlerInstalled
| EvSigterm
| EvStopRequest (actions : Reproc.stop_actions)
| EvTerminateSent
| EvKillSent
| EvWaited (timeout : Z).

(** ** The registry directory *)

Section Registry.

(** The type of file contents. *)
Variable bytes : Type.

Record file : Type :=
  { fname : string;          (* name inside the directory *)
    can_read : bool;         (* an input stream on it opens *)
    can_write : bool;        (* an output stream on it opens *)
    content : bytes }.

(** [proc_dir()] is a directory (writable or not, with its entries in
    the order the directory iterator yields them) or is not one. *)
Inductive dir_state : Type :=
| Absent
| Dir (writable : bool) (entries : list file).

(** What the supervisor gets from its collaborators and from the
    operating system: the JSON library, the helpers of mamba that are
    declared outside this file, the configuration, and the answers of
    the system calls. *)
Record platform : Type :=
  { parse : bytes -> option json;           (* [nlohmann::json::parse], [None] when it throws *)
    dump : json -> bytes;                   (* what [stream << json] writes *)
    dump_throws : json -> bool;             (* [stream << json] throws [type_error]: a
                                               string of the value is not UTF-8 *)
    dump_before_throw : json -> bytes;      (* what the stream has got by then *)
    proc_dir_path : string;                 (* home / ".mamba" / "proc" *)
    prepare_wrapped_call : string -> list string -> list string * string;
    env_get : string -> option string;
    target_prefix : string;                 (* [Context::instance().target_prefix] *)
    use_lockfiles : bool;                   (* [Context::instance().use_lockfiles] *)
    lock_io_ok : nat -> bool;               (* does the n-th locking attempt succeed *)
    lock_error : string;
    ALL_STREAMS : Z;
    SINKOUT : Z;
    SINKERR : Z;
    SINKIN : Z;
    random_draw : nat -> nat;               (* the successive outputs of the generator *)
    can_create_proc_dir : bool;
    create_error : string;
    fork_result : option nat;               (* the new process, when [fork] succeeds *)
    setsid_ok : bool;
    child_starts : bool;
    child_pid : nat;
    error_message : Z -> string;            (* [ec.message()] *)
    start_error : Z;
    sigterm_during_drain : bool;
    exit_at_drain : option Z;               (* the child ends by itself while drained *)
    child_reaction : Reproc.stop -> Z -> option Z;
                                            (* exit status when the child ends within
                                               the wait that follows an action *)
    ETIMEDOUT : Z;
    uninitialised_stop_actions : Reproc.stop_actions;
                                            (* what a [reproc::stop_actions] declared
                                               without an initialiser holds *)
    remove_error : string }.

(** The state the supervisor reads and changes. *)
Record world : Type :=
  { proc : dir_state;
    prefixes_bag : list string;             (* static in [generate_unique_process_name] *)
    alt_names : list string;                (* static in [generate_unique_process_name] *)
    rng_pos : nat;                          (* outputs of the generator used so far *)
    self_pid : nat;                         (* [getpid()] *)
    parent_pid : nat;                       (* [getppid()] *)
    lock_held : bool;
    lock_attempts : nat;
    child_status : option Z;                (* exit status of the child, once known *)
    trace : list event }.

Definition with_proc (d : dir_state) (w : world) : world :=
  {| proc := d; prefixes_bag := prefixes_bag w; alt_names := alt_names w;
     rng_pos := rng_pos w; self_pid := self_pid w; parent_pid := parent_pid w;
     lock_held := lock_held w; lock_attempts := lock_attempts w;
     child_status := child_status w; trace := trace w |}.

Definition with_pools (bag alt : list string) (w : world) : world :=
  {| proc := proc w; prefixes_bag := bag; alt_names := alt;
     rng_pos := rng_pos w; self_pid := self_pid w; parent_pid := parent_pid w;
     lock_held := lock_held w; lock_attempts := lock_attempts w;
     child_status := child_status w; trace := trace w |}.

Definition with_rng_pos (n : nat) (w : world) : world :=
  {| proc := proc w; prefixes_bag := prefixes_bag w; alt_names := alt_names w;
     rng_pos := n; self_pid := self_pid w; parent_pid := parent_pid w;
     lock_held := lock_held w; lock_attempts := lock_attempts w;
     child_status := child_status w; trace := trace w |}.

Definition with_pids (pid ppid : nat) (w : world) : world :=
  {| proc := proc w; prefixes_bag := prefixes_bag w; alt_names := alt_names w;
     rng_pos := rng_pos w; self_pid := pid; parent_pid := ppid;
     lock_held := lock_held w; lock_attempts := lock_attempts w;
     child_status := child_status w; trace := trace w |}.

Definition with_lock (held : bool) (attempts : nat) (w : world) : world :=
  {| proc := proc w; prefixes_bag := prefixes_bag w; alt_names := alt_names w;
     rng_pos := rng_pos w; self_pid := self_pid w; parent_pid := parent_pid w;
     lock_held := held; lock_attempts := attempts;
     child_status := child_status w; trace := trace w |}.

Definition with_child_status (s : option Z) (w : world) : world :=
  {| proc := proc w; prefixes_bag := prefixes_bag w; alt_names := alt_names w;
     rng_pos := rng_pos w; self_pid := self_pid w; parent_pid := parent_pid w;
     lock_held := lock_held w; lock_attempts := lock_attempts w;
     child_status := s; trace := trace w |}.

Definition with_trace (t : list event) (w : world) : world :=
  {| proc := proc w; prefixes_bag := prefixes_bag w; alt_names := alt_names w;
     rng_pos := rng_pos w; self_pid := self_pid w; parent_pid := parent_pid w;
     lock_held := lock_held w; lock_attempts := lock_attempts w;
     child_status := child_status w; trace := t |}.

(** *** Computations on the world *)

Definition M (A : Type) : Type := world -> result A * world.

Definition ret {A} (a : A) : M A := fun w => (Ok a, w).

Definition bind {A B} (m : M A) (k : A -> M B) : M B :=
  fun w =>
    match m w with
    | (Ok a, w') => k a w'
    | (Throw e, w') => (Throw e, w')
    | (Exit c, w') => (Exit c, w')
    | (Terminate, w') => (Terminate, w')
    | (OutOfFuel, w') => (OutOfFuel, w')
    end.

Definition throw {A} (e : exn) : M A := fun w => (Throw e, w).
Definition exit {A} (code : Z) : M A := fun w => (Exit code, w).
Definition out_of_fuel {A} : M A := fun w => (OutOfFuel, w).

Definition lift {A} (r : result A) : M A := fun w => (r, w).
Definition get : M world := fun w => (Ok w, w).
Definition modify (f : world -> world) : M unit := fun w => (Ok tt, f w).
Definition emit (e : event) : M unit :=
  modify (fun w => with_trace (trace w ++ [e]) w).

(** The exit status of the child, when the child process library has
    it. *)
Definition known_status : M (option Z) := fun w => (Ok (child_status w), w).

(** A destructor is [noexcept]: an exception that leaves it ends the
    process. *)
Definition noexcept (m : M unit) : M unit :=
  fun w =>
    match m w with
    | (Throw _, w') => (Terminate, w')
    | other => other
    end.

(** What a scope does when it is left, by its end, by [return] or by an
    exception: the destructors of its objects run, and the result of
    the body stands unless a destructor ends the process.  [exit]
    runs none. *)
Definition at_scope_exit {A} (body : M A) (destructors : M unit) : M A :=
  fun w =>
    match body w with
    | (Ok a, w') => bind (noexcept destructors) (fun _ => ret a) w'
    | (Throw e, w') => bind (noexcept destructors) (fun _ => throw e) w'
    | other => other
    end.

(** The same when the scope is left by an exception only: the rest of
    the scope goes on with its objects alive. *)
Definition at_scope_exit_on_throw {A} (body : M A) (destructors : M unit) : M A :=
  fun w =>
    match body w with
    | (Throw e, w') => bind (noexcept destructors) (fun _ => throw e) w'
    | other => other
    end.

End Registry.

Arguments Absent {bytes}.
Arguments ret {bytes A} a.
Arguments throw {bytes A} e.
Arguments exit {bytes A} code.
Arguments out_of_fuel {bytes A}.
Arguments lift {bytes A} r.
Arguments get {bytes}.
Arguments known_status {bytes}.

Declare Scope run_scope.
Delimit Scope run_scope with run.
Notation "x <- m ;; k" := (bind m (fun x => k))
  (at level 100, m at next level, right associativity) : run_scope.
Notation "m ;;; k" := (bind m (fun _ => k))
  (at level 100, right associativity) : run_scope.
Open Scope run_scope.

(** ** The supervisor *)

Section Supervisor.

Context {bytes : Type}.
Variable P : platform bytes.

Local Abbreviation M := (M bytes).

Definition log (level : log_level) (msg : string) : M unit :=
  emit (EvLog level msg).

(** *** Listing the registry: [get_all_running_processes_info] *)

(** The body of the loop over the directory entries, from the entry
    [entries] starts with on. *)
Fixpoint scan_entries (filter : option (json -> result bool))
    (entries : list (file bytes)) (all_processes_info : json) : M json :=
  match entries with
  | [] => ret all_processes_info
  | entry :: rest =>
      let file_location := Path.join (proc_dir_path P) (fname entry) in
      if negb (Path.extension (fname entry) =? ".json")
      then scan_entries filter rest all_processes_info
      else if negb (can_read entry)
      then log LOG_WARNING ("failed to open " ++ file_location) ;;;
           scan_entries filter rest all_processes_info
      else
        match parse P (content entry) with
        | None => throw parse_error
        | Some parsed =>
            running_processes_info <-
              lift (Json.set "pid"
                      (JString (Path.replace_extension (fname entry))) parsed) ;;
            keep <- match filter with
                    | None => ret true
                    | Some f => lift (f running_processes_info)
                    end ;;
            all_processes_info' <-
              (if keep : bool
               then lift (Json.push_back all_processes_info running_processes_info)
               else ret all_processes_info) ;;
            scan_entries filter rest all_processes_info'
        end
  end.

Definition get_all_running_processes_info
    (filter : option (json -> result bool)) : M json :=
  w <- get ;;
  match proc w with
  | Absent =>
      throw (filesystem_error ("directory iterator cannot open directory: "
                               ++ proc_dir_path P))
  | Dir _ entries => scan_entries filter entries JNull
  end.

(** The filter of [is_process_name_running]:
    [process_info["name"] == name]. *)
Definition has_name (name : string) (process_info : json) : result bool :=
  result_bind (Json.at_const "name" process_info)
              (fun v => Ok (Json.eq_string v name)).

Definition is_process_name_running (name : string) : M bool :=
  other_processes_with_same_name <-
    get_all_running_processes_info (Some (has_name name)) ;;
  ret (negb (Json.empty other_processes_with_same_name)).

(** *** The name generator: [generate_unique_process_name] *)

Definition prefixes : list string :=
  [ "curious";   "gentle";   "happy";      "stubborn";   "boring";  "interesting";
    "funny";     "weird";    "surprising"; "serious";    "tender";  "obvious";
    "great";     "proud";    "silent";     "loud";       "vacuous"; "focused";
    "pretty";    "slick";    "tedious";    "stubborn";   "daring";  "tenacious";
    "resilient"; "rigorous"; "friendly";   "creative";   "polite";  "frank";
    "honest";    "warm";     "smart";      "intriguing" ].

Definition alt_names_initial : list string :=
  [ "program"; "application"; "app"; "code"; "blob"; "binary"; "script" ].

(** [v.erase(std::next(v.begin(), idx))] *)
Definition erase {A} (idx : nat) (v : list A) : list A :=
  firstn idx v ++ skipn (S idx) v.

(** Modelled from the spec: [random_int] of [mamba/core/util_random.hpp],
    which is not under src/.  "Pop one uniformly at random": the next
    output of the generator, brought into the closed range
    [lo .. hi]. *)
Definition random_int (lo hi : nat) : M nat :=
  w <- get ;;
  modify (with_rng_pos (S (rng_pos w))) ;;;
  ret (lo + random_draw P (rng_pos w) mod (hi - lo + 1)).

(** Modelled from the spec: the characters of "a random alphanumeric
    string", the digits and the letters of both cases. *)
Definition alphanumeric_chars : list ascii :=
  list_ascii_of_string
    "0123456789ABCDEFGHIJKLMNOPQRSTUVWXYZabcdefghijklmnopqrstuvwxyz".

(** Modelled from the spec: [generate_random_alphanumeric_string] of
    [mamba/core/util_random.hpp], which is not under src/.  "A random
    alphanumeric string of fixed length": [len] characters, each drawn
    at random among the alphanumeric ones. *)
Fixpoint generate_random_alphanumeric_string (len : nat) : M string :=
  match len with
  | 0 => ret ""
  | S len' =>
      i <- random_int 0 (length alphanumeric_chars - 1) ;;
      rest <- generate_random_alphanumeric_string len' ;;
      ret (String (nth i alphanumeric_chars "0"%char) rest)
  end.

(** [fmt::format("{}_{}", selected_prefix, selected_name)] *)
Definition format_name (selected_prefix selected_name : string) : string :=
  selected_prefix ++ "_" ++ selected_name.

(** Lines 90 to 92: the name made of the prefix and of the name is
    returned unless a running process has it; [next_iteration] is
    what the loop does otherwise. *)
Definition return_unless_running (selected_prefix selected_name : string)
    (next_iteration : M string) : M string :=
  let new_process_name := format_name selected_prefix selected_name in
  running <- is_process_name_running new_process_name ;;
  if running : bool then next_iteration else ret new_process_name.

(** The [while (true)] loop; [fuel] bounds the number of iterations,
    [selected_name] is the variable of that name on entry to the
    iteration. *)
Fixpoint name_loop (fuel : nat) (program_name selected_name : string) : M string :=
  match fuel with
  | 0 => out_of_fuel
  | S fuel' =>
      w <- get ;;
      match prefixes_bag w, alt_names w with
      | _ :: _, _ =>
          selected_prefix_idx <- random_int 0 (length (prefixes_bag w) - 1) ;;
          let selected_prefix := nth selected_prefix_idx (prefixes_bag w) "" in
          modify (with_pools (erase selected_prefix_idx (prefixes_bag w))
                             (alt_names w)) ;;;
          return_unless_running selected_prefix selected_name
            (name_loop fuel' program_name selected_name)
      | [], _ :: _ =>
          selected_name_idx <- random_int 0 (length (alt_names w) - 1) ;;
          let selected_name := nth selected_name_idx (alt_names w) "" in
          modify (with_pools prefixes (erase selected_name_idx (alt_names w))) ;;;
          name_loop fuel' program_name selected_name
      | [], [] =>
          selected_prefix <- generate_random_alphanumeric_string 8 ;;
          let selected_name := program_name in
          return_unless_running selected_prefix selected_name
            (name_loop fuel' program_name selected_name)
      end
  end.

Definition generate_unique_process_name (fuel : nat) (program_name : string)
  : M string :=
  if program_name =? ""
  then throw (assertion_failure "!program_name.empty()")
  else name_loop fuel program_name program_name.

(** *** The directory lock: [lock_proc_dir] *)

(** Modelled from the spec: [LockFile] of [mamba/core/util.hpp], which is
    not under src/.  Acquisition fails with a lock-failure error, or,
    when locking is disabled by the configuration, yields an object
    that holds nothing and does nothing on release.  A [LockFile] is
    modelled by what its conversion to [bool] gives. *)
Definition LockFile_acquire : M (bool * option string) :=
  if use_lockfiles P
  then w <- get ;;
       modify (with_lock (lock_held w) (S (lock_attempts w))) ;;;
       if lock_io_ok P (lock_attempts w)
       then modify (with_lock true (S (lock_attempts w))) ;;;
            emit EvLockAcquired ;;;
            ret (true, None)
       else ret (false, Some (lock_error P))
  else ret (false, None).

(** Modelled from the spec: the destructor of a [LockFile].  "Release
    is automatic at scope exit"; an object that holds nothing "does
    nothing on release". *)
Definition LockFile_release (lockfile : bool) : M unit :=
  if lockfile
  then w <- get ;;
       modify (with_lock false (lock_attempts w)) ;;;
       emit EvLockReleased
  else ret tt.

Definition lock_proc_dir : M bool :=
  let proc_dir_path := proc_dir_path P in
  acquired <- LockFile_acquire ;;
  let '(lockfile, error) := acquired in
  if negb lockfile
  then match error with
       | Some what =>
           throw (mamba_error
                    ("'mamba run' failed to lock (" ++ proc_dir_path
                     ++ ") or lockfile was not properly deleted - error: " ++ what))
       | None =>
           log LOG_DEBUG ("`mamba run` file locking attempt ignored because locking is disabled - path: "
                      ++ proc_dir_path) ;;;
           ret lockfile
       end
  else ret lockfile.

(** *** The record of the running process: [ScopedProcFile] *)

Fixpoint find_file (name : string) (entries : list (file bytes)) : option (file bytes) :=
  match entries with
  | [] => None
  | f :: rest => if fname f =? name then Some f else find_file name rest
  end.

(** An output stream opened with [trunc | out]: an existing file
    has to accept writing, a new one needs a writable directory. *)
Definition can_open_for_writing (name : string) (d : dir_state bytes) : bool :=
  match d with
  | Absent => false
  | Dir writable entries =>
      match find_file name entries with
      | Some f => can_write f
      | None => writable
      end
  end.

(** The entries once [c] has been written to the file [name]: an
    existing file keeps its place and its permissions, a new one is
    readable and writable by its owner. *)
Fixpoint write_file (name : string) (c : bytes) (entries : list (file bytes))
  : list (file bytes) :=
  match entries with
  | [] => [ {| fname := name; can_read := true; can_write := true; content := c |} ]
  | f :: rest =>
      if fname f =? name
      then {| fname := name; can_read := can_read f; can_write := can_write f;
              content := c |} :: rest
      else f :: write_file name c rest
  end.

Fixpoint remove_file (name : string) (entries : list (file bytes)) : list (file bytes) :=
  match entries with
  | [] => []
  | f :: rest => if fname f =? name then rest else f :: remove_file name rest
  end.

(** [fmt::format("{}.json", getpid())] *)
Definition pid_file_name (pid : nat) : string := to_string pid ++ ".json".

(** The document the constructor builds. *)
Definition file_json (name : string) (command : list string) : result json :=
  result_bind (Json.set "name" (JString name) JNull) (fun j =>
  result_bind (Json.set "command" (Json.of_strings command) j) (fun j =>
  Json.set "prefix" (JString (target_prefix P)) j)).

(** The constructor up to its last line; it returns the member
    [location], kept here as the name of the file inside the
    directory.  The file is opened, and cut to nothing, before the
    document is built and put into the stream: when the serializer
    throws, the file stays, with what the stream has got by then. *)
Definition ScopedProcFile_init (name : string) (command : list string)
    (proc_dir_lock : bool) : M string :=
  w <- get ;;
  let location := pid_file_name (self_pid w) in
  (if use_lockfiles P && negb proc_dir_lock
   then throw (assertion_failure "proc_dir_lock")
   else ret tt) ;;;
  match proc w with
  | Dir writable entries =>
      if can_open_for_writing location (proc w)
      then doc <- lift (file_json name command) ;;
           if dump_throws P doc
           then modify (with_proc (Dir writable
                          (write_file location (dump_before_throw P doc) entries))) ;;;
                throw type_error
           else modify (with_proc (Dir writable
                          (write_file location (dump P doc) entries))) ;;;
                emit (EvRecordWritten (Path.join (proc_dir_path P) location) doc) ;;;
                ret location
      else throw (runtime_error
                    ("'mamba run' failed to open/create file: "
                     ++ Path.join (proc_dir_path P) location))
  | Absent =>
      throw (runtime_error
               ("'mamba run' failed to open/create file: "
                ++ Path.join (proc_dir_path P) location))
  end.

(** The constructor.  The lock is passed by value: it is released
    when the constructor is left. *)
Definition ScopedProcFile_ctor (name : string) (command : list string)
    (proc_dir_lock : bool) : M string :=
  at_scope_exit (ScopedProcFile_init name command proc_dir_lock)
                (LockFile_release proc_dir_lock).

(** The destructor. *)
Definition ScopedProcFile_dtor (location : string) : M unit :=
  lock <- lock_proc_dir ;;
  at_scope_exit
    (w <- get ;;
     match proc w with
     | Dir true entries =>
         match find_file location entries with
         | Some _ =>
             modify (with_proc (Dir true (remove_file location entries))) ;;;
             emit (EvRecordRemoved (Path.join (proc_dir_path P) location))
         | None =>
             log LOG_WARNING ("Failed to remove file '" ++ Path.join (proc_dir_path P) location
                          ++ "' : " ++ remove_error P)
         end
     | _ =>
         log LOG_WARNING ("Failed to remove file '" ++ Path.join (proc_dir_path P) location
                      ++ "' : " ++ remove_error P)
     end)
    (LockFile_release lock).

(** *** Detaching: [daemonize] *)

(** The run is followed in the process that goes on: after a
    successful [fork] that is the new process, and the exit of the
    old one is an event. *)
Definition daemonize : M unit :=
  w <- get ;;
  if Nat.eqb (parent_pid w) 1 then ret tt
  else match fork_result P with
       | None => exit 1
       | Some pid =>
           emit (EvForked pid) ;;;
           modify (with_pids pid (self_pid w)) ;;;
           if negb (setsid_ok P) then exit 1
           else emit (EvStdout ("Kill process with: kill " ++ to_string pid))
       end.

(** *** The child process *)

(** Modelled from the spec: [reproc::process::stop], which is not
    under src/.  "First a graceful terminate with a bounded wait,
    falling back to a forceful kill with the same bound if the child
    has not exited": the actions are tried in turn; an idle one is
    passed over, any other one is applied to a child that is still
    running and followed by a wait of the given time; the first wait
    that does not time out ends the request, with the exit status of
    the child. *)
Fixpoint run_stop_actions (actions : list Reproc.stop_action) (r : Z) : M Z :=
  match actions with
  | [] => ret r
  | a :: rest =>
      match Reproc.action a with
      | Reproc.noop => run_stop_actions rest 0
      | act =>
          known <- known_status ;;
          match known with
          | Some status => ret status
          | None =>
              match act with
              | Reproc.terminate => emit EvTerminateSent
              | Reproc.kill => emit EvKillSent
              | _ => ret tt
              end ;;;
              emit (EvWaited (Reproc.timeout a)) ;;;
              match child_reaction P act (Reproc.timeout a) with
              | Some status =>
                  modify (with_child_status (Some status)) ;;;
                  ret status
              | None => run_stop_actions rest (ETIMEDOUT P)
              end
          end
      end
  end.

(** Modelled from the spec: "stop(escalation-actions) ->
    (exit-status, error)"; the error is a status below zero. *)
Definition proc_stop (actions : Reproc.stop_actions) : M Z :=
  emit (EvStopRequest actions) ;;;
  run_stop_actions (Reproc.effective actions) 0.

(** The handler installed for [SIGTERM].  [sa] is declared without
    an initialiser and its first two actions are assigned: the third
    is whatever the declaration left there.  (A third action that is
    none of the four of [Reproc.stop] ends the request, with an error
    and nothing sent; the handler drops what the request gives, so
    that this is what an idle third action does here.) *)
Definition sigterm_handler : M unit :=
  log LOG_INFO "Received SIGTERM on micromamba run - terminating process" ;;;
  let sa := uninitialised_stop_actions P in
  let sa := {| Reproc.first := {| Reproc.action := Reproc.terminate;
                                  Reproc.timeout := 3000 |};
               Reproc.second := Reproc.second sa;
               Reproc.third := Reproc.third sa |} in
  let sa := {| Reproc.first := Reproc.first sa;
               Reproc.second := {| Reproc.action := Reproc.kill;
                                   Reproc.timeout := 3000 |};
               Reproc.third := Reproc.third sa |} in
  proc_stop sa ;;;
  ret tt.

(** Modelled from the spec: [reproc::drain], which is not under src/.
    "Stream draining blocks until the child produces EOF on its
    redirected streams or exits".  Meanwhile a [SIGTERM] may arrive,
    which runs the handler, and the child may end by itself. *)
Definition drain : M unit :=
  (if sigterm_during_drain P
   then emit EvSigterm ;;; sigterm_handler
   else ret tt) ;;;
  known <- known_status ;;
  match known, exit_at_drain P with
  | None, Some status => modify (with_child_status (Some status))
  | _, _ => ret tt
  end.

(** Lines 376 to 423: the child is started, watched and stopped. *)
Definition launch_and_supervise (wrapped_command : list string)
    (opt : Reproc.options) : M Z :=
  emit (EvSpawn wrapped_command opt) ;;;
  if negb (child_starts P)
  then emit (EvStderr (error_message P (start_error P))) ;;;
       ret 1%Z
  else
    emit EvHandlerInstalled ;;;
    let opt :=
      {| Reproc.working_directory := Reproc.working_directory opt;
         Reproc.env_kind := Reproc.env_kind opt;
         Reproc.env_extra := Reproc.env_extra opt;
         Reproc.redirect_in := Reproc.redirect_in opt;
         Reproc.redirect_out := Reproc.redirect_out opt;
         Reproc.redirect_err := Reproc.redirect_err opt;
         Reproc.redirect_parent := true;
         Reproc.stop_policy := Reproc.stop_policy opt |} in
    drain ;;;
    status <- proc_stop (Reproc.stop_policy opt) ;;
    (if (status <? 0)%Z
     then emit (EvStderr (error_message P status))
     else ret tt) ;;;
    ret status.

(** *** [run_in_environment] *)

(** [fs::create_directories(proc_dir(), ec)] and the warning that
    follows a failure. *)
Definition ensure_proc_dir : M unit :=
  w <- get ;;
  match proc w with
  | Dir _ _ => ret tt
  | Absent =>
      if can_create_proc_dir P
      then modify (with_proc (Dir true [])) ;;; emit EvDirCreated
      else log LOG_WARNING ("Could not create proc dir: " ++ proc_dir_path P
                        ++ " (" ++ create_error P ++ ")")
  end.

(** [split(e, "=", 1)] on a string that holds the separator. *)
Fixpoint split_at_eq (e : string) : option (string * string) :=
  match e with
  | EmptyString => None
  | String c rest =>
      if Ascii.eqb c "="%char then Some (EmptyString, rest)
      else match split_at_eq rest with
           | Some (k, v) => Some (String c k, v)
           | None => None
           end
  end.

(** [env_map[key] = value] on a [std::map]. *)
Fixpoint map_assign (key value : string) (m : list (string * string))
  : list (string * string) :=
  match m with
  | [] => [(key, value)]
  | (k, v) :: rest =>
      match String.compare key k with
      | Lt => (key, value) :: m
      | Eq => (key, value) :: rest
      | Gt => (k, v) :: map_assign key value rest
      end
  end.

Fixpoint collect_env (env_vars : list string) (env_map : list (string * string))
  : M (list (string * string)) :=
  match env_vars with
  | [] => ret env_map
  | e :: rest =>
      match split_at_eq e with
      | Some (k, v) => collect_env rest (map_assign k v env_map)
      | None =>
          match env_get P e with
          | Some val => collect_env rest (map_assign e val env_map)
          | None =>
              log LOG_WARNING ("Requested env var " ++ e
                           ++ " does not exist in environment") ;;;
              collect_env rest env_map
          end
      end
  end.

Definition sinks (stream_options bit : Z) : Reproc.redirect :=
  if (Z.land stream_options bit =? 0)%Z then Reproc.parent else Reproc.discard.

(** The start options, lines 282 to 322. *)
Definition start_options (cwd : string) (stream_options : Z) (clean_env : bool)
    (env_map : list (string * string)) : Reproc.options :=
  {| Reproc.working_directory := if cwd =? "" then None else Some cwd;
     Reproc.env_kind := if clean_env then Reproc.empty else Reproc.extend;
     Reproc.env_extra := env_map;
     Reproc.redirect_in := sinks stream_options (SINKIN P);
     Reproc.redirect_out := sinks stream_options (SINKOUT P);
     Reproc.redirect_err := sinks stream_options (SINKERR P);
     Reproc.redirect_parent := false;
     Reproc.stop_policy := Reproc.no_actions |}.

(** The lambda of lines 341 to 365: the name of the process, and the
    command with ["-a"] and the name inserted after its first word. *)
Definition resolve_process_name (fuel : nat) (command : list string)
    (specific_process_name : string) : M (string * list string) :=
  match command with
  | [] => throw (assertion_failure "std::next(command.begin())")
  | first :: rest =>
      if specific_process_name =? ""
      then match rest with
           | [] => throw (assertion_failure "*exe_name_it")
           | exe_name :: _ =>
               unique_name <- generate_unique_process_name fuel exe_name ;;
               ret (unique_name, first :: "-a" :: unique_name :: rest)
           end
      else running <- is_process_name_running specific_process_name ;;
           if running : bool
           then throw (runtime_error
                         ("Another process with name '" ++ specific_process_name
                          ++ "' is currently running."))
           else ret (specific_process_name,
                     first :: "-a" :: specific_process_name :: rest)
  end.

(** [fs::is_directory(proc_dir()) && mamba::path::is_writable(proc_dir())] *)
Definition can_register (w : world bytes) : bool :=
  match proc w with
  | Dir writable _ => writable
  | Absent => false
  end.

(** Lines 367 to 423, entered with the lock in [proc_dir_lock] and the
    name resolved: the record is written when the directory allows
    it, then the child is run; the objects of the block are destroyed
    when it is left. *)
Definition register_and_supervise (process_name : string) (raw_command : list string)
    (proc_dir_lock : bool) (wrapped_command : list string) (opt : Reproc.options)
  : M Z :=
  w <- get ;;
  if can_register w
  then location <- ScopedProcFile_ctor process_name raw_command proc_dir_lock ;;
       at_scope_exit (launch_and_supervise wrapped_command opt)
                     (ScopedProcFile_dtor location)
  else at_scope_exit (launch_and_supervise wrapped_command opt)
                     (LockFile_release proc_dir_lock).

(** Lines 253 to 333: everything before the block that holds the
    lock.  It yields what the block uses: the command with [exec] in
    front, the wrapped command and the start options. *)
Definition prepare_run (command : list string) (cwd : string) (stream_options : Z)
    (clean_env detach : bool) (env_vars : list string)
  : M (list string * list string * Reproc.options) :=
  ensure_proc_dir ;;;
  running <- get_all_running_processes_info None ;;
  emit (EvRunningProcesses running) ;;;
  log LOG_DEBUG ("Remaining args to run as command: " ++ String.concat " " command) ;;;
  command <- match command with
             | [] => throw (assertion_failure "command.front()")
             | front :: _ =>
                 ret (if front =? "exec" then command else "exec" :: command)
             end ;;
  let '(wrapped_command, script_file) :=
    prepare_wrapped_call P (target_prefix P) command in
  log LOG_DEBUG ("Running wrapped script: " ++ String.concat " " command) ;;;
  env_map <- collect_env env_vars [] ;;
  let opt := start_options cwd stream_options clean_env env_map in
  (if detach
   then emit (EvStdout ("Running wrapped script " ++ String.concat " " command
                        ++ " in the background")) ;;;
        daemonize
   else ret tt) ;;;
  ret (command, wrapped_command, opt).

Definition run_in_environment (fuel : nat) (command : list string) (cwd : string)
    (stream_options : Z) (clean_env detach : bool) (env_vars : list string)
    (specific_process_name : string) : M Z :=
  let raw_command := command in
  prepared <- prepare_run command cwd stream_options clean_env detach env_vars ;;
  let '(command, wrapped_command, opt) := prepared in
  proc_dir_lock <- lock_proc_dir ;;
  named <- at_scope_exit_on_throw
             (resolve_process_name fuel command specific_process_name)
             (LockFile_release proc_dir_lock) ;;
  let '(process_name, command) := named in
  register_and_supervise process_name raw_command proc_dir_lock wrapped_command opt.

End Supervisor.

(** ** Views of the model used to state and prove its properties *)

Section Views.

Context {bytes : Type}.
Variable P : platform bytes.

(** *** The listing as a function of the directory entries *)

Definition is_record_file (entry : file bytes) : bool :=
  Path.extension (fname entry) =? ".json".

(** The document a record file yields: its content parsed, with the
    stem of the file name under ["pid"]. *)
Definition record_of (entry : file bytes) : result json :=
  match parse P (content entry) with
  | None => Throw parse_error
  | Some parsed =>
      Json.set "pid" (JString (Path.replace_extension (fname entry))) parsed
  end.

Definition admit_record (filter : option (json -> result bool)) (acc info : json)
  : result json :=
  result_bind (match filter with None => Ok true | Some f => f info end)
              (fun keep : bool => if keep then Json.push_back acc info else Ok acc).

(** What the loop of [scan_entries] returns. *)
Fixpoint listing (filter : option (json -> result bool))
    (entries : list (file bytes)) (acc : json) : result json :=
  match entries with
  | [] => Ok acc
  | entry :: rest =>
      if negb (is_record_file entry) || negb (can_read entry)
      then listing filter rest acc
      else result_bind (result_bind (record_of entry) (admit_record filter acc))
                       (listing filter rest)
  end.

(** The warnings of a listing that meets no malformed record. *)
Definition skipped_warnings (entries : list (file bytes)) : list event :=
  map (fun entry => EvLog LOG_WARNING ("failed to open "
                                  ++ Path.join (proc_dir_path P) (fname entry)))
      (filter (fun entry => is_record_file entry && negb (can_read entry)) entries).

(** What [is_process_name_running] returns. *)
Definition running_in (d : dir_state bytes) (name : string) : result bool :=
  match d with
  | Absent =>
      Throw (filesystem_error ("directory iterator cannot open directory: "
                               ++ proc_dir_path P))
  | Dir _ entries =>
      result_bind (listing (Some (has_name name)) entries JNull)
                  (fun l => Ok (negb (Json.empty l)))
  end.

(** *** The listing as the specification words it *)

(** A record file that opens holds a document the listing can take:
    its content parses, to an object or to null. *)
Definition well_formed (entry : file bytes) : bool :=
  if is_record_file entry && can_read entry
  then match record_of entry with Ok _ => true | _ => false end
  else true.

(** The records of the files that open, in directory order. *)
Definition records (entries : list (file bytes)) : list json :=
  flat_map (fun entry =>
              if is_record_file entry && can_read entry
              then match record_of entry with Ok info => [info] | _ => [] end
              else [])
           entries.

(** The value the records are returned as: null when there is none. *)
Definition json_of_records (l : list json) : json :=
  match l with
  | [] => JNull
  | _ => JArray l
  end.

(** The record carries [pid] under ["pid"]. *)
Definition has_pid (pid : string) (doc : json) : bool :=
  match Json.at_const "pid" doc with
  | Ok v => Json.eq_string v pid
  | _ => false
  end.

(** The document [ScopedProcFile] stores, and the record the listing
    makes of it for the process [pid]. *)
Definition stored_record (name : string) (command : list string) : json :=
  JObject [ ("command", Json.of_strings command);
            ("name", JString name);
            ("prefix", JString (target_prefix P)) ].

Definition listed_record (pid : nat) (name : string) (command : list string) : json :=
  JObject [ ("command", Json.of_strings command);
            ("name", JString name);
            ("pid", JString (to_string pid));
            ("prefix", JString (target_prefix P)) ].

Definition dir_entries (d : dir_state bytes) : list (file bytes) :=
  match d with
  | Absent => []
  | Dir _ entries => entries
  end.

Definition kept (filter : option (json -> bool)) (l : list json) : list json :=
  match filter with
  | None => l
  | Some f => List.filter f l
  end.

Definition total_filter (filter : option (json -> bool))
  : option (json -> result bool) :=
  option_map (fun f info => Ok (f info)) filter.

(** The record has a name, and the name is [name]. *)
Definition has_name_key (doc : json) : bool :=
  match Json.at_const "name" doc with
  | Ok _ => true
  | _ => false
  end.

Definition name_is (name : string) (doc : json) : bool :=
  match Json.at_const "name" doc with
  | Ok v => Json.eq_string v name
  | _ => false
  end.

(** The directory can be listed and searched for a name: it exists,
    its record files that open are well formed, and their records
    have a name. *)
Definition healthy (d : dir_state bytes) : bool :=
  match d with
  | Absent => false
  | Dir _ entries =>
      forallb well_formed entries && forallb has_name_key (records entries)
  end.

(** *** The generator *)

(** The string [generate_random_alphanumeric_string len] builds when
    [pos] outputs of the generator have been used. *)
Fixpoint random_string_at (len pos : nat) : string :=
  match len with
  | 0 => ""
  | S len' =>
      String (nth (random_draw P pos mod length alphanumeric_chars)
                  alphanumeric_chars "0"%char)
             (random_string_at len' (S pos))
  end.

Definition alphanumeric (s : string) : Prop :=
  Forall (fun c => In c alphanumeric_chars) (list_ascii_of_string s).

(** Name resolutions made one after the other by the same process. *)
Fixpoint resolve_all (fuel : nat) (program_names : list string) : M bytes (list string) :=
  match program_names with
  | [] => ret []
  | program_name :: rest =>
      name <- generate_unique_process_name P fuel program_name ;;
      names <- resolve_all fuel rest ;;
      ret (name :: names)
  end.

(** The number of iterations the pools of [w] feed before the loop
    falls back on random prefixes. *)
Definition pool_iterations (w : world bytes) : nat :=
  length (prefixes_bag w) + length (alt_names w) * S (length prefixes).

(** What a supervisor does between taking the lock and releasing it,
    when it generates its name and the directory takes its record. *)
Definition resolve_and_register (fuel : nat) (program_name : string)
  : M bytes string :=
  proc_dir_lock <- lock_proc_dir P ;;
  name <- generate_unique_process_name P fuel program_name ;;
  ScopedProcFile_ctor P name [program_name] proc_dir_lock ;;;
  ret name.

(** Supervisors that do so one after the other on the same registry
    directory [d]; each comes with its own state and the name of its
    program, and leaves its record in the directory. *)
Fixpoint register_all (fuel : nat) (supervisors : list (world bytes * string))
    (d : dir_state bytes) : result (list string) * dir_state bytes :=
  match supervisors with
  | [] => (Ok [], d)
  | (w, program_name) :: rest =>
      match resolve_and_register fuel program_name (with_proc d w) with
      | (Ok name, w') =>
          let (r, d') := register_all fuel rest (proc w') in
          (result_bind r (fun names => Ok (name :: names)), d')
      | (failure, w') => (result_bind failure (fun _ => Ok []), proc w')
      end
  end.

(** *** Traces *)

(** [w'] is [w] after some more events, all of them in [Q]. *)
Definition extends (Q : event -> Prop) (w w' : world bytes) : Prop :=
  exists evs, trace w' = (trace w ++ evs)%list /\ Forall Q evs.

(** The same, the registry directory and the identity of the process
    being left as they are. *)
Definition stable (Q : event -> Prop) (w w' : world bytes) : Prop :=
  extends Q w w' /\ proc w' = proc w /\ self_pid w' = self_pid w
  /\ parent_pid w' = parent_pid w.

(** [m] returns, whatever the world. *)
Definition always_returns {A} (m : M bytes A) : Prop :=
  forall w, exists a w', m w = (Ok a, w').

(** The result of [m], and what is known of the child after it,
    depend on the world through what is known of the child only. *)
Definition reads_child_only {A} (m : M bytes A) : Prop :=
  forall w1 w2,
    child_status w1 = child_status w2 ->
    fst (m w1) = fst (m w2)
    /\ child_status (snd (m w1)) = child_status (snd (m w2)).

(** What is known of the child is the same in [w] and [w']. *)
Definition same_child (w w' : world bytes) : Prop :=
  child_status w' = child_status w.

(** Every run of [m] relates the world before to the world after. *)
Definition respects {A} (R : world bytes -> world bytes -> Prop) (m : M bytes A) : Prop :=
  forall w r w', m w = (r, w') -> R w w'.

End Views.

Definition is_warning (e : event) : Prop :=
  match e with
  | EvLog LOG_WARNING _ => True
  | _ => False
  end.

Definition is_record_written (e : event) : bool :=
  match e with
  | EvRecordWritten _ _ => true
  | _ => false
  end.

Definition is_spawn (e : event) : bool :=
  match e with
  | EvSpawn _ _ => true
  | _ => false
  end.

(** Neither a record written nor a child started. *)
Definition silent (e : event) : Prop :=
  is_record_written e = false /\ is_spawn e = false.

(** For each child started in [tr], whether the lock was held then. *)
Fixpoint lock_held_at_spawns (tr : list event) (held : bool) : list bool :=
  match tr with
  | [] => []
  | EvLockAcquired :: rest => lock_held_at_spawns rest true
  | EvLockReleased :: rest => lock_held_at_spawns rest false
  | EvSpawn _ _ :: rest => held :: lock_held_at_spawns rest held
  | _ :: rest => lock_held_at_spawns rest held
  end.

(** ** A platform and worlds to run the model on *)

Module Example.

(** File contents: the text of a JSON value, or text that does not
    parse. *)
Inductive text : Type :=
| json_text (j : json)
| malformed (raw : string).

Definition parse_text (t : text) : option json :=
  match t with
  | json_text j => Some j
  | malformed _ => None
  end.

(** The string holds the byte 255, which no UTF-8 text holds. *)
Fixpoint not_utf8 (s : string) : bool :=
  match s with
  | EmptyString => false
  | String c rest => Ascii.eqb c (ascii_of_nat 255) || not_utf8 rest
  end.

(** A string or a key of the value is not UTF-8. *)
Fixpoint holds_invalid_text (j : json) : bool :=
  match j with
  | JString s => not_utf8 s
  | JArray items => existsb holds_invalid_text items
  | JObject members =>
      existsb (fun member => match member with
                             | (key, value) => not_utf8 key || holds_invalid_text value
                             end) members
  | _ => false
  end.

(** An argument that is not UTF-8: the byte 255 alone. *)
Definition not_text : string := String (ascii_of_nat 255) EmptyString.

(** A host with locking enabled whose generator outputs [draws], then
    zeros; the child it starts ends with status 0 when it is left
    alone or asked to terminate.  Its serializer throws on a value
    that holds the byte 255, the stream having got an opening brace;
    the memory a declaration without initialiser finds asks to kill
    and wait 21845 ms, three times. *)
Definition host (draws : list nat) : platform text :=
  {| parse := parse_text;
     dump := json_text;
     dump_throws := holds_invalid_text;
     dump_before_throw := fun _ => malformed "{";
     proc_dir_path := "/home/user/.mamba/proc";
     prepare_wrapped_call :=
       fun prefix command => ("/bin/bash" :: "/tmp/mamba_wrap.sh" :: command,
                              "/tmp/mamba_wrap.sh");
     env_get := fun name => if name =? "PATH" then Some "/usr/bin" else None;
     target_prefix := "/opt/env";
     use_lockfiles := true;
     lock_io_ok := fun _ => true;
     lock_error := "cannot lock";
     ALL_STREAMS := 0;
     SINKOUT := 1;
     SINKERR := 2;
     SINKIN := 4;
     random_draw := fun n => nth n draws 0;
     can_create_proc_dir := true;
     create_error := "permission denied";
     fork_result := Some 4242;
     setsid_ok := true;
     child_starts := true;
     child_pid := 777;
     error_message := fun _ => "error";
     start_error := (-2);
     sigterm_during_drain := false;
     exit_at_drain := Some 0%Z;
     child_reaction := fun _ _ => Some 0%Z;
     ETIMEDOUT := (-110);
     uninitialised_stop_actions :=
       {| Reproc.first := {| Reproc.action := Reproc.kill; Reproc.timeout := 21845 |};
          Reproc.second := {| Reproc.action := Reproc.kill; Reproc.timeout := 21845 |};
          Reproc.third := {| Reproc.action := Reproc.kill; Reproc.timeout := 21845 |} |};
     remove_error := "no such file" |}.

(** The world of a process 100, child of process 50, that has not
    resolved a name yet. *)
Definition start (d : dir_state text) : world text :=
  {| proc := d;
     prefixes_bag := prefixes;
     alt_names := alt_names_initial;
     rng_pos := 0;
     self_pid := 100;
     parent_pid := 50;
     lock_held := false;
     lock_attempts := 0;
     child_status := None;
     trace := [] |}.

(** The same with the pools as given. *)
Definition start_with (bag alt : list string) (d : dir_state text) : world text :=
  with_pools bag alt (start d).

(** The record file of a process [pid] that runs under [name]. *)
Definition record_file (pid : nat) (name : string) : file text :=
  {| fname := to_string pid ++ ".json";
     can_read := true;
     can_write := true;
     content := json_text (JObject [ ("command", JArray [JString "sleep"]);
                                     ("name", JString name);
                                     ("prefix", JString "/opt/env") ]) |}.

Definition unreadable_file (pid : nat) : file text :=
  {| fname := to_string pid ++ ".json";
     can_read := false;
     can_write := false;
     content := malformed "" |}.

Definition malformed_file (pid : nat) : file text :=
  {| fname := to_string pid ++ ".json";
     can_read := true;
     can_write := true;
     content := malformed "{" |}.

End Example.

(** The stop requests made in [tr], in order. *)
Fixpoint stop_requests (tr : list event) : list Reproc.stop_actions :=
  match tr with
  | [] => []
  | EvStopRequest actions :: rest => actions :: stop_requests rest
  | _ :: rest => stop_requests rest
  end.

Definition is_stop (act : Reproc.stop) (ms : Z) (a : Reproc.stop_action) : bool :=
  match Reproc.action a, act with
  | Reproc.terminate, Reproc.terminate | Reproc.kill, Reproc.kill =>
      (Reproc.timeout a =? ms)%Z
  | _, _ => false
  end.

(** The request terminates and waits 3000 ms, then kills and waits
    3000 ms. *)
Definition escalates (actions : Reproc.stop_actions) : bool :=
  is_stop Reproc.terminate 3000 (Reproc.first actions)
  && is_stop Reproc.kill 3000 (Reproc.second actions).

(** The request the handler of [SIGTERM] makes: its third action is
    the one the declaration of [sa] left there. *)
Definition sigterm_request {bytes : Type} (P : platform bytes) : Reproc.stop_actions :=
  {| Reproc.first := {| Reproc.action := Reproc.terminate; Reproc.timeout := 3000 |};
     Reproc.second := {| Reproc.action := Reproc.kill; Reproc.timeout := 3000 |};
     Reproc.third := Reproc.third (uninitialised_stop_actions P) |}.

(** What an action sends to the child. *)
Definition sent (act : Reproc.stop) : list event :=
  match act with
  | Reproc.terminate => [EvTerminateSent]
  | Reproc.kill => [EvKillSent]
  | _ => []
  end.

(** What is seen of an action applied to a running child: what it
    sends, and the wait that follows; nothing for an idle one. *)
Definition applied (a : Reproc.stop_action) : list event :=
  match Reproc.action a with
  | Reproc.noop => []
  | act => sent act ++ [EvWaited (Reproc.timeout a)]
  end.

(** What is seen of [actions] gone through on a running child: each
    one is applied as long as the wait of the one before timed out. *)
Fixpoint stop_events {bytes : Type} (P : platform bytes)
    (actions : list Reproc.stop_action) : list event :=
  match actions with
  | [] => []
  | a :: rest =>
      match Reproc.action a with
      | Reproc.noop => stop_events P rest
      | act =>
          applied a ++ match child_reaction P act (Reproc.timeout a) with
                       | Some _ => []
                       | None => stop_events P rest
                       end
      end
  end.

Section Identity.

Context {bytes : Type}.
Variable P : platform bytes.

(** The process that supervises the child: the one that called, or
    the one [daemonize] forked. *)
Definition supervisor_pid (detach : bool) (w : world bytes) : nat :=
  if detach && negb (Nat.eqb (parent_pid w) 1)
  then match fork_result P with
       | Some pid => pid
       | None => self_pid w
       end
  else self_pid w.

(** The path of the record file of the process [pid]. *)
Definition record_path (pid : nat) : string :=
  Path.join (proc_dir_path P) (to_string pid ++ ".json").

(** A record, if [e] writes one, is written to [path]. *)
Definition written_to (path : string) (e : event) : Prop :=
  match e with
  | EvRecordWritten p _ => p = path
  | _ => True
  end.

(** The process stays the same, and writes no record but its own. *)
Definition keeps_identity (w w' : world bytes) : Prop :=
  extends (written_to (record_path (self_pid w))) w w'
  /\ self_pid w' = self_pid w.

End Identity.

(** A host on which a [SIGTERM] arrives while the child is drained;
    the child ends, with status 15, when asked to terminate. *)
Definition interrupted {bytes : Type} (H : platform bytes) : platform bytes :=
  {| parse := parse H;
     dump := dump H;
     dump_throws := dump_throws H;
     dump_before_throw := dump_before_throw H;
     proc_dir_path := proc_dir_path H;
     prepare_wrapped_call := prepare_wrapped_call H;
     env_get := env_get H;
     target_prefix := target_prefix H;
     use_lockfiles := use_lockfiles H;
     lock_io_ok := lock_io_ok H;
     lock_error := lock_error H;
     ALL_STREAMS := ALL_STREAMS H;
     SINKOUT := SINKOUT H;
     SINKERR := SINKERR H;
     SINKIN := SINKIN H;
     random_draw := random_draw H;
     can_create_proc_dir := can_create_proc_dir H;
     create_error := create_error H;
     fork_result := fork_result H;
     setsid_ok := setsid_ok H;
     child_starts := child_starts H;
     child_pid := child_pid H;
     error_message := error_message H;
     start_error := start_error H;
     sigterm_during_drain := true;
     exit_at_drain := None;
     child_reaction := fun act _ =>
                         match act with
                         | Reproc.terminate => Some 15%Z
                         | _ => None
                         end;
     ETIMEDOUT := ETIMEDOUT H;
     uninitialised_stop_actions := uninitialised_stop_actions H;
     remove_error := remove_error H |}.

(** ** Further views of the model *)

Section FurtherViews.

Context {bytes : Type}.
Variable P : platform bytes.

(** *** The extra environment of the child *)

(** [env_map.find(key)] *)
Fixpoint env_lookup (key : string) (env_map : list (string * string)) : option string :=
  match env_map with
  | [] => None
  | (k, v) :: rest => if k =? key then Some v else env_lookup key rest
  end.

(** What an entry of [env_vars] sets: the variable and the value on
    either side of its first ["="], or, for an entry that has none,
    the variable it names with the value the environment has for it;
    nothing when the environment has none. *)
Definition env_setting (e : string) : option (string * string) :=
  match split_at_eq e with
  | Some (k, v) => Some (k, v)
  | None =>
      match env_get P e with
      | Some val => Some (e, val)
      | None => None
      end
  end.

(** The map the loop of lines 296 to 316 ends with, from [env_map]. *)
Fixpoint collected_env (env_vars : list string) (env_map : list (string * string))
  : list (string * string) :=
  match env_vars with
  | [] => env_map
  | e :: rest =>
      match env_setting e with
      | Some (k, v) => collected_env rest (map_assign k v env_map)
      | None => collected_env rest env_map
      end
  end.

(** The warnings of that loop: one for each entry that sets nothing. *)
Definition env_warnings (env_vars : list string) : list event :=
  map (fun e => EvLog LOG_WARNING ("Requested env var " ++ e
                                   ++ " does not exist in environment"))
      (List.filter (fun e => match env_setting e with
                             | Some _ => false
                             | None => true
                             end) env_vars).

(** The value [key] has once the entries [env_vars] have been gone
    through, [value] being the one it had before: the value the last
    entry that sets [key] gives it. *)
Definition last_setting (key : string) (env_vars : list string) (value : option string)
  : option string :=
  fold_left (fun value e =>
               match env_setting e with
               | Some (k, v) => if k =? key then Some v else value
               | None => value
               end)
            env_vars value.

(** The keys of a [std::map] come in ascending order, each once. *)
Fixpoint keys_ascending (env_map : list (string * string)) : bool :=
  match env_map with
  | [] => true
  | (k, _) :: rest =>
      match rest with
      | [] => true
      | (k', _) :: _ =>
          match String.compare k k' with
          | Lt => keys_ascending rest
          | _ => false
          end
      end
  end.

(** The first key of a map, if any, comes after [k]. *)
Definition above (k : string) (env_map : list (string * string)) : Prop :=
  match env_map with
  | [] => True
  | (k', _) :: _ => String.compare k k' = Lt
  end.

(** *** The pools of the name generator *)

(** From [w] to [w'] the bag of prefixes stays within the list of
    prefixes, and no alternative name comes back. *)
Definition pools_within (w w' : world bytes) : Prop :=
  (incl (prefixes_bag w) prefixes -> incl (prefixes_bag w') prefixes)
  /\ incl (alt_names w') (alt_names w)
  /\ length (alt_names w') <= length (alt_names w).

(** *** The lock *)

(** The registry directory is in [w'] as it is in [w]. *)
Definition same_dir (w w' : world bytes) : Prop := proc w' = proc w.

(** The lock is held in [w'] as it is in [w], and no attempt to take
    it was made in between. *)
Definition same_lock (w w' : world bytes) : Prop :=
  lock_held w' = lock_held w /\ lock_attempts w' = lock_attempts w.

(** The call came back to its caller, by [return] or by an
    exception. *)
Definition came_back {A} (r : result A) : bool :=
  match r with
  | Ok _ | Throw _ => true
  | _ => false
  end.

(** *** What a run writes and starts *)

(** A record, if [e] writes one, holds [command] and the prefix of the
    context, under the name the caller asked for when there is one. *)
Definition records_command (command : list string) (specific_process_name : string)
    (e : event) : Prop :=
  match e with
  | EvRecordWritten _ doc =>
      exists name,
        doc = stored_record P name command
        /\ (specific_process_name <> "" -> name = specific_process_name)
  | _ => True
  end.

(** An event of the child: its start, the handler of the signal and
    the signal, a stop request and what it sends and waits for, or a
    message on the standard error stream. *)
Definition of_the_child (e : event) : bool :=
  match e with
  | EvSpawn _ _ | EvHandlerInstalled | EvSigterm | EvStopRequest _
  | EvTerminateSent | EvKillSent | EvWaited _ | EvStderr _ => true
  | _ => false
  end.

(** The event is none of the child. *)
Definition apart (e : event) : Prop := of_the_child e = false.

(** The command the preparation puts [exec] in front of. *)
Definition exec_command (command : list string) : list string :=
  match command with
  | [] => []
  | front :: _ => if front =? "exec" then command else "exec" :: command
  end.

(** The child as [run_in_environment] starts it for [command]. *)
Definition child_start (command : list string) (cwd : string) (stream_options : Z)
    (clean_env : bool) (env_vars : list string) : event :=
  EvSpawn (fst (prepare_wrapped_call P (target_prefix P) (exec_command command)))
          (start_options P cwd stream_options clean_env (collected_env env_vars [])).

End FurtherViews.

(** A host that differs from [H] by what the operating system answers:
    whether locking is enabled and which attempts to lock succeed,
    whether the registry directory can be created, what [fork] and
    [setsid] give, and whether the child starts. *)
Definition host_where {bytes : Type} (locking : bool) (lock_ok : nat -> bool)
    (can_create : bool) (fork : option nat) (setsid starts : bool)
    (H : platform bytes) : platform bytes :=
  {| parse := parse H;
     dump := dump H;
     dump_throws := dump_throws H;
     dump_before_throw := dump_before_throw H;
     proc_dir_path := proc_dir_path H;
     prepare_wrapped_call := prepare_wrapped_call H;
     env_get := env_get H;
     target_prefix := target_prefix H;
     use_lockfiles := locking;
     lock_io_ok := lock_ok;
     lock_error := lock_error H;
     ALL_STREAMS := ALL_STREAMS H;
     SINKOUT := SINKOUT H;
     SINKERR := SINKERR H;
     SINKIN := SINKIN H;
     random_draw := random_draw H;
     can_create_proc_dir := can_create;
     create_error := create_error H;
     fork_result := fork;
     setsid_ok := setsid;
     child_starts := starts;
     child_pid := child_pid H;
     error_message := error_message H;
     start_error := start_error H;
     sigterm_during_drain := sigterm_during_drain H;
     exit_at_drain := exit_at_drain H;
     child_reaction := child_reaction H;
     ETIMEDOUT := ETIMEDOUT H;
     uninitialised_stop_actions := uninitialised_stop_actions H;
     remove_error := remove_error H |}.

(** * Properties *)

Unset Implicit Arguments.

(** ** File names *)

Module PathFacts.
Import Path.

Lemma append_empty (s : string) : s ++ "" = s.
Proof. induction s as [|c s IH]; simpl; [reflexivity | now rewrite IH]. Qed.

Lemma rsplit_dot_app (s pre ext : string) :
  rsplit_dot s = Some (pre, ext) -> s = pre ++ ext.
Proof.
  revert pre ext; induction s as [|c s IH]; simpl; intros pre ext H; [discriminate|].
  destruct (rsplit_dot s) as [[p e]|].
  - injection H as <- <-. simpl. now rewrite (IH p e eq_refl).
  - destruct (Ascii.eqb c dot); [|discriminate].
    now injection H as <- <-.
Qed.

(** A file name is its stem followed by its extension. *)
Lemma stem_extension (f : string) : f = replace_extension f ++ extension f.
Proof.
  unfold replace_extension, extension.
  destruct (is_special f); [now rewrite append_empty|].
  destruct f as [|c rest]; [reflexivity|].
  destruct (rsplit_dot rest) as [[p e]|] eqn:E.
  - simpl. now rewrite (rsplit_dot_app _ _ _ E).
  - now rewrite append_empty.
Qed.

Lemma rsplit_dot_prefix (s t : string) :
  no_dot s = true ->
  rsplit_dot (s ++ t) =
    match rsplit_dot t with
    | Some (pre, ext) => Some (s ++ pre, ext)
    | None => None
    end.
Proof.
  induction s as [|c s IH]; simpl; intros H.
  - now destruct (rsplit_dot t) as [[? ?]|].
  - apply andb_prop in H as [Hc Hs]. rewrite (IH Hs).
    destruct (rsplit_dot t) as [[? ?]|]; [reflexivity|].
    apply negb_true_iff in Hc. now rewrite Hc.
Qed.

Lemma no_dot_not_special (c : ascii) (s : string) :
  no_dot (String c s) = true -> is_special (String c s ++ ".json") = false.
Proof.
  simpl. intros H. apply andb_prop in H as [Hc _]. apply negb_true_iff in Hc.
  unfold is_special. apply orb_false_iff; split; apply String.eqb_neq; intros E;
    injection E as -> _; discriminate.
Qed.

Lemma extension_json (s : string) :
  s <> "" -> no_dot s = true -> extension (s ++ ".json") = ".json".
Proof.
  intros Hne H. destruct s as [|c s]; [congruence|].
  unfold extension. rewrite (no_dot_not_special c s H). simpl.
  simpl in H. apply andb_prop in H as [_ Hs].
  now rewrite (rsplit_dot_prefix _ _ Hs).
Qed.

Lemma replace_extension_json (s : string) :
  s <> "" -> no_dot s = true -> replace_extension (s ++ ".json") = s.
Proof.
  intros Hne H. destruct s as [|c s]; [congruence|].
  unfold replace_extension. rewrite (no_dot_not_special c s H). simpl.
  simpl in H. apply andb_prop in H as [_ Hs].
  rewrite (rsplit_dot_prefix _ _ Hs). simpl. now rewrite append_empty.
Qed.

End PathFacts.

(** ** Decimal process identifiers *)

Lemma no_dot_uint (d : Decimal.uint) : Path.no_dot (NilEmpty.string_of_uint d) = true.
Proof. induction d; simpl; auto. Qed.

Lemma to_string_no_dot (n : nat) : Path.no_dot (to_string n) = true.
Proof.
  unfold to_string, NilZero.string_of_uint.
  destruct (Nat.to_uint n); try reflexivity; apply (no_dot_uint (_ _)).
Qed.

Lemma to_string_nonempty (n : nat) : to_string n <> "".
Proof.
  unfold to_string, NilZero.string_of_uint.
  destruct (Nat.to_uint n); discriminate.
Qed.

Lemma to_uint_nonnil (n : nat) : Nat.to_uint n <> Decimal.Nil.
Proof.
  rewrite <- (Unsigned.of_to n) at 1. rewrite Unsigned.to_of.
  apply DecimalFacts.unorm_nonnil.
Qed.

Lemma to_string_inj (n m : nat) : to_string n = to_string m -> n = m.
Proof.
  unfold to_string. intros H.
  apply (f_equal NilZero.uint_of_string) in H.
  rewrite !NilZero.usu in H by apply to_uint_nonnil.
  injection H as H. now apply Unsigned.to_uint_inj.
Qed.

Lemma pid_file_is_record (pid : nat) : Path.extension (pid_file_name pid) = ".json".
Proof.
  apply PathFacts.extension_json; [apply to_string_nonempty | apply to_string_no_dot].
Qed.

Lemma pid_file_stem (pid : nat) : Path.replace_extension (pid_file_name pid) = to_string pid.
Proof.
  apply PathFacts.replace_extension_json; [apply to_string_nonempty | apply to_string_no_dot].
Qed.

(** ** Objects *)

Module JsonFacts.
Import Json.

Lemma compare_refl (s : string) : String.compare s s = Eq.
Proof.
  induction s as [|c s IH]; simpl; [reflexivity|].
  unfold Ascii.compare. now rewrite N.compare_refl.
Qed.

Lemma find_assign_same (key : string) (v : json) (members : list (string * json)) :
  find key (assign key v members) = Some v.
Proof.
  induction members as [|[k v'] rest IH]; simpl.
  - now rewrite String.eqb_refl.
  - destruct (String.compare key k) eqn:E; simpl.
    + now rewrite String.eqb_refl.
    + now rewrite String.eqb_refl.
    + destruct (String.eqb_spec k key) as [->|_]; [|exact IH].
      now rewrite compare_refl in E.
Qed.

Lemma find_assign_other (key key' : string) (v : json) (members : list (string * json)) :
  key <> key' -> find key' (assign key v members) = find key' members.
Proof.
  intros Hne. induction members as [|[k v'] rest IH]; simpl.
  - destruct (String.eqb_spec key key'); congruence.
  - destruct (String.compare key k) eqn:E; simpl.
    + apply String.compare_eq_iff in E. subst k.
      destruct (String.eqb_spec key key'); congruence.
    + destruct (String.eqb_spec key key'); congruence.
    + now rewrite IH.
Qed.

End JsonFacts.

(** ** Worlds and computations *)

Section WorldFacts.

Context {bytes : Type}.
Implicit Types w : world bytes.

Lemma with_trace_nil w : with_trace (trace w ++ []) w = w.
Proof. destruct w; unfold with_trace; simpl. now rewrite List.app_nil_r. Qed.

Lemma with_trace_twice (t1 t2 : list event) w :
  with_trace ((trace (with_trace (trace w ++ t1) w)) ++ t2) (with_trace (trace w ++ t1) w)
  = with_trace (trace w ++ (t1 ++ t2)) w.
Proof. destruct w; unfold with_trace; simpl. now rewrite List.app_assoc. Qed.

Lemma extends_refl (Q : event -> Prop) w : extends Q w w.
Proof. exists []. now rewrite List.app_nil_r. Qed.

Lemma extends_trans (Q : event -> Prop) w1 w2 w3 :
  extends Q w1 w2 -> extends Q w2 w3 -> extends Q w1 w3.
Proof.
  intros (e1 & H1 & F1) (e2 & H2 & F2). exists (e1 ++ e2)%list. split.
  - now rewrite H2, H1, List.app_assoc.
  - apply Forall_app; now split.
Qed.

Lemma extends_weaken (Q Q' : event -> Prop) w w' :
  (forall e, Q e -> Q' e) -> extends Q w w' -> extends Q' w w'.
Proof.
  intros HQ (evs & H & F). exists evs. split; [exact H|].
  now apply (Forall_impl _ HQ).
Qed.

Lemma extends_emit (Q : event -> Prop) (e : event) w :
  Q e -> extends Q w (with_trace (trace w ++ [e]) w).
Proof. intros H. exists [e]. split; [reflexivity | now constructor]. Qed.

End WorldFacts.

(** Computations that keep to a relation between the world before and
    the world after, when the relation is reflexive and transitive. *)
Section Respects.

Context {bytes : Type}.
Variable R : world bytes -> world bytes -> Prop.
Hypothesis R_refl : forall w, R w w.
Hypothesis R_trans : forall w1 w2 w3, R w1 w2 -> R w2 w3 -> R w1 w3.

Lemma respects_ret {A} (a : A) : respects R (ret (bytes := bytes) a).
Proof. intros w r w' H. injection H as _ <-. apply R_refl. Qed.

Lemma respects_throw {A} (e : exn) : respects R (throw (bytes := bytes) (A := A) e).
Proof. intros w r w' H. injection H as _ <-. apply R_refl. Qed.

Lemma respects_exit {A} (c : Z) : respects R (exit (bytes := bytes) (A := A) c).
Proof. intros w r w' H. injection H as _ <-. apply R_refl. Qed.

Lemma respects_out_of_fuel {A} : respects R (out_of_fuel (bytes := bytes) (A := A)).
Proof. intros w r w' H. injection H as _ <-. apply R_refl. Qed.

Lemma respects_lift {A} (x : result A) : respects R (lift (bytes := bytes) x).
Proof. intros w r w' H. injection H as _ <-. apply R_refl. Qed.

Lemma respects_get : respects R (get (bytes := bytes)).
Proof. intros w r w' H. injection H as _ <-. apply R_refl. Qed.

Lemma respects_known_status : respects R (known_status (bytes := bytes)).
Proof. intros w r w' H. injection H as _ <-. apply R_refl. Qed.

Lemma respects_modify (f : world bytes -> world bytes) :
  (forall w, R w (f w)) -> respects R (modify f).
Proof. intros Hf w r w' H. injection H as _ <-. apply Hf. Qed.

Lemma respects_bind {A B} (m : M bytes A) (k : A -> M bytes B) :
  respects R m -> (forall a, respects R (k a)) -> respects R (bind m k).
Proof.
  intros Hm Hk w r w' H. unfold bind in H.
  destruct (m w) as [[a| | | |] w1] eqn:E;
    try (injection H as _ <-; now apply (Hm _ _ _ E)).
  apply (R_trans _ w1); [now apply (Hm _ _ _ E) | now apply (Hk a _ _ _ H)].
Qed.

Lemma respects_noexcept (m : M bytes unit) : respects R m -> respects R (noexcept m).
Proof.
  intros Hm w r w' H. unfold noexcept in H.
  destruct (m w) as [[a| | | |] w1] eqn:E; injection H as _ <-; now apply (Hm _ _ _ E).
Qed.

Lemma respects_at_scope_exit {A} (body : M bytes A) (destructors : M bytes unit) :
  respects R body -> respects R destructors ->
  respects R (at_scope_exit body destructors).
Proof.
  intros Hb Hd w r w' H. unfold at_scope_exit in H.
  destruct (body w) as [[a| | | |] w1] eqn:E;
    try (injection H as _ <-; now apply (Hb _ _ _ E)).
  - apply (R_trans _ w1); [now apply (Hb _ _ _ E)|].
    revert H. apply respects_bind; [now apply respects_noexcept | intros; apply respects_ret].
  - apply (R_trans _ w1); [now apply (Hb _ _ _ E)|].
    revert H. apply respects_bind; [now apply respects_noexcept | intros; apply respects_throw].
Qed.

Lemma respects_at_scope_exit_on_throw {A} (body : M bytes A) (destructors : M bytes unit) :
  respects R body -> respects R destructors ->
  respects R (at_scope_exit_on_throw body destructors).
Proof.
  intros Hb Hd w r w' H. unfold at_scope_exit_on_throw in H.
  destruct (body w) as [[a| | | |] w1] eqn:E;
    try (injection H as _ <-; now apply (Hb _ _ _ E)).
  apply (R_trans _ w1); [now apply (Hb _ _ _ E)|].
  revert H. apply respects_bind; [now apply respects_noexcept | intros; apply respects_throw].
Qed.

End Respects.

(** ** The listing *)

Section ListingFacts.

Context {bytes : Type}.
Variable P : platform bytes.
Implicit Types w : world bytes.

(** The loop returns what [listing] says and changes the world by
    warnings only. *)
Lemma scan_entries_spec (filter : option (json -> result bool))
    (entries : list (file bytes)) :
  forall (acc : json) w,
  exists evs,
    scan_entries P filter entries acc w
    = (listing P filter entries acc, with_trace (trace w ++ evs) w)
    /\ Forall is_warning evs.
Proof.
  induction entries as [|entry rest IH]; intros acc w.
  - exists []. simpl. unfold ret. now rewrite with_trace_nil.
  - simpl. unfold is_record_file.
    destruct (Path.extension (fname entry) =? ".json"); simpl; [|apply IH].
    destruct (can_read entry); simpl.
    + unfold record_of. destruct (parse P (content entry)) as [parsed|].
      2:{ exists []. unfold throw. now rewrite with_trace_nil. }
      unfold bind at 1, lift at 1.
      destruct (Json.set "pid" _ parsed) as [doc| | | |]; simpl;
        try (exists []; now rewrite with_trace_nil).
      unfold admit_record.
      unfold bind at 1.
      destruct filter as [f|]; simpl.
      * unfold lift at 1. destruct (f doc) as [keep| | | |]; simpl;
          try (exists []; now rewrite with_trace_nil).
        unfold bind at 1. destruct keep; simpl.
        -- unfold lift. destruct (Json.push_back acc doc) as [acc'| | | |]; simpl;
             try (exists []; now rewrite with_trace_nil).
           apply IH.
        -- apply IH.
      * unfold bind at 1, lift.
        destruct (Json.push_back acc doc) as [acc'| | | |]; simpl;
          try (exists []; now rewrite with_trace_nil).
        apply IH.
    + unfold bind, log, emit, modify.
      match goal with
      | |- context [scan_entries _ _ _ _ ?w1] => destruct (IH acc w1) as (evs & -> & F)
      end.
      eexists. split; [now rewrite with_trace_twice|].
      constructor; [exact I | exact F].
Qed.

Lemma is_process_name_running_spec (name : string) w :
  exists evs,
    is_process_name_running P name w
    = (running_in P (proc w) name, with_trace (trace w ++ evs) w)
    /\ Forall is_warning evs.
Proof.
  unfold is_process_name_running, get_all_running_processes_info, running_in.
  unfold bind at 1 2, get.
  destruct (proc w) as [|writable entries].
  - exists []. unfold throw. now rewrite with_trace_nil.
  - destruct (scan_entries_spec (Some (has_name name)) entries JNull w)
      as (evs & -> & F).
    exists evs. split; [|exact F].
    now destruct (listing P (Some (has_name name)) entries JNull).
Qed.

(** The result of [is_process_name_running] is read off the directory. *)
Lemma is_process_name_running_result (name : string) w :
  fst (is_process_name_running P name w) = running_in P (proc w) name.
Proof. destruct (is_process_name_running_spec name w) as (evs & -> & _). reflexivity. Qed.

Lemma json_of_records_push (l : list json) (doc : json) :
  Json.push_back (json_of_records l) doc = Ok (json_of_records (l ++ [doc])).
Proof. destruct l as [|x l]; reflexivity. Qed.

(** On a directory whose record files are well formed, a filter that
    always answers gets the records it keeps, in directory order,
    and the warnings are those of the files that do not open. *)
Lemma listing_well_formed (filter : option (json -> bool)) (entries : list (file bytes)) :
  forallb (well_formed P) entries = true ->
  forall l0 : list json,
    listing P (total_filter filter) entries (json_of_records l0)
    = Ok (json_of_records (l0 ++ kept filter (records P entries))).
Proof.
  induction entries as [|entry rest IH]; intros H l0; simpl.
  - destruct filter; simpl; now rewrite List.app_nil_r.
  - simpl in H. apply andb_prop in H as [He Hrest].
    unfold well_formed in He. unfold records. simpl. fold (records P rest).
    destruct (is_record_file entry && can_read entry) eqn:E.
    + apply andb_prop in E as [-> ->]. simpl.
      destruct (record_of P entry) as [doc| | | |]; try discriminate. simpl.
      unfold admit_record.
      destruct filter as [f|]; simpl.
      * destruct (f doc); simpl.
        -- rewrite json_of_records_push. simpl. rewrite (IH Hrest).
           now rewrite <- List.app_assoc.
        -- now rewrite (IH Hrest).
      * rewrite json_of_records_push. simpl. rewrite (IH Hrest).
        now rewrite <- List.app_assoc.
    + apply andb_false_iff in E.
      replace (negb (is_record_file entry) || negb (can_read entry)) with true
        by (destruct E as [-> | ->]; simpl; [reflexivity | now rewrite orb_true_r]).
      simpl. now rewrite (IH Hrest).
Qed.

Lemma scan_entries_warnings (filter : option (json -> bool)) (entries : list (file bytes)) :
  forallb (well_formed P) entries = true ->
  forall (l0 : list json) w,
    snd (scan_entries P (total_filter filter) entries (json_of_records l0) w)
    = with_trace (trace w ++ skipped_warnings P entries) w.
Proof.
  induction entries as [|entry rest IH]; intros H l0 w.
  - simpl. now rewrite with_trace_nil.
  - simpl in H. apply andb_prop in H as [He Hrest].
    unfold well_formed in He. simpl. unfold skipped_warnings. simpl.
    fold (skipped_warnings P rest). unfold is_record_file in *.
    destruct (Path.extension (fname entry) =? ".json"); simpl; [|now apply IH].
    destruct (can_read entry); simpl.
    + simpl in He. unfold record_of in He.
      destruct (parse P (content entry)) as [parsed|]; [|discriminate].
      unfold bind at 1, lift at 1.
      destruct (Json.set "pid" _ parsed) as [doc| | | |]; try discriminate.
      unfold bind at 1.
      destruct filter as [f|]; simpl.
      * unfold lift at 1. unfold bind at 1. destruct (f doc); simpl.
        -- unfold lift. rewrite json_of_records_push. now apply IH.
        -- now apply IH.
      * unfold bind at 1, lift. rewrite json_of_records_push. now apply IH.
    + unfold bind, log, emit, modify. rewrite (IH Hrest).
      now rewrite with_trace_twice.
Qed.

End ListingFacts.

(** ** Listing the registry *)

(** C3, as the code has it: on every registry directory whose record
    files that open hold a document (content that parses, to an object
    or to null), the listing skips each record file that does not open
    with a warning and returns the records of all the others that the
    filter keeps. *)
Theorem listing_skips_unreadable_records {bytes : Type} (P : platform bytes)
    (filter : option (json -> bool)) (writable : bool) (entries : list (file bytes))
    (w : world bytes) :
  proc w = Dir writable entries ->
  forallb (well_formed P) entries = true ->
  get_all_running_processes_info P (total_filter filter) w
  = (Ok (json_of_records (kept filter (records P entries))),
     with_trace (trace w ++ skipped_warnings P entries) w).
Proof.
  intros Hdir Hwf.
  unfold get_all_running_processes_info, bind, get. rewrite Hdir.
  destruct (scan_entries_spec P (total_filter filter) entries JNull w) as (evs & E & _).
  pose proof (scan_entries_warnings P filter entries Hwf [] w) as Hw.
  pose proof (listing_well_formed P filter entries Hwf []) as Hl.
  simpl in Hw, Hl. rewrite E in Hw |- *. simpl in Hw. now rewrite Hl, Hw.
Qed.

Lemma listing_skips_unreadable_records_witness :
  get_all_running_processes_info (Example.host []) (total_filter None)
    (Example.start (Dir true [ Example.unreadable_file 7;
                               Example.record_file 8 "curious_sleep" ]))
  = (Ok (JArray [ JObject [ ("command", JArray [JString "sleep"]);
                            ("name", JString "curious_sleep");
                            ("pid", JString "8");
                            ("prefix", JString "/opt/env") ] ]),
     with_trace [ EvLog LOG_WARNING "failed to open /home/user/.mamba/proc/7.json" ]
                (Example.start (Dir true [ Example.unreadable_file 7;
                                           Example.record_file 8 "curious_sleep" ]))).
Proof.
  apply (listing_skips_unreadable_records (Example.host []) None true
           [ Example.unreadable_file 7; Example.record_file 8 "curious_sleep" ]);
    reflexivity.
Defined.

(** C3, as stated, fails: a record file whose content does not parse
    makes the listing throw, whatever the other records are. *)
Lemma listing_fails_on_malformed_record :
  fst (get_all_running_processes_info (Example.host []) None
         (Example.start (Dir true [ Example.record_file 8 "curious_sleep";
                                    Example.malformed_file 9 ])))
  = Throw parse_error.
Proof. reflexivity. Qed.

(** ** Writing a record *)

Section RecordFacts.

Context {bytes : Type}.
Variable P : platform bytes.
Implicit Types w : world bytes.

Lemma file_json_stored (name : string) (command : list string) :
  file_json P name command = Ok (stored_record P name command).
Proof. reflexivity. Qed.

Lemma LockFile_release_proc (lk : bool) w r w' :
  LockFile_release lk w = (r, w') -> r = Ok tt /\ proc w' = proc w /\ self_pid w' = self_pid w.
Proof.
  destruct lk; unfold LockFile_release, bind, get, modify, emit, ret; simpl;
    intros H; injection H as <- <-; auto.
Qed.

(** The constructor, up to its last line, case by case. *)
Lemma ScopedProcFile_init_cases (name : string) (command : list string) (lk : bool) w :
  ScopedProcFile_init P name command lk w
  = let location := pid_file_name (self_pid w) in
    let doc := stored_record P name command in
    let failed := runtime_error ("'mamba run' failed to open/create file: "
                                 ++ Path.join (proc_dir_path P) location) in
    if use_lockfiles P && negb lk
    then (Throw (assertion_failure "proc_dir_lock"), w)
    else match proc w with
         | Dir writable entries =>
             if can_open_for_writing location (proc w)
             then if dump_throws P doc
                  then (Throw type_error,
                        with_proc (Dir writable
                                     (write_file location (dump_before_throw P doc) entries)) w)
                  else (Ok location,
                        with_trace (trace w ++ [EvRecordWritten
                                                  (Path.join (proc_dir_path P) location) doc])
                          (with_proc (Dir writable
                                        (write_file location (dump P doc) entries)) w))
             else (Throw failed, w)
         | Absent => (Throw failed, w)
         end.
Proof.
  unfold ScopedProcFile_init. unfold bind at 1, get. cbv zeta. unfold bind at 1.
  destruct (use_lockfiles P && negb lk); [reflexivity|]. unfold ret at 1.
  destruct (proc w) as [|writable entries]; [reflexivity|].
  destruct (can_open_for_writing _ _); [|reflexivity].
  rewrite file_json_stored. unfold bind at 1, lift.
  destruct (dump_throws P (stored_record P name command)); reflexivity.
Qed.

(** What a constructor that returns has done. *)
Lemma ScopedProcFile_ctor_returns (name : string) (command : list string)
    (lk : bool) w (location : string) w' :
  ScopedProcFile_ctor P name command lk w = (Ok location, w') ->
  location = pid_file_name (self_pid w)
  /\ can_open_for_writing location (proc w) = true
  /\ exists writable entries,
       proc w = Dir writable entries
       /\ proc w' = Dir writable
                      (write_file location (dump P (stored_record P name command)) entries).
Proof.
  unfold ScopedProcFile_ctor, at_scope_exit.
  destruct (ScopedProcFile_init P name command lk w) as [[loc| | | |] w1] eqn:Body;
    try discriminate.
  2:{ unfold bind. destruct (noexcept _ w1) as [[[]| | | |] ?]; discriminate. }
  unfold bind at 1. intros H.
  destruct (noexcept (LockFile_release lk) w1) as [[[]| | | |] w2] eqn:Rel; try discriminate.
  injection H as -> ->.
  assert (Hp : proc w' = proc w1).
  { unfold noexcept in Rel.
    destruct (LockFile_release lk w1) as [rr ww] eqn:E.
    apply LockFile_release_proc in E as (-> & Hp & _). now injection Rel as <-. }
  unfold ScopedProcFile_init in Body. unfold bind at 1, get in Body.
  unfold bind at 1 in Body.
  destruct (use_lockfiles P && negb lk); [discriminate|]. unfold ret at 1 in Body.
  destruct (proc w) as [|writable entries] eqn:Hdir; [discriminate|].
  destruct (can_open_for_writing _ _) eqn:Hopen; [|discriminate].
  rewrite file_json_stored in Body.
  unfold bind at 1, lift in Body.
  destruct (dump_throws P (stored_record P name command)).
  { unfold bind, modify, throw in Body. discriminate. }
  unfold bind, modify, emit, ret in Body. simpl in Body.
  injection Body as <- <-. rewrite Hp. simpl.
  repeat split; eauto.
Qed.

Variable pid : nat.

Lemma has_pid_record_of (entry : file bytes) (doc : json) :
  record_of P entry = Ok doc ->
  has_pid (to_string pid) doc = (Path.replace_extension (fname entry) =? to_string pid).
Proof.
  unfold record_of, has_pid. destruct (parse P (content entry)) as [parsed|]; [|discriminate].
  destruct parsed; simpl; try discriminate; intros H; injection H as <-; simpl.
  - reflexivity.
  - now rewrite JsonFacts.find_assign_same.
Qed.

(** The records of files other than the one of [pid] carry another
    process identifier. *)
Lemma other_records_have_other_pid (entries : list (file bytes)) :
  ~ In (pid_file_name pid) (map (@fname bytes) entries) ->
  List.filter (has_pid (to_string pid)) (records P entries) = [].
Proof.
  induction entries as [|entry rest IH]; intros Hnot; [reflexivity|].
  simpl in Hnot. unfold records. simpl. fold (records P rest).
  rewrite List.filter_app, IH by tauto. rewrite List.app_nil_r.
  destruct (is_record_file entry && can_read entry) eqn:E; [|reflexivity].
  destruct (record_of P entry) as [doc| | | |] eqn:Hrec; try reflexivity.
  simpl. rewrite (has_pid_record_of _ _ Hrec).
  destruct (String.eqb_spec (Path.replace_extension (fname entry)) (to_string pid))
    as [Hstem|]; [|reflexivity].
  exfalso. apply Hnot. left.
  apply andb_prop in E as [Hext _]. unfold is_record_file in Hext.
  apply String.eqb_eq in Hext.
  rewrite (PathFacts.stem_extension (fname entry)), Hstem, Hext. reflexivity.
Qed.

Hypothesis round_trip : forall doc, parse P (dump P doc) = Some doc.

Lemma record_of_written (name : string) (command : list string) (r wr : bool) :
  record_of P {| fname := pid_file_name pid; can_read := r; can_write := wr;
                 content := dump P (stored_record P name command) |}
  = Ok (listed_record P pid name command).
Proof.
  unfold record_of. simpl. rewrite round_trip.
  now rewrite pid_file_stem.
Qed.

Lemma has_pid_listed_record (name : string) (command : list string) :
  has_pid (to_string pid) (listed_record P pid name command) = true.
Proof. unfold has_pid. simpl. apply String.eqb_refl. Qed.

Lemma written_is_record_file (r wr : bool) (c : bytes) :
  is_record_file {| fname := pid_file_name pid; can_read := r; can_write := wr; content := c |}
  = true.
Proof. unfold is_record_file. simpl. now rewrite pid_file_is_record. Qed.

(** After the write, exactly one record carries [pid]. *)
Lemma one_record_for_pid (name : string) (command : list string)
    (entries : list (file bytes)) :
  NoDup (map (@fname bytes) entries) ->
  match find_file (pid_file_name pid) entries with Some f => can_read f | None => true end = true ->
  List.filter (has_pid (to_string pid))
    (records P (write_file (pid_file_name pid) (dump P (stored_record P name command)) entries))
  = [listed_record P pid name command].
Proof.
  induction entries as [|entry rest IH]; intros Hnd Hread.
  - unfold records. simpl. rewrite written_is_record_file, record_of_written. simpl.
    now rewrite has_pid_listed_record.
  - simpl in *. inversion Hnd as [|? ? Hnot Hnd']; subst.
    destruct (String.eqb_spec (fname entry) (pid_file_name pid)) as [Heq|Hne].
    + unfold records. simpl. fold (records P rest).
      rewrite written_is_record_file, Hread, record_of_written. simpl.
      rewrite has_pid_listed_record.
      rewrite other_records_have_other_pid; [reflexivity | now rewrite <- Heq].
    + unfold records. simpl.
      fold (records P (write_file (pid_file_name pid) (dump P (stored_record P name command)) rest)).
      rewrite List.filter_app, (IH Hnd' Hread).
      assert (E : List.filter (has_pid (to_string pid)) (records P [entry]) = []).
      { apply other_records_have_other_pid. simpl. intros [H|[]]. now apply Hne. }
      unfold records in E. simpl in E. rewrite List.app_nil_r in E. now rewrite E.
Qed.

Lemma well_formed_after_write (name : string) (command : list string)
    (entries : list (file bytes)) :
  forallb (well_formed P) (remove_file (pid_file_name pid) entries) = true ->
  forallb (well_formed P)
    (write_file (pid_file_name pid) (dump P (stored_record P name command)) entries) = true.
Proof.
  induction entries as [|entry rest IH]; simpl; intros H.
  - unfold well_formed. rewrite written_is_record_file, record_of_written. reflexivity.
  - destruct (fname entry =? (pid_file_name pid)); simpl.
    + rewrite H. unfold well_formed.
      rewrite written_is_record_file, record_of_written.
      now destruct (can_read entry).
    + simpl in H. apply andb_prop in H as [-> H]. simpl. now apply IH.
Qed.

Lemma find_written (c : bytes) (entries : list (file bytes)) :
  exists f, find_file (pid_file_name pid) (write_file (pid_file_name pid) c entries) = Some f /\ content f = c.
Proof.
  induction entries as [|entry rest IH]; simpl.
  - rewrite String.eqb_refl. eauto.
  - destruct (fname entry =? (pid_file_name pid)) eqn:E; simpl.
    + rewrite String.eqb_refl. eauto.
    + rewrite E. exact IH.
Qed.

End RecordFacts.

(** C7: writing the record of a run and then listing the registry
    yields exactly one record for the writing process; it has the
    name, the command and the prefix that were written, and under
    ["pid"] the name of the record file without its [.json] extension,
    which the stored document does not hold. *)
Theorem written_record_is_listed_once {bytes : Type} (P : platform bytes)
    (name : string) (command : list string) (proc_dir_lock : bool)
    (w w' : world bytes) (location : string) :
  (forall doc, parse P (dump P doc) = Some doc) ->
  NoDup (map (@fname bytes) (dir_entries (proc w))) ->
  forallb (well_formed P)
          (remove_file (pid_file_name (self_pid w)) (dir_entries (proc w))) = true ->
  match find_file (pid_file_name (self_pid w)) (dir_entries (proc w)) with
  | Some f => can_read f
  | None => true
  end = true ->
  ScopedProcFile_ctor P name command proc_dir_lock w = (Ok location, w') ->
  location = to_string (self_pid w) ++ ".json"
  /\ Path.replace_extension location = to_string (self_pid w)
  /\ (exists f, find_file location (dir_entries (proc w')) = Some f
                /\ content f = dump P (stored_record P name command))
  /\ Json.at_const "pid" (stored_record P name command)
     = Throw (assertion_failure "key not found")
  /\ exists listed,
       fst (get_all_running_processes_info P None w') = Ok (JArray listed)
       /\ List.filter (has_pid (to_string (self_pid w))) listed
          = [ JObject [ ("command", Json.of_strings command);
                        ("name", JString name);
                        ("pid", JString (to_string (self_pid w)));
                        ("prefix", JString (target_prefix P)) ] ].
Proof.
  intros Hcodec Hnd Hwf Hread Hctor.
  apply ScopedProcFile_ctor_returns in Hctor
    as (-> & _ & writable & entries & Hdir & Hdir').
  rewrite Hdir in Hnd, Hwf, Hread. simpl in Hnd, Hwf, Hread.
  split; [reflexivity|]. split; [apply pid_file_stem|].
  split; [rewrite Hdir'; apply find_written|].
  split; [reflexivity|].
  pose proof (one_record_for_pid P (self_pid w) Hcodec name command entries Hnd Hread)
    as Hone.
  pose proof (well_formed_after_write P (self_pid w) Hcodec name command entries Hwf)
    as Hwf'.
  pose proof (listing_skips_unreadable_records P None writable _ w' Hdir' Hwf') as Hl.
  change (total_filter None) with (@None (json -> result bool)) in Hl.
  rewrite Hl. simpl.
  destruct (records P (write_file _ _ entries)) as [|doc docs] eqn:E.
  - discriminate Hone.
  - exists (doc :: docs). split; [reflexivity | exact Hone].
Qed.

Lemma written_record_is_listed_once_witness :
  let w := Example.start (Dir true [ Example.record_file 8 "gentle_sleep" ]) in
  let w' := snd (ScopedProcFile_ctor (Example.host []) "curious_echo" ["echo"; "hi"] true w) in
  exists listed,
    fst (get_all_running_processes_info (Example.host []) None w') = Ok (JArray listed)
    /\ List.filter (has_pid "100") listed
       = [ JObject [ ("command", JArray [JString "echo"; JString "hi"]);
                     ("name", JString "curious_echo");
                     ("pid", JString "100");
                     ("prefix", JString "/opt/env") ] ].
Proof.
  intros w w'.
  apply (written_record_is_listed_once (Example.host []) "curious_echo" ["echo"; "hi"]
           true w w' "100.json").
  - intros doc. reflexivity.
  - simpl. repeat constructor. simpl. tauto.
  - reflexivity.
  - reflexivity.
  - reflexivity.
Defined.

(** ** Steps that leave the registry and the process as they are *)

Section StableFacts.

Context {bytes : Type}.
Variable P : platform bytes.
Variable Q : event -> Prop.
Implicit Types w : world bytes.

Lemma stable_refl w : stable Q w w.
Proof. split; [apply extends_refl | auto]. Qed.

Lemma stable_trans w1 w2 w3 : stable Q w1 w2 -> stable Q w2 w3 -> stable Q w1 w3.
Proof.
  intros (E1 & P1 & I1 & J1) (E2 & P2 & I2 & J2). split; [eapply extends_trans; eauto|].
  repeat split; congruence.
Qed.

Lemma stable_same_trace w w' :
  trace w' = trace w -> proc w' = proc w -> self_pid w' = self_pid w ->
  parent_pid w' = parent_pid w -> stable Q w w'.
Proof.
  intros Ht Hp Hi Hj. split; [|auto]. exists []. rewrite List.app_nil_r. auto.
Qed.

Lemma stable_emit (e : event) : Q e -> respects (stable Q) (emit (bytes := bytes) e).
Proof.
  intros He w r w' H. injection H as _ <-.
  split; [now apply extends_emit | auto].
Qed.

Lemma stable_warnings (evs : list event) w :
  (forall e, is_warning e -> Q e) -> Forall is_warning evs ->
  stable Q w (with_trace (trace w ++ evs) w).
Proof.
  intros HQ F. split; [|auto]. exists evs. split; [reflexivity|].
  now apply (Forall_impl _ HQ).
Qed.

End StableFacts.

Create HintDb run.
#[local] Hint Resolve stable_refl stable_trans extends_refl extends_trans : run.

(** One step in the proof that a computation respects a relation. *)
Ltac respects_step :=
  first
    [ assumption
    | solve [ auto with run ]
    | apply respects_ret; auto with run
    | apply respects_throw; auto with run
    | apply respects_exit; auto with run
    | apply respects_out_of_fuel; auto with run
    | apply respects_lift; auto with run
    | apply respects_get; auto with run
    | apply respects_known_status; auto with run
    | apply respects_bind; [ eauto with run | | intro ]
    | apply respects_at_scope_exit; [ auto with run | eauto with run | | ]
    | apply respects_at_scope_exit_on_throw; [ auto with run | eauto with run | | ]
    | match goal with
      | |- respects _ (match ?x with _ => _ end) => destruct x
      | |- respects _ (if ?x then _ else _) => destruct x
      | |- respects _ (let '(_, _) := ?x in _) => destruct x
      | |- respects _ (let _ := _ in _) => cbv zeta
      end ].

Ltac respects_steps := repeat respects_step.

(** The same for [stable]: changes of the world that touch neither the
    trace, nor the directory, nor the process identifier. *)
Ltac stable_steps :=
  repeat first
    [ respects_step
    | apply respects_modify; intros ?; apply stable_same_trace; reflexivity ].

Section GeneratorFrames.

Context {bytes : Type}.
Variable P : platform bytes.
Variable Q : event -> Prop.
Hypothesis silent_in_Q : forall e, silent e -> Q e.
Implicit Types w : world bytes.

Lemma warnings_in_Q (e : event) : is_warning e -> Q e.
Proof.
  intros H. apply silent_in_Q. destruct e; try contradiction. now split.
Qed.

Hint Resolve warnings_in_Q : run.

Lemma stable_is_process_name_running (name : string) :
  respects (stable Q) (is_process_name_running P name).
Proof.
  intros w r w' H.
  destruct (is_process_name_running_spec P name w) as (evs & E & F).
  rewrite E in H. injection H as _ <-. apply stable_warnings; auto with run.
Qed.

Hint Resolve stable_is_process_name_running : run.

Lemma stable_get_all (filter : option (json -> result bool)) :
  respects (stable Q) (get_all_running_processes_info P filter).
Proof.
  unfold get_all_running_processes_info. respects_steps.
  intros w r w' H.
  destruct (scan_entries_spec P filter entries JNull w) as (evs & E & F).
  rewrite E in H. injection H as _ <-. apply stable_warnings; auto with run.
Qed.

Lemma stable_random_int (lo hi : nat) : respects (stable Q) (random_int P lo hi).
Proof.
  unfold random_int. stable_steps.
Qed.

Hint Resolve stable_random_int : run.

Lemma stable_random_string (len : nat) :
  respects (stable Q) (generate_random_alphanumeric_string P len).
Proof.
  induction len; simpl; stable_steps; auto.
Qed.

Hint Resolve stable_random_string : run.

Lemma stable_return_unless_running (pre sel : string) (next : M bytes string) :
  respects (stable Q) next ->
  respects (stable Q) (return_unless_running P pre sel next).
Proof.
  intros Hn. unfold return_unless_running. respects_steps.
Qed.

Hint Resolve stable_return_unless_running : run.

Lemma stable_name_loop (fuel : nat) :
  forall program_name selected_name,
    respects (stable Q) (name_loop P fuel program_name selected_name).
Proof.
  induction fuel as [|fuel IH]; intros pn sel; simpl; stable_steps.
Qed.

Lemma stable_generate (fuel : nat) (program_name : string) :
  respects (stable Q) (generate_unique_process_name P fuel program_name).
Proof.
  unfold generate_unique_process_name. respects_steps. apply stable_name_loop.
Qed.

End GeneratorFrames.

(** ** The name generator, step by step *)

Section GeneratorSteps.

Context {bytes : Type}.
Variable P : platform bytes.
Implicit Types w : world bytes.

Lemma with_rng_pos_twice (n m : nat) w :
  with_rng_pos n (with_rng_pos m w) = with_rng_pos n w.
Proof. reflexivity. Qed.

Lemma with_rng_pos_same w : with_rng_pos (rng_pos w) w = w.
Proof. now destruct w. Qed.

Lemma random_int_eq (lo hi : nat) w :
  random_int P lo hi w
  = (Ok (lo + random_draw P (rng_pos w) mod (hi - lo + 1)),
     with_rng_pos (S (rng_pos w)) w).
Proof. reflexivity. Qed.

Lemma random_string_eq (len : nat) :
  forall w,
    generate_random_alphanumeric_string P len w
    = (Ok (random_string_at P len (rng_pos w)), with_rng_pos (len + rng_pos w) w).
Proof.
  induction len as [|len IH]; intros w.
  - simpl. unfold ret. now rewrite with_rng_pos_same.
  - cbn [generate_random_alphanumeric_string random_string_at].
    unfold bind at 1. rewrite random_int_eq.
    unfold bind at 1. rewrite IH. unfold ret.
    cbn [rng_pos with_rng_pos]. rewrite with_rng_pos_twice.
    replace (len + S (rng_pos w)) with (S len + rng_pos w) by lia.
    reflexivity.
Qed.

Lemma random_string_length (len : nat) :
  forall pos, String.length (random_string_at P len pos) = len.
Proof.
  induction len as [|len IH]; intros pos; cbn [random_string_at String.length];
    [reflexivity | now rewrite IH].
Qed.

Lemma random_string_alphanumeric (len : nat) :
  forall pos, alphanumeric (random_string_at P len pos).
Proof.
  induction len as [|len IH]; intros pos; unfold alphanumeric;
    cbn [random_string_at list_ascii_of_string].
  - constructor.
  - constructor; [|apply IH].
    apply nth_In. apply Nat.mod_upper_bound. discriminate.
Qed.

(** What lines 90 to 92 do, read off the directory. *)
Lemma return_unless_running_eq (pre sel : string) (next : M bytes string) w :
  exists evs,
    Forall is_warning evs
    /\ return_unless_running P pre sel next w
       = match running_in P (proc w) (format_name pre sel) with
         | Ok true => next (with_trace (trace w ++ evs) w)
         | Ok false => (Ok (format_name pre sel), with_trace (trace w ++ evs) w)
         | failure => (result_bind failure (fun _ => Ok ""), with_trace (trace w ++ evs) w)
         end.
Proof.
  unfold return_unless_running. cbv zeta. unfold bind.
  destruct (is_process_name_running_spec P (format_name pre sel) w) as (evs & -> & F).
  exists evs. split; [exact F|].
  now destruct (running_in P (proc w) (format_name pre sel)) as [[|]| | | |].
Qed.

Lemma name_loop_from_bag (fuel : nat) (program_name selected_name : string) w :
  prefixes_bag w <> [] ->
  name_loop P (S fuel) program_name selected_name w
  = let idx := random_draw P (rng_pos w) mod length (prefixes_bag w) in
    return_unless_running P (nth idx (prefixes_bag w) "") selected_name
      (name_loop P fuel program_name selected_name)
      (with_pools (erase idx (prefixes_bag w)) (alt_names w)
                  (with_rng_pos (S (rng_pos w)) w)).
Proof.
  intros Hbag. cbn [name_loop]. unfold bind at 1, get.
  destruct (prefixes_bag w) as [|b bag] eqn:E; [congruence|].
  unfold bind at 1. rewrite random_int_eq. unfold bind at 1, modify.
  cbn [length]. replace (S (length bag) - 1 - 0 + 1) with (S (length bag)) by lia.
  reflexivity.
Qed.

Lemma name_loop_from_alt (fuel : nat) (program_name selected_name : string) w :
  prefixes_bag w = [] -> alt_names w <> [] ->
  name_loop P (S fuel) program_name selected_name w
  = let idx := random_draw P (rng_pos w) mod length (alt_names w) in
    name_loop P fuel program_name (nth idx (alt_names w) "")
      (with_pools prefixes (erase idx (alt_names w)) (with_rng_pos (S (rng_pos w)) w)).
Proof.
  intros Hbag Halt. cbn [name_loop]. unfold bind at 1, get. rewrite Hbag.
  destruct (alt_names w) as [|a alt] eqn:E; [congruence|].
  unfold bind at 1. rewrite random_int_eq. unfold bind at 1, modify.
  cbn [length]. replace (S (length alt) - 1 - 0 + 1) with (S (length alt)) by lia.
  reflexivity.
Qed.

Lemma name_loop_fail_safe (fuel : nat) (program_name selected_name : string) w :
  prefixes_bag w = [] -> alt_names w = [] ->
  name_loop P (S fuel) program_name selected_name w
  = return_unless_running P (random_string_at P 8 (rng_pos w)) program_name
      (name_loop P fuel program_name program_name)
      (with_rng_pos (8 + rng_pos w) w).
Proof.
  intros Hbag Halt. cbn [name_loop]. unfold bind at 1, get. rewrite Hbag, Halt.
  unfold bind at 1. now rewrite random_string_eq.
Qed.

End GeneratorSteps.

(** ** Names in use *)

Section NamesInUse.

Context {bytes : Type}.
Variable P : platform bytes.
Implicit Types w : world bytes.

Lemma has_name_total (name : string) (doc : json) :
  has_name_key doc = true -> has_name name doc = Ok (name_is name doc).
Proof.
  unfold has_name_key, has_name, name_is.
  now destruct (Json.at_const "name" doc).
Qed.

Lemma listing_answered (f : json -> result bool) (g : json -> bool)
    (entries : list (file bytes)) :
  forallb (well_formed P) entries = true ->
  (forall doc, In doc (records P entries) -> f doc = Ok (g doc)) ->
  forall l0 : list json,
    listing P (Some f) entries (json_of_records l0)
    = Ok (json_of_records (l0 ++ List.filter g (records P entries))).
Proof.
  induction entries as [|entry rest IH]; intros H Hf l0.
  - simpl. now rewrite List.app_nil_r.
  - simpl in H. apply andb_prop in H as [He Hrest].
    unfold well_formed in He. unfold records in Hf |- *. cbn [flat_map listing] in Hf |- *.
    fold (records P rest) in Hf |- *.
    destruct (is_record_file entry && can_read entry) eqn:E.
    + apply andb_prop in E as [-> ->]. cbn [negb orb].
      destruct (record_of P entry) as [doc| | | |]; try discriminate.
      cbn [result_bind]. unfold admit_record.
      rewrite (Hf doc) by (simpl; auto). cbn [result_bind List.filter app].
      destruct (g doc).
      * rewrite json_of_records_push. cbn [result_bind].
        rewrite IH; [|exact Hrest|intros; apply Hf; simpl; auto].
        now rewrite <- List.app_assoc.
      * cbn [result_bind]. apply IH; [exact Hrest|intros; apply Hf; simpl; auto].
    + apply andb_false_iff in E.
      replace (negb (is_record_file entry) || negb (can_read entry)) with true
        by (destruct E as [-> | ->]; simpl; [reflexivity | now rewrite orb_true_r]).
      apply IH; [exact Hrest | exact Hf].
Qed.

Lemma nonempty_iff_exists (g : json -> bool) (l : list json) :
  negb (Json.empty (json_of_records (List.filter g l))) = existsb g l.
Proof.
  induction l as [|doc l IH]; simpl; [reflexivity|].
  destruct (g doc); simpl; [reflexivity | exact IH].
Qed.

(** On a healthy directory a name is in use exactly when a record
    has it. *)
Lemma healthy_running (d : dir_state bytes) (name : string) :
  healthy P d = true ->
  running_in P d name = Ok (existsb (name_is name) (records P (dir_entries d))).
Proof.
  destruct d as [|writable entries]; [discriminate|]. simpl.
  intros H. apply andb_prop in H as [Hwf Hnames].
  assert (Hans : forall doc, In doc (records P entries) ->
                             has_name name doc = Ok (name_is name doc)).
  { intros doc Hin. apply has_name_total.
    rewrite forallb_forall in Hnames. now apply Hnames. }
  pose proof (listing_answered (has_name name) (name_is name) entries Hwf Hans []) as Hl.
  change (json_of_records []) with JNull in Hl. rewrite Hl.
  cbn [app result_bind]. now rewrite nonempty_iff_exists.
Qed.

Lemma listing_healthy (name : string) (entries : list (file bytes)) :
  forall acc r,
    listing P (Some (has_name name)) entries acc = Ok r ->
    forallb (well_formed P) entries = true
    /\ forallb has_name_key (records P entries) = true.
Proof.
  induction entries as [|entry rest IH]; intros acc r H; [now split|].
  cbn [listing] in H. unfold records. cbn [flat_map forallb].
  fold (records P rest).
  destruct (is_record_file entry && can_read entry) eqn:E.
  - assert (E' := E). apply andb_prop in E' as [E1 E2].
    rewrite E1, E2 in H. cbn [negb orb] in H.
    destruct (record_of P entry) as [doc| | | |] eqn:Hrec; try discriminate.
    cbn [result_bind] in H. unfold admit_record in H.
    destruct (has_name name doc) as [keep| | | |] eqn:Hn; try discriminate.
    cbn [result_bind] in H.
    assert (Hk : has_name_key doc = true).
    { unfold has_name in Hn. unfold has_name_key.
      now destruct (Json.at_const "name" doc). }
    assert (Hwf : well_formed P entry = true).
    { unfold well_formed. now rewrite E, Hrec. }
    destruct (if keep then Json.push_back acc doc else Ok acc) as [acc'| | | |];
      try discriminate.
    cbn [result_bind] in H.
    destruct (IH _ _ H) as [Hr1 Hr2]. cbn [app forallb]. now rewrite Hwf, Hk, Hr1, Hr2.
  - assert (Hwf : well_formed P entry = true).
    { unfold well_formed. now rewrite E. }
    apply andb_false_iff in E.
    replace (negb (is_record_file entry) || negb (can_read entry)) with true in H
      by (destruct E as [-> | ->]; simpl; [reflexivity | now rewrite orb_true_r]).
    destruct (IH _ _ H) as [Hr1 Hr2]. cbn [app]. now rewrite Hwf, Hr1, Hr2.
Qed.

(** A search that answers shows the directory healthy. *)
Lemma running_healthy (d : dir_state bytes) (name : string) (b : bool) :
  running_in P d name = Ok b -> healthy P d = true.
Proof.
  destruct d as [|writable entries]; [discriminate|]. simpl.
  destruct (listing P (Some (has_name name)) entries JNull) as [r| | | |] eqn:E;
    try discriminate.
  intros _. destruct (listing_healthy _ _ _ _ E) as [-> ->]. reflexivity.
Qed.

Lemma healthy_answers (d : dir_state bytes) (name : string) :
  healthy P d = true -> exists b, running_in P d name = Ok b.
Proof. intros H. rewrite (healthy_running d name H). eauto. Qed.

End NamesInUse.

(** ** The name generator: what it returns, and that it returns *)

Section GeneratorFacts.

Context {bytes : Type}.
Variable P : platform bytes.
Implicit Types w : world bytes.

(** A name the loop returns was found free at the last check. *)
Lemma name_loop_returns_free (fuel : nat) :
  forall program_name selected_name w name w',
    name_loop P fuel program_name selected_name w = (Ok name, w') ->
    running_in P (proc w') name = Ok false /\ proc w' = proc w.
Proof.
  induction fuel as [|fuel IH]; intros pn sel w name w' H; [discriminate|].
  destruct (prefixes_bag w) as [|b bag] eqn:Hbag.
  - destruct (alt_names w) as [|a alt] eqn:Halt.
    + rewrite (name_loop_fail_safe P fuel pn sel w Hbag Halt) in H.
      destruct (return_unless_running_eq P (random_string_at P 8 (rng_pos w)) pn
                  (name_loop P fuel pn pn) (with_rng_pos (8 + rng_pos w) w))
        as (evs & _ & E).
      rewrite E in H. clear E. cbn [proc with_rng_pos] in H.
      destruct (running_in P (proc w) _) as [[|]| | | |] eqn:Hrun; try discriminate.
      * apply IH in H as [H1 H2]. now split.
      * injection H as <- <-. now split.
    + rewrite (name_loop_from_alt P fuel pn sel w Hbag) in H by (rewrite Halt; discriminate).
      apply IH in H as [H1 H2]. now split.
  - rewrite (name_loop_from_bag P fuel pn sel w) in H by (rewrite Hbag; discriminate).
    cbv zeta in H.
    match type of H with
    | return_unless_running P ?pre ?s ?next ?w1 = _ =>
        destruct (return_unless_running_eq P pre s next w1) as (evs & _ & E)
    end.
    rewrite E in H. clear E. cbn [proc with_pools with_rng_pos] in H.
    destruct (running_in P (proc w) _) as [[|]| | | |] eqn:Hrun; try discriminate.
    + apply IH in H as [H1 H2]. now split.
    + injection H as <- <-. now split.
Qed.

(** The loop returns once the pools are used up and a random prefix
    gives a free name: [k] random prefixes before it at most, so
    [pool_iterations w + k + 1] iterations in all. *)
Lemma erase_length {A} (idx : nat) (v : list A) :
  idx < length v -> S (length (erase idx v)) = length v.
Proof.
  intros H. unfold erase.
  rewrite List.length_app, List.length_firstn, List.length_skipn. lia.
Qed.

Lemma name_loop_returns (d : dir_state bytes) (program_name : string) (fuel : nat) :
  healthy P d = true ->
  forall k selected_name w,
    proc w = d ->
    running_in P d
      (format_name (random_string_at P 8 (rng_pos w + pool_iterations w + 8 * k))
                   program_name) = Ok false ->
    pool_iterations w + k < fuel ->
    exists name w', name_loop P fuel program_name selected_name w = (Ok name, w').
Proof.
  intros Hd. induction fuel as [|fuel IH]; intros k sel w Hw Hfree Hfuel; [lia|].
  unfold pool_iterations in *.
  destruct (prefixes_bag w) as [|b bag] eqn:Hbag.
  - destruct (alt_names w) as [|a alt] eqn:Halt.
    + rewrite (name_loop_fail_safe P fuel program_name sel w Hbag Halt).
      destruct (return_unless_running_eq P (random_string_at P 8 (rng_pos w)) program_name
                  (name_loop P fuel program_name program_name)
                  (with_rng_pos (8 + rng_pos w) w)) as (evs & _ & ->).
      cbn [proc with_rng_pos]. rewrite Hw.
      cbn [length] in Hfree, Hfuel.
      destruct (healthy_answers P d
                  (format_name (random_string_at P 8 (rng_pos w)) program_name) Hd)
        as [[|] Hans]; rewrite Hans; [|eauto].
      destruct k as [|k].
      * replace (rng_pos w + (0 + 0 * S (length prefixes)) + 8 * 0) with (rng_pos w)
          in Hfree by lia.
        congruence.
      * apply (IH k); [exact Hw | | ];
          cbn [rng_pos prefixes_bag alt_names with_trace with_rng_pos];
          rewrite Hbag, Halt; cbn [length]; [|lia].
        replace (8 + rng_pos w + (0 + 0 * S (length prefixes)) + 8 * k)
          with (rng_pos w + (0 + 0 * S (length prefixes)) + 8 * S k) by lia.
        exact Hfree.
    + rewrite (name_loop_from_alt P fuel program_name sel w Hbag)
        by (rewrite Halt; discriminate).
      cbv zeta. rewrite Halt.
      pose proof (erase_length (random_draw P (rng_pos w) mod length (a :: alt)) (a :: alt)
                    (Nat.mod_upper_bound (random_draw P (rng_pos w)) (length (a :: alt))
                       ltac:(cbn; discriminate))) as Hlen.
      cbn [length] in Hfree, Hfuel, Hlen.
      apply (IH k); [exact Hw | | ];
        cbn [rng_pos prefixes_bag alt_names with_pools with_rng_pos length]; [|lia].
      match goal with
      | |- running_in P d (format_name (random_string_at P 8 ?n) _) = _ =>
          replace n with (rng_pos w + (0 + S (length alt) * S (length prefixes)) + 8 * k)
            by lia
      end.
      exact Hfree.
  - rewrite (name_loop_from_bag P fuel program_name sel w) by (rewrite Hbag; discriminate).
    cbv zeta. rewrite Hbag.
    pose proof (erase_length (random_draw P (rng_pos w) mod length (b :: bag)) (b :: bag)
                  (Nat.mod_upper_bound (random_draw P (rng_pos w)) (length (b :: bag))
                     ltac:(cbn; discriminate))) as Hlen.
    cbn [length] in Hfree, Hfuel, Hlen.
    match goal with
    | |- exists _ _, return_unless_running P ?pre ?s ?next ?w1 = _ =>
        destruct (return_unless_running_eq P pre s next w1) as (evs & _ & ->)
    end.
    cbn [proc with_pools with_rng_pos]. rewrite Hw.
    match goal with
    | |- context [running_in P d ?n] =>
        destruct (healthy_answers P d n Hd) as [[|] Hans]; rewrite Hans; [|eauto]
    end.
    apply (IH k); [exact Hw | | ];
      cbn [rng_pos prefixes_bag alt_names with_pools with_rng_pos with_trace length];
      [|lia].
    match goal with
    | |- running_in P d (format_name (random_string_at P 8 ?n) _) = _ =>
        replace n with (rng_pos w + (S (length bag)
                                     + length (alt_names w) * S (length prefixes)) + 8 * k)
          by lia
    end.
    exact Hfree.
Qed.

End GeneratorFacts.

(** ** The lock *)

Section LockFrames.

Context {bytes : Type}.
Variable P : platform bytes.
Variable Q : event -> Prop.
Hypothesis silent_in_Q : forall e, silent e -> Q e.
Implicit Types w : world bytes.

Lemma stable_silent_emit (e : event) :
  is_record_written e = false -> is_spawn e = false ->
  respects (stable Q) (emit (bytes := bytes) e).
Proof. intros H1 H2. apply stable_emit. apply silent_in_Q. now split. Qed.

Lemma stable_log (level : log_level) (msg : string) :
  respects (stable Q) (log (bytes := bytes) level msg).
Proof. now apply stable_silent_emit. Qed.

Hint Resolve stable_log : run.

Lemma stable_LockFile_acquire : respects (stable Q) (LockFile_acquire P).
Proof.
  unfold LockFile_acquire. stable_steps. now apply stable_silent_emit.
Qed.

Lemma stable_LockFile_release (lockfile : bool) :
  respects (stable Q) (LockFile_release (bytes := bytes) lockfile).
Proof.
  unfold LockFile_release. stable_steps. now apply stable_silent_emit.
Qed.

Hint Resolve stable_LockFile_acquire stable_LockFile_release : run.

Lemma stable_lock_proc_dir : respects (stable Q) (lock_proc_dir P).
Proof. unfold lock_proc_dir. stable_steps. Qed.

End LockFrames.

(** ** Sequences of resolutions *)

Section Sequences.

Local Open Scope list_scope.

Context {bytes : Type}.
Variable P : platform bytes.
Implicit Types w : world bytes.

Lemma generate_returns_free (fuel : nat) (program_name : string) w (name : string) w' :
  generate_unique_process_name P fuel program_name w = (Ok name, w') ->
  running_in P (proc w') name = Ok false /\ proc w' = proc w.
Proof.
  unfold generate_unique_process_name.
  destruct (program_name =? ""); [discriminate|]. apply name_loop_returns_free.
Qed.

(** A resolution made in one iteration from a bag that is not empty
    takes one adjective from the bag and leaves the nouns alone. *)
Lemma one_iteration_takes_one_adjective (program_name : string) w (name : string) w' :
  prefixes_bag w <> [] ->
  generate_unique_process_name P 1 program_name w = (Ok name, w') ->
  S (length (prefixes_bag w')) = length (prefixes_bag w)
  /\ alt_names w' = alt_names w.
Proof.
  intros Hbag. unfold generate_unique_process_name.
  destruct (program_name =? ""); [discriminate|].
  rewrite (name_loop_from_bag P 0 program_name program_name w Hbag). cbv zeta.
  match goal with
  | |- return_unless_running P ?pre ?s ?next ?w1 = _ -> _ =>
      destruct (return_unless_running_eq P pre s next w1) as (evs & _ & ->)
  end.
  destruct (running_in P _ _) as [[|]| | | |]; try discriminate.
  intros H. injection H as _ <-. cbn [prefixes_bag alt_names with_trace with_pools].
  split; [|reflexivity].
  apply erase_length. apply Nat.mod_upper_bound.
  destruct (prefixes_bag w); [congruence | discriminate].
Qed.

Lemma resolve_all_empties_bag (program_names : list string) :
  forall w names w',
    length program_names <= length (prefixes_bag w) ->
    resolve_all P 1 program_names w = (Ok names, w') ->
    length (prefixes_bag w') + length program_names = length (prefixes_bag w)
    /\ alt_names w' = alt_names w.
Proof.
  induction program_names as [|pn rest IH]; intros w names w' Hlen H.
  - injection H as _ <-. split; [apply Nat.add_0_r | reflexivity].
  - cbn [resolve_all length] in *. unfold bind at 1 in H.
    destruct (generate_unique_process_name P 1 pn w) as [[name| | | |] w1] eqn:G;
      try discriminate.
    apply one_iteration_takes_one_adjective in G as [Gb Ga];
      [|destruct (prefixes_bag w); [simpl in Hlen; lia | discriminate]].
    unfold bind at 1 in H.
    destruct (resolve_all P 1 rest w1) as [[names'| | | |] w2] eqn:R; try discriminate.
    injection H as _ <-.
    apply IH in R as [Rb Ra]; [|lia]. split; [lia | congruence].
Qed.

(** In the fail-safe the pools stay empty. *)
Lemma fail_safe_keeps_pools_empty (fuel : nat) :
  forall program_name selected_name w r w',
    prefixes_bag w = [] -> alt_names w = [] ->
    name_loop P fuel program_name selected_name w = (r, w') ->
    prefixes_bag w' = [] /\ alt_names w' = [].
Proof.
  induction fuel as [|fuel IH]; intros pn sel w r w' Hbag Halt H.
  - injection H as _ <-. now split.
  - rewrite (name_loop_fail_safe P fuel pn sel w Hbag Halt) in H.
    destruct (return_unless_running_eq P (random_string_at P 8 (rng_pos w)) pn
                (name_loop P fuel pn pn) (with_rng_pos (8 + rng_pos w) w))
      as (evs & _ & E).
    rewrite E in H. clear E.
    destruct (running_in P _ _) as [[|]| | | |];
      try (injection H as _ <-; now split).
    now apply IH in H.
Qed.

(** *** Supervisors that register one after the other *)

Lemma write_fresh_file (name : string) (c : bytes) (entries : list (file bytes)) :
  find_file name entries = None ->
  write_file name c entries
  = entries ++ [ {| fname := name; can_read := true; can_write := true; content := c |} ].
Proof.
  induction entries as [|f rest IH]; simpl; [reflexivity|].
  destruct (fname f =? name); [discriminate|]. intros H. now rewrite IH.
Qed.

Lemma find_file_app_other (name name' : string) (c : bytes) (entries : list (file bytes)) :
  name' <> name ->
  find_file name
    (entries ++ [ {| fname := name'; can_read := true; can_write := true; content := c |} ])
  = find_file name entries.
Proof.
  intros Hne. induction entries as [|f rest IH]; simpl.
  - destruct (String.eqb_spec name' name); congruence.
  - now rewrite IH.
Qed.

Lemma records_app (es1 es2 : list (file bytes)) :
  records P (es1 ++ es2) = records P es1 ++ records P es2.
Proof. unfold records. apply flat_map_app. Qed.

Lemma pid_file_name_inj (p q : nat) : pid_file_name p = pid_file_name q -> p = q.
Proof.
  unfold pid_file_name. intros H. apply to_string_inj.
  rewrite <- (pid_file_stem p), <- (pid_file_stem q). unfold pid_file_name. now rewrite H.
Qed.

Hypothesis round_trip : forall doc, parse P (dump P doc) = Some doc.

Lemma resolve_and_register_returns (fuel : nat) (program_name : string)
    (d : dir_state bytes) w (name : string) w' :
  resolve_and_register P fuel program_name (with_proc d w) = (Ok name, w') ->
  running_in P d name = Ok false
  /\ exists writable entries,
       d = Dir writable entries
       /\ proc w' = Dir writable
                      (write_file (pid_file_name (self_pid w))
                                  (dump P (stored_record P name [program_name])) entries).
Proof.
  unfold resolve_and_register. intros H. unfold bind at 1 in H.
  destruct (lock_proc_dir P (with_proc d w)) as [[lk| | | |] w1] eqn:L; try discriminate.
  apply (stable_lock_proc_dir P (fun _ => True) (fun _ _ => I)) in L as (_ & Lp & Li & _).
  unfold bind at 1 in H.
  destruct (generate_unique_process_name P fuel program_name w1)
    as [[name1| | | |] w2] eqn:G; try discriminate.
  assert (G' := G).
  apply (stable_generate P (fun _ => True) (fun _ _ => I)) in G' as (_ & _ & Gi & _).
  apply generate_returns_free in G as [Gfree Gp].
  unfold bind at 1 in H.
  destruct (ScopedProcFile_ctor P name1 [program_name] lk w2)
    as [[loc| | | |] w3] eqn:C; try discriminate.
  injection H as <- <-.
  apply ScopedProcFile_ctor_returns in C as (-> & _ & writable & entries & Hd & Hd').
  cbn [proc self_pid with_proc] in Lp, Li.
  split; [congruence|].
  exists writable, entries. split; [congruence|].
  rewrite Hd'. now rewrite Gi, Li.
Qed.

Lemma register_all_distinct (fuel : nat) (supervisors : list (world bytes * string)) :
  forall (d : dir_state bytes) (names : list string) (d' : dir_state bytes),
    NoDup (map (fun s => self_pid (fst s)) supervisors) ->
    (forall s, In s supervisors ->
               find_file (pid_file_name (self_pid (fst s))) (dir_entries d) = None) ->
    register_all P fuel supervisors d = (Ok names, d') ->
    NoDup names /\ forall name, In name names -> running_in P d name = Ok false.
Proof.
  induction supervisors as [|[w pn] rest IH]; intros d names d' Hnd Hfresh H.
  - injection H as <- _. split; [constructor | intros ? []].
  - cbn [register_all] in H.
    destruct (resolve_and_register P fuel pn (with_proc d w)) as [[name| | | |] w1] eqn:R;
      try discriminate.
    destruct (register_all P fuel rest (proc w1)) as [[names'| | | |] d1] eqn:Rest;
      try discriminate.
    injection H as <- <-.
    apply resolve_and_register_returns in R as (Hfree & writable & entries & -> & Hd1).
    cbn [map fst] in Hnd. inversion Hnd as [|? ? Hnotin Hnd']; subst.
    assert (Hf : find_file (pid_file_name (self_pid w)) entries = None)
      by (apply (Hfresh (w, pn)); now left).
    rewrite (write_fresh_file _ _ _ Hf) in Hd1.
    rewrite Hd1 in Rest.
    apply IH in Rest as [Hnd1 Hfree1]; [|exact Hnd'|].
    2:{ intros s Hs. cbn [dir_entries]. rewrite find_file_app_other.
        - apply (Hfresh s). now right.
        - intros E. apply pid_file_name_inj in E. apply Hnotin.
          apply in_map_iff. exists s. split; [now symmetry | exact Hs]. }
    assert (Hh : healthy P (Dir writable entries) = true)
      by (eapply running_healthy; eauto).
    assert (Hnew : records P [ {| fname := pid_file_name (self_pid w); can_read := true;
                                 can_write := true;
                                 content := dump P (stored_record P name [pn]) |} ]
                   = [listed_record P (self_pid w) name [pn]]).
    { unfold records. cbn [flat_map].
      rewrite written_is_record_file, (record_of_written P (self_pid w) round_trip).
      reflexivity. }
    assert (Hh1 : healthy P (Dir writable
                     (entries ++ [ {| fname := pid_file_name (self_pid w); can_read := true;
                                      can_write := true;
                                      content := dump P (stored_record P name [pn]) |} ]))
                  = true).
    { cbn [healthy] in Hh |- *. apply andb_prop in Hh as [Hh1 Hh2].
      rewrite forallb_app, records_app, forallb_app, Hh1, Hh2, Hnew.
      cbn [forallb]. unfold well_formed.
      rewrite written_is_record_file, (record_of_written P (self_pid w) round_trip).
      reflexivity. }
    assert (Hin : forall n, In n names' ->
                    existsb (name_is n) (records P entries) = false
                    /\ (name =? n) = false).
    { intros n Hn. apply Hfree1 in Hn. rewrite (healthy_running P _ n Hh1) in Hn.
      injection Hn as Hn. cbn [dir_entries] in Hn.
      rewrite records_app, existsb_app, Hnew in Hn.
      apply orb_false_iff in Hn as [Hn1 Hn2]. split; [exact Hn1|].
      cbn [existsb] in Hn2. rewrite orb_false_r in Hn2. exact Hn2. }
    split.
    + constructor; [|exact Hnd1].
      intros Hn. apply Hin in Hn as [_ Hn]. now rewrite String.eqb_refl in Hn.
    + intros n [<-|Hn]; [exact Hfree|].
      rewrite (healthy_running P _ n Hh). apply Hin in Hn as [Hn _].
      cbn [dir_entries]. now rewrite Hn.
Qed.

End Sequences.

(** ** The name generator: the claims *)




(** The same happens without the adjective that is listed twice: once
    the bag has been refilled, an adjective that was combined with a
    program name can be combined with it again. *)
Lemma refilled_bag_repeats_a_name :
  fst (resolve_all (Example.host []) 2 ["echo"; "echo"; "echo"]
         (Example.start_with ["gentle"] alt_names_initial (Dir true [])))
  = Ok ["gentle_echo"; "curious_program"; "gentle_echo"].
Proof. vm_compute. reflexivity. Qed.

(** C4: from a bag of [A] adjectives and a list of nouns that is not
    empty, [A] resolutions that each take one iteration (one adjective,
    no collision) leave the bag empty and the nouns untouched; the
    next resolution then takes a noun out of the list, refills the bag
    with all the adjectives, and tries an adjective of the full bag
    with that noun in place of the program name, going on with the
    noun if the name is in use. *)
Theorem empty_bag_falls_back_on_a_noun {bytes : Type} (P : platform bytes)
    (program_names : list string) (w wA : world bytes) (names : list string) :
  length program_names = length (prefixes_bag w) ->
  alt_names w <> [] ->
  resolve_all P 1 program_names w = (Ok names, wA) ->
  prefixes_bag wA = []
  /\ alt_names wA = alt_names w
  /\ forall fuel program_name,
       program_name <> "" ->
       let noun_idx := random_draw P (rng_pos wA) mod length (alt_names wA) in
       let noun := nth noun_idx (alt_names wA) "" in
       let adjective_idx := random_draw P (S (rng_pos wA)) mod length prefixes in
       let adjective := nth adjective_idx prefixes "" in
       generate_unique_process_name P (S (S fuel)) program_name wA
       = return_unless_running P adjective noun (name_loop P fuel program_name noun)
           (with_pools (erase adjective_idx prefixes) (erase noun_idx (alt_names wA))
                       (with_rng_pos (S (S (rng_pos wA))) wA)).
Proof.
  intros Hlen Halt H.
  apply resolve_all_empties_bag in H as [Hb Ha]; [|lia].
  assert (Hbag : prefixes_bag wA = []).
  { destruct (prefixes_bag wA); [reflexivity | simpl in Hb; lia]. }
  split; [exact Hbag|]. split; [exact Ha|].
  intros fuel pn Hne. cbv zeta. unfold generate_unique_process_name.
  destruct (String.eqb_spec pn "") as [|_]; [contradiction|].
  rewrite (name_loop_from_alt P (S fuel) pn pn wA Hbag) by congruence. cbv zeta.
  rewrite name_loop_from_bag by (cbn; discriminate).
  reflexivity.
Qed.

Lemma empty_bag_falls_back_on_a_noun_witness :
  let H := Example.host [] in
  let w := Example.start_with ["happy"; "warm"] ["app"; "code"] (Dir true []) in
  let wA := snd (resolve_all H 1 ["echo"; "cat"] w) in
  prefixes_bag wA = []
  /\ alt_names wA = ["app"; "code"]
  /\ fst (generate_unique_process_name H 2 "ls" wA) = Ok "curious_app".
Proof.
  intros H w wA.
  destruct (empty_bag_falls_back_on_a_noun H ["echo"; "cat"] w wA ["happy_echo"; "warm_cat"])
    as (Hbag & Halt & Hstep).
  - reflexivity.
  - discriminate.
  - vm_compute. reflexivity.
  - split; [exact Hbag|]. split; [exact Halt|].
    rewrite (Hstep 0 "ls") by discriminate. vm_compute. reflexivity.
Defined.



(** ** The supervisor, phase by phase *)

Section ExtendsFacts.

Context {bytes : Type}.
Variable Q : event -> Prop.
Implicit Types w : world bytes.

Lemma extends_same_trace w w' : trace w' = trace w -> extends Q w w'.
Proof. intros H. exists []. now rewrite List.app_nil_r. Qed.

Lemma extends_of_stable {A} (m : M bytes A) :
  respects (stable Q) m -> respects (extends Q) m.
Proof. intros H w r w' E. now apply H in E as [E _]. Qed.

Lemma respects_extends_emit (e : event) :
  Q e -> respects (extends Q) (emit (bytes := bytes) e).
Proof. intros He w r w' H. injection H as _ <-. now apply extends_emit. Qed.

End ExtendsFacts.

(** The same as [stable_steps] for [extends]. *)
Ltac extends_steps :=
  repeat first
    [ assumption
    | solve [ auto with run ]
    | apply extends_of_stable; solve [ auto with run ]
    | respects_step
    | apply respects_modify; intros ?; apply extends_same_trace; reflexivity ].

#[local] Hint Resolve stable_log stable_LockFile_acquire stable_LockFile_release
  stable_lock_proc_dir stable_is_process_name_running stable_get_all stable_generate : run.

Section QuietPhases.

Context {bytes : Type}.
Variable P : platform bytes.
Variable Q : event -> Prop.
Hypothesis silent_in_Q : forall e, silent e -> Q e.
Implicit Types w : world bytes.

Hint Resolve silent_in_Q : run.

Lemma extends_silent_emit (e : event) :
  is_record_written e = false -> is_spawn e = false ->
  respects (extends Q) (emit (bytes := bytes) e).
Proof. intros H1 H2. apply respects_extends_emit. apply silent_in_Q. now split. Qed.

Lemma stable_resolve_process_name (fuel : nat) (command : list string)
    (specific_process_name : string) :
  respects (stable Q) (resolve_process_name P fuel command specific_process_name).
Proof. unfold resolve_process_name. stable_steps. Qed.

Lemma extends_ensure_proc_dir : respects (extends Q) (ensure_proc_dir P).
Proof.
  unfold ensure_proc_dir. extends_steps. now apply extends_silent_emit.
Qed.

Lemma stable_collect_env (env_vars : list string) :
  forall env_map, respects (stable Q) (collect_env P env_vars env_map).
Proof.
  induction env_vars as [|e rest IH]; intros env_map; cbn [collect_env]; stable_steps.
Qed.

Lemma extends_daemonize : respects (extends Q) (daemonize P).
Proof.
  unfold daemonize. extends_steps; now apply extends_silent_emit.
Qed.

Hint Resolve extends_ensure_proc_dir extends_daemonize stable_collect_env : run.

Lemma extends_prepare_run (command : list string) (cwd : string) (stream_options : Z)
    (clean_env detach : bool) (env_vars : list string) :
  respects (extends Q)
           (prepare_run P command cwd stream_options clean_env detach env_vars).
Proof.
  unfold prepare_run. extends_steps; now apply extends_silent_emit.
Qed.

Lemma extends_ScopedProcFile_dtor (location : string) :
  respects (extends Q) (ScopedProcFile_dtor P location).
Proof.
  unfold ScopedProcFile_dtor. extends_steps; now apply extends_silent_emit.
Qed.

End QuietPhases.

Section ChildPhases.

Context {bytes : Type}.
Variable P : platform bytes.
Variable Q : event -> Prop.
Hypothesis unwritten_in_Q : forall e, is_record_written e = false -> Q e.
Implicit Types w : world bytes.

Lemma silent_in_unwritten (e : event) : silent e -> Q e.
Proof. intros [H _]. now apply unwritten_in_Q. Qed.

Lemma stable_unwritten_emit (e : event) :
  is_record_written e = false -> respects (stable Q) (emit (bytes := bytes) e).
Proof. intros H. apply stable_emit. now apply unwritten_in_Q. Qed.

Hint Resolve silent_in_unwritten : run.

Lemma stable_run_stop_actions (actions : list Reproc.stop_action) :
  forall r, respects (stable Q) (run_stop_actions P actions r).
Proof.
  induction actions as [|a rest IH]; intros r; cbn [run_stop_actions]; stable_steps;
    now apply stable_unwritten_emit.
Qed.

Hint Resolve stable_run_stop_actions : run.

Lemma stable_proc_stop (actions : Reproc.stop_actions) :
  respects (stable Q) (proc_stop P actions).
Proof. unfold proc_stop. stable_steps. now apply stable_unwritten_emit. Qed.

Hint Resolve stable_proc_stop : run.

Lemma stable_sigterm_handler : respects (stable Q) (sigterm_handler P).
Proof. unfold sigterm_handler. stable_steps. Qed.

Hint Resolve stable_sigterm_handler : run.

Lemma stable_drain : respects (stable Q) (drain P).
Proof. unfold drain. stable_steps; now apply stable_unwritten_emit. Qed.

Hint Resolve stable_drain : run.

Lemma stable_launch_and_supervise (wrapped_command : list string) (opt : Reproc.options) :
  respects (stable Q) (launch_and_supervise P wrapped_command opt).
Proof.
  unfold launch_and_supervise. stable_steps; now apply stable_unwritten_emit.
Qed.

End ChildPhases.

(** ** The lock and the child *)

(** C2, at an input where the code departs from it: the directory is
    there and can be listed but is not writable, and the lock is
    taken.  No record is written, the lock stays with the block, and
    the child is started while it is held; it is released after the
    child has been stopped. *)
Lemma child_started_under_lock :
  let run := run_in_environment (Example.host []) 1 ["echo"; "hi"] "" 0
               false false [] "" (Example.start (Dir false [])) in
  fst run = Ok 0%Z
  /\ lock_held_at_spawns (trace (snd run)) false = [ true ]
  /\ List.filter (fun e => match e with
                           | EvLockAcquired | EvLockReleased | EvSpawn _ _
                           | EvStopRequest _ => true
                           | _ => false
                           end) (trace (snd run))
     = [ EvLockAcquired;
         EvSpawn ["/bin/bash"; "/tmp/mamba_wrap.sh"; "exec"; "echo"; "hi"]
                 (start_options (Example.host []) "" 0 false []);
         EvStopRequest Reproc.no_actions;
         EvLockReleased ].
Proof. vm_compute. repeat split. Qed.

(** On the path that writes the record, the lock is released before
    the child is started. *)
Lemma child_started_without_lock_when_registered :
  let run := run_in_environment (Example.host []) 1 ["echo"; "hi"] "" 0
               false false [] "" (Example.start (Dir true [])) in
  fst run = Ok 0%Z
  /\ lock_held_at_spawns (trace (snd run)) false = [ false ].
Proof. vm_compute. repeat split. Qed.

(** ** Running the child: it returns, and reads the child only *)

Section Returns.

Context {bytes : Type}.
Implicit Types w : world bytes.

Lemma returns_ret {A} (a : A) : always_returns (ret (bytes := bytes) a).
Proof. intros w. now exists a, w. Qed.

Lemma returns_known_status : always_returns (known_status (bytes := bytes)).
Proof. intros w. now exists (child_status w), w. Qed.

Lemma returns_modify (f : world bytes -> world bytes) : always_returns (modify f).
Proof. intros w. now exists tt, (f w). Qed.

Lemma returns_bind {A B} (m : M bytes A) (k : A -> M bytes B) :
  always_returns m -> (forall a, always_returns (k a)) -> always_returns (bind m k).
Proof.
  intros Hm Hk w. destruct (Hm w) as (a & w1 & E). unfold bind. rewrite E. apply Hk.
Qed.

Lemma reads_ret {A} (a : A) : reads_child_only (ret (bytes := bytes) a).
Proof. intros w1 w2 H. now split. Qed.

Lemma reads_known_status : reads_child_only (known_status (bytes := bytes)).
Proof. intros w1 w2 H. unfold known_status. simpl. now rewrite H. Qed.

Lemma reads_modify (f : world bytes -> world bytes) :
  (forall w1 w2, child_status w1 = child_status w2 ->
                 child_status (f w1) = child_status (f w2)) ->
  reads_child_only (modify f).
Proof. intros Hf w1 w2 H. split; [reflexivity | now apply Hf]. Qed.

Lemma reads_bind {A B} (m : M bytes A) (k : A -> M bytes B) :
  reads_child_only m -> (forall a, reads_child_only (k a)) -> reads_child_only (bind m k).
Proof.
  intros Hm Hk w1 w2 H. unfold bind.
  destruct (Hm w1 w2 H) as [Hr Hc].
  destruct (m w1) as [r1 w1'], (m w2) as [r2 w2']. simpl in Hr, Hc. subst r2.
  destruct r1 as [a| | | |]; try (now split).
  now apply Hk.
Qed.

Lemma at_scope_exit_returned {A} (body : M bytes A) (destructors : M bytes unit)
    w (a : A) w' :
  at_scope_exit body destructors w = (Ok a, w') -> exists w1, body w = (Ok a, w1).
Proof.
  unfold at_scope_exit. destruct (body w) as [[b| | | |] w1]; try discriminate.
  - unfold bind. destruct (noexcept destructors w1) as [[[]| | | |] w2]; try discriminate.
    intros H. injection H as <- _. eauto.
  - unfold bind. destruct (noexcept destructors w1) as [[[]| | | |] w2]; discriminate.
Qed.

End Returns.

Ltac returns_step :=
  first
    [ assumption
    | solve [ auto with run ]
    | apply returns_ret
    | apply returns_known_status
    | apply returns_modify
    | apply returns_bind; [ | intro ]
    | match goal with
      | |- always_returns (match ?x with _ => _ end) => destruct x
      | |- always_returns (if ?x then _ else _) => destruct x
      | |- always_returns (let _ := _ in _) => cbv zeta
      end ].

Ltac reads_step :=
  first
    [ assumption
    | solve [ auto with run ]
    | apply reads_ret
    | apply reads_known_status
    | apply reads_modify; intros ? ? ?; simpl; solve [ auto ]
    | apply reads_bind; [ | intro ]
    | match goal with
      | |- reads_child_only (match ?x with _ => _ end) => destruct x
      | |- reads_child_only (if ?x then _ else _) => destruct x
      | |- reads_child_only (let _ := _ in _) => cbv zeta
      end ].

#[local] Hint Resolve stable_drain stable_proc_stop stable_unwritten_emit : run.

Section ChildFacts.

Context {bytes : Type}.
Variable P : platform bytes.
Implicit Types w : world bytes.

Lemma returns_LockFile_release (lockfile : bool) :
  always_returns (LockFile_release (bytes := bytes) lockfile).
Proof.
  unfold LockFile_release. destruct lockfile; [|apply returns_ret].
  intros w. now eexists _, _.
Qed.

Lemma returns_run_stop_actions (actions : list Reproc.stop_action) :
  forall r, always_returns (run_stop_actions P actions r).
Proof.
  induction actions as [|a rest IH]; intros r; cbn [run_stop_actions];
    repeat returns_step.
Qed.

Hint Resolve returns_run_stop_actions : run.

Lemma returns_launch_and_supervise (wrapped_command : list string) (opt : Reproc.options) :
  always_returns (launch_and_supervise P wrapped_command opt).
Proof.
  unfold launch_and_supervise, drain, sigterm_handler, proc_stop, log, emit.
  repeat returns_step.
Qed.

Lemma reads_run_stop_actions (actions : list Reproc.stop_action) :
  forall r, reads_child_only (run_stop_actions P actions r).
Proof.
  induction actions as [|a rest IH]; intros r; cbn [run_stop_actions];
    unfold emit; repeat reads_step.
Qed.

Hint Resolve reads_run_stop_actions : run.

Lemma reads_launch_and_supervise (wrapped_command : list string) (opt : Reproc.options) :
  reads_child_only (launch_and_supervise P wrapped_command opt).
Proof.
  unfold launch_and_supervise, drain, sigterm_handler, proc_stop, log, emit.
  repeat reads_step.
Qed.

(** The child is started first; no record is written from then on,
    and the directory stays as it is. *)
Lemma launch_starts_the_child (wrapped_command : list string) (opt : Reproc.options)
    w (r : result Z) w' :
  launch_and_supervise P wrapped_command opt w = (r, w') ->
  proc w' = proc w
  /\ exists evs,
       trace w' = (trace w ++ EvSpawn wrapped_command opt :: evs)%list
       /\ Forall (fun e => is_record_written e = false) evs.
Proof.
  unfold launch_and_supervise. unfold bind at 1, emit at 1, modify at 1.
  match goal with
  | |- ?m ?w1 = _ -> _ =>
      assert (Hm : respects (stable (fun e => is_record_written e = false)) m)
  end.
  { stable_steps. }
  intros H. apply Hm in H as ((evs & Ht & F) & Hp & _).
  cbn [proc trace with_trace] in Ht, Hp. split; [exact Hp|].
  exists evs. split; [|exact F]. rewrite Ht. now rewrite <- List.app_assoc.
Qed.

End ChildFacts.

(** ** Stopping the child *)

Section StopRequests.

Context {bytes : Type}.
Variable P : platform bytes.
Implicit Types w : world bytes.

(** What is seen of the actions of a request: nothing on a child that
    has ended. *)
Lemma run_stop_actions_events (actions : list Reproc.stop_action) :
  forall r w,
    trace (snd (run_stop_actions P actions r w))
    = (trace w ++ match child_status w with
                  | Some _ => []
                  | None => stop_events P actions
                  end)%list.
Proof.
  induction actions as [|a rest IH]; intros r w.
  - cbn. destruct (child_status w); now rewrite List.app_nil_r.
  - destruct a as [act t]. cbn [run_stop_actions stop_events Reproc.action Reproc.timeout].
    destruct act; [apply IH| | |];
      unfold bind at 1, known_status;
      (destruct (child_status w) as [status|] eqn:Known;
       [ cbn; now rewrite List.app_nil_r |]);
      unfold applied, sent; cbn [Reproc.action Reproc.timeout];
      destruct (child_reaction P _ t) as [status|];
      unfold bind, emit, modify, ret; cbn [fst snd];
      try (rewrite IH; cbn [child_status with_trace trace]; rewrite Known);
      cbn [child_status with_child_status with_trace trace snd];
      rewrite <- ?List.app_assoc; cbn [List.app]; rewrite ?List.app_nil_r; reflexivity.
Qed.

Lemma proc_stop_events (actions : Reproc.stop_actions) w :
  trace (snd (proc_stop P actions w))
  = (trace w ++ EvStopRequest actions
                :: match child_status w with
                   | Some _ => []
                   | None => stop_events P (Reproc.effective actions)
                   end)%list.
Proof.
  unfold proc_stop, bind, emit, modify. rewrite run_stop_actions_events.
  cbn [child_status with_trace trace]. rewrite <- List.app_assoc.
  reflexivity.
Qed.

Lemma returns_proc_stop (actions : Reproc.stop_actions) :
  always_returns (proc_stop P actions).
Proof.
  unfold proc_stop, emit.
  apply returns_bind; [apply returns_modify | intro; apply returns_run_stop_actions].
Qed.

(** A termination whose wait finds the child ended is the last thing
    seen of the actions of a request. *)
Lemma stop_events_end (actions : list Reproc.stop_action) :
  forall (before : list event) (t : Z) (after : list event),
    stop_events P actions = (before ++ [EvTerminateSent; EvWaited t] ++ after)%list ->
    child_reaction P Reproc.terminate t <> None ->
    after = [].
Proof.
  induction actions as [|a rest IH]; intros before t after Hev Hend.
  - destruct before; discriminate.
  - destruct a as [act ta]. cbn [stop_events Reproc.action Reproc.timeout] in Hev.
    unfold applied, sent in Hev. cbn [Reproc.action Reproc.timeout List.app] in Hev.
    destruct act.
    + now apply (IH before t after).
    + destruct before as [|e before]; [discriminate|].
      injection Hev as _ Hev.
      destruct (child_reaction P Reproc.wait ta); [destruct before; discriminate|].
      now apply (IH before t after).
    + destruct before as [|e1 [|e2 before]].
      * injection Hev as -> Hev.
        destruct (child_reaction P Reproc.terminate t); [auto | congruence].
      * discriminate.
      * injection Hev as _ _ Hev.
        destruct (child_reaction P Reproc.terminate ta); [destruct before; discriminate|].
        now apply (IH before t after).
    + destruct before as [|e1 [|e2 before]]; try discriminate.
      injection Hev as _ _ Hev.
      destruct (child_reaction P Reproc.kill ta); [destruct before; discriminate|].
      now apply (IH before t after).
Qed.

End StopRequests.

(** C8, as the code has it.  The stop request made when a termination
    signal arrives asks to terminate and wait 3000 ms, then to kill
    and wait 3000 ms, its third action being the one the declaration
    of the request left there: the termination is sent and the child
    waited for 3000 ms; the kill is sent, and the child waited for
    3000 ms again, only when that wait has timed out; the third action
    is applied only when the second wait has timed out too; nothing is
    sent to a child that has ended already.  For every stop request,
    whatever its actions: a request made on a child that has ended
    sends nothing, and a termination followed by a wait within which
    the child ends is the last thing the request does, so that no kill
    follows it. *)
Theorem sigterm_stop_escalates {bytes : Type} (P : platform bytes) (w : world bytes) :
  fst (sigterm_handler P w) = Ok tt
  /\ escalates (sigterm_request P) = true
  /\ trace (snd (sigterm_handler P w))
     = (trace w
        ++ [ EvLog LOG_INFO "Received SIGTERM on micromamba run - terminating process";
             EvStopRequest (sigterm_request P) ]
        ++ match child_status w with
           | Some _ => []
           | None =>
               [ EvTerminateSent; EvWaited 3000 ]
               ++ match child_reaction P Reproc.terminate 3000 with
                  | Some _ => []
                  | None =>
                      [ EvKillSent; EvWaited 3000 ]
                      ++ match child_reaction P Reproc.kill 3000 with
                         | Some _ => []
                         | None => applied (Reproc.third (sigterm_request P))
                         end
                  end
           end)%list
  /\ (forall (actions : Reproc.stop_actions) (w0 : world bytes),
        child_status w0 <> None ->
        trace (snd (proc_stop P actions w0)) = (trace w0 ++ [EvStopRequest actions])%list)
  /\ (forall (actions : Reproc.stop_actions) (w0 : world bytes)
             (before : list event) (t : Z) (after : list event),
        trace (snd (proc_stop P actions w0))
        = (trace w0 ++ before ++ [EvTerminateSent; EvWaited t] ++ after)%list ->
        child_reaction P Reproc.terminate t <> None ->
        after = []).
Proof.
  assert (Hrun : sigterm_handler P w
                 = (Ok tt, snd (proc_stop P (sigterm_request P)
                                  (snd (log LOG_INFO
                                          "Received SIGTERM on micromamba run - terminating process"
                                          w))))).
  { change (sigterm_handler P w)
      with (bind (log LOG_INFO "Received SIGTERM on micromamba run - terminating process")
                 (fun _ => bind (proc_stop P (sigterm_request P)) (fun _ => ret tt)) w).
    unfold bind at 1, log, emit, modify. cbn [snd].
    destruct (returns_proc_stop P (sigterm_request P)
                (with_trace (trace w ++ [EvLog LOG_INFO
                   "Received SIGTERM on micromamba run - terminating process"]) w))
      as (r & w2 & E).
    unfold bind. now rewrite E. }
  split; [now rewrite Hrun|].
  split; [reflexivity|].
  split; [|split].
  - rewrite Hrun. cbn [snd]. rewrite proc_stop_events.
    unfold log, emit, modify. cbn [snd child_status with_trace trace].
    rewrite <- List.app_assoc. cbn [List.app]. f_equal. f_equal. f_equal.
    destruct (child_status w); [reflexivity|].
    unfold sigterm_request at 1, Reproc.effective.
    cbn [Reproc.first Reproc.second Reproc.third Reproc.is_noop Reproc.action andb].
    cbn [stop_events Reproc.action Reproc.timeout]. unfold applied at 1 2, sent.
    cbn [Reproc.action Reproc.timeout List.app].
    f_equal. f_equal.
    destruct (child_reaction P Reproc.terminate 3000); [reflexivity|].
    f_equal. f_equal.
    destruct (child_reaction P Reproc.kill 3000); [reflexivity|].
    unfold sigterm_request. cbn [Reproc.third].
    destruct (Reproc.third (uninitialised_stop_actions P)) as [[| | |] t3];
      unfold applied, sent; cbn [Reproc.action Reproc.timeout List.app];
      try reflexivity;
      destruct (child_reaction P _ t3); now rewrite ?List.app_nil_r.
  - intros actions w0 Hended. rewrite proc_stop_events.
    destruct (child_status w0); [reflexivity | congruence].
  - intros actions w0 before t after Hev Hend.
    rewrite proc_stop_events in Hev. apply List.app_inv_head in Hev.
    destruct before as [|e before]; [discriminate|].
    injection Hev as _ Hev.
    destruct (child_status w0); [destruct before; discriminate|].
    now apply (stop_events_end P (Reproc.effective actions) before t after).
Qed.

(** C8, as stated, fails: of the two stop requests of a run during
    which a termination signal arrives, the one of the signal
    escalates, and the one the supervisor makes once the streams are
    drained does not: it is made with the stop actions of the start
    options, which are left idle. *)
Lemma stop_after_drain_does_not_escalate :
  let run := run_in_environment (interrupted (Example.host [])) 1 ["echo"; "hi"] "" 0
               false false [] "" (Example.start (Dir true [])) in
  fst run = Ok 15%Z
  /\ stop_requests (trace (snd run))
     = [ sigterm_request (interrupted (Example.host [])); Reproc.no_actions ]
  /\ map escalates (stop_requests (trace (snd run))) = [ true; false ].
Proof. vm_compute. repeat split. Qed.

(** ** Registration *)

Section RegistrationFacts.

Context {bytes : Type}.
Variable P : platform bytes.
Implicit Types w : world bytes.

Lemma same_child_refl w : same_child w w.
Proof. reflexivity. Qed.

Lemma same_child_trans w1 w2 w3 : same_child w1 w2 -> same_child w2 w3 -> same_child w1 w3.
Proof. unfold same_child. congruence. Qed.

Hint Resolve same_child_refl same_child_trans : run.

Lemma ScopedProcFile_ctor_same_child (name : string) (command : list string) (lk : bool) :
  respects same_child (ScopedProcFile_ctor P name command lk).
Proof.
  unfold ScopedProcFile_ctor, ScopedProcFile_init, LockFile_release, emit.
  repeat first [ respects_step | apply respects_modify; intros ?; reflexivity ].
Qed.

Lemma LockFile_release_effect (lk : bool) w :
  exists w',
    LockFile_release lk w = (Ok tt, w')
    /\ proc w' = proc w
    /\ exists evs, trace w' = (trace w ++ evs)%list
                   /\ Forall (fun e => is_record_written e = false) evs.
Proof.
  destruct lk; unfold LockFile_release, bind, get, modify, emit, ret; simpl.
  - eexists. split; [reflexivity|]. split; [reflexivity|].
    exists [EvLockReleased]. split; [reflexivity | now constructor].
  - exists w. split; [reflexivity|]. split; [reflexivity|].
    exists []. split; [now rewrite List.app_nil_r | constructor].
Qed.

End RegistrationFacts.

(** When the directory does not take a record, the block of lines 367
    to 423 writes none and raises no error: it starts the child,
    supervises it and returns the status [launch_and_supervise] gives,
    which is the status the block returns for the same child when it
    writes its record. *)
Lemma untracked_registration {bytes : Type} (P : platform bytes)
    (process_name : string) (raw_command : list string) (proc_dir_lock : bool)
    (wrapped_command : list string) (opt : Reproc.options) (w : world bytes) :
  can_register w = false ->
  let untracked :=
    register_and_supervise P process_name raw_command proc_dir_lock wrapped_command opt w in
  exists status,
    fst untracked = Ok status
    /\ proc (snd untracked) = proc w
    /\ (exists evs,
          trace (snd untracked) = (trace w ++ EvSpawn wrapped_command opt :: evs)%list
          /\ Forall (fun e => is_record_written e = false) evs)
    /\ fst (launch_and_supervise P wrapped_command opt w) = Ok status
    /\ forall (tracked : world bytes) status' tracked',
         child_status tracked = child_status w ->
         register_and_supervise P process_name raw_command proc_dir_lock wrapped_command opt
           tracked = (Ok status', tracked') ->
         status' = status.
Proof.
  intros Hcan untracked.
  destruct (returns_launch_and_supervise P wrapped_command opt w) as (status & w1 & Hrun).
  destruct (LockFile_release_effect proc_dir_lock w1) as (w2 & Hrel & Hp2 & evs2 & Ht2 & F2).
  assert (Huntracked : untracked = (Ok status, w2)).
  { unfold untracked, register_and_supervise. unfold bind at 1, get. rewrite Hcan.
    unfold at_scope_exit. rewrite Hrun. unfold bind, noexcept. now rewrite Hrel. }
  exists status. rewrite Huntracked. cbn [fst snd].
  destruct (launch_starts_the_child P _ _ _ _ _ Hrun) as (Hp1 & evs1 & Ht1 & F1).
  split; [reflexivity|]. split; [congruence|]. split.
  { exists (evs1 ++ evs2)%list. split.
    - rewrite Ht2, Ht1. now rewrite <- List.app_assoc.
    - apply Forall_app. now split. }
  split; [now rewrite Hrun|].
  intros tracked status' tracked' Hchild Htracked.
  assert (Hsame : forall w0, child_status w0 = child_status w ->
                    forall d w0', at_scope_exit (launch_and_supervise P wrapped_command opt) d w0
                                  = (Ok status', w0') -> status' = status).
  { intros w0 Hc d w0' H0. apply at_scope_exit_returned in H0 as (w0'' & H0).
    destruct (reads_launch_and_supervise P wrapped_command opt w0 w Hc) as [Hr _].
    rewrite H0, Hrun in Hr. now injection Hr. }
  unfold register_and_supervise in Htracked. unfold bind at 1, get in Htracked.
  destruct (can_register tracked).
  - unfold bind at 1 in Htracked.
    destruct (ScopedProcFile_ctor P process_name raw_command proc_dir_lock tracked)
      as [[location| | | |] tracked1] eqn:Hctor; try discriminate.
    apply ScopedProcFile_ctor_same_child in Hctor. unfold same_child in Hctor.
    apply (Hsame tracked1 ltac:(congruence) _ _ Htracked).
  - apply (Hsame tracked Hchild _ _ Htracked).
Qed.



(** ** Before the lock is taken *)

(** The first computation of a sequence that returned has returned. *)
Ltac bind_returned H E :=
  unfold bind at 1 in H;
  match type of H with
  | context [let (_, _) := ?mw in _] =>
      destruct mw as [[?| | | |] ?] eqn:E; try discriminate H
  end.

Section PrepareFacts.

Context {bytes : Type}.
Variable P : platform bytes.
Implicit Types w : world bytes.

Lemma ensure_proc_dir_ids w r w' :
  ensure_proc_dir P w = (r, w') ->
  self_pid w' = self_pid w /\ parent_pid w' = parent_pid w.
Proof.
  unfold ensure_proc_dir, bind, get, modify, emit, log, ret.
  destruct (proc w); [destruct (can_create_proc_dir P)|];
    intros H; injection H as _ <-; now split.
Qed.

Lemma daemonize_pid w w' :
  daemonize P w = (Ok tt, w') ->
  self_pid w' = supervisor_pid P true w.
Proof.
  unfold daemonize, supervisor_pid, bind, get, modify, emit, exit, ret. cbn [andb].
  destruct (Nat.eqb (parent_pid w) 1); cbn [negb].
  - intros H. now injection H as <-.
  - destruct (fork_result P) as [pid|]; [|discriminate]. cbn.
    destruct (setsid_ok P); cbn; [|discriminate].
    intros H. now injection H as <-.
Qed.

(** What the preparation returns: the command with [exec] in front,
    in the process that supervises. *)
Lemma prepare_run_returns (command : list string) (cwd : string) (stream_options : Z)
    (clean_env detach : bool) (env_vars : list string) w
    (prepared : list string * list string * Reproc.options) w1 :
  prepare_run P command cwd stream_options clean_env detach env_vars w = (Ok prepared, w1) ->
  self_pid w1 = supervisor_pid P detach w
  /\ exists front rest,
       command = front :: rest
       /\ fst (fst prepared) = if front =? "exec" then command else "exec" :: command.
Proof.
  unfold prepare_run. intros H.
  bind_returned H E1. apply ensure_proc_dir_ids in E1 as [I1 J1].
  bind_returned H E2.
  apply (stable_get_all P (fun _ => True) (fun _ _ => I)) in E2 as (_ & _ & I2 & J2).
  unfold bind at 1, emit at 1, modify at 1 in H.
  unfold bind at 1, log at 1, emit at 1, modify at 1 in H.
  destruct command as [|front rest]; [discriminate|].
  unfold bind at 1, ret at 1 in H.
  destruct (prepare_wrapped_call P (target_prefix P) _) as [wrapped script].
  unfold bind at 1, log at 1, emit at 1, modify at 1 in H.
  bind_returned H E3.
  apply (stable_collect_env P (fun _ => True) (fun _ _ => I)) in E3 as (_ & _ & I3 & J3).
  cbn [self_pid parent_pid with_trace] in I3, J3.
  destruct detach.
  - unfold bind at 1 in H. unfold bind at 1, emit at 1, modify at 1 in H.
    match type of H with
    | context [daemonize P ?wd] =>
        destruct (daemonize P wd) as [[[]| | | |] wd'] eqn:E4; try discriminate H;
        apply daemonize_pid in E4
    end.
    injection H as <- <-. split; [|eauto].
    rewrite E4. unfold supervisor_pid. cbn [self_pid parent_pid with_trace].
    now rewrite I3, J3, I2, J2, I1, J1.
  - unfold bind at 1, ret at 1 in H. injection H as <- <-. split; [|eauto].
    unfold supervisor_pid. cbn [andb]. congruence.
Qed.

End PrepareFacts.

(** ** An explicit name *)

Lemma resolve_explicit_name {bytes : Type} (P : platform bytes) (fuel : nat)
    (c0 : string) (crest : list string) (specific_process_name : string) (w : world bytes) :
  specific_process_name <> "" ->
  resolve_process_name P fuel (c0 :: crest) specific_process_name w
  = (match fst (is_process_name_running P specific_process_name w) with
     | Ok true =>
         Throw (runtime_error ("Another process with name '" ++ specific_process_name
                               ++ "' is currently running."))
     | Ok false =>
         Ok (specific_process_name, c0 :: "-a" :: specific_process_name :: crest)
     | failure => result_bind failure (fun _ => Ok ("", []))
     end,
     snd (is_process_name_running P specific_process_name w)).
Proof.
  intros Hname. unfold resolve_process_name.
  destruct (String.eqb_spec specific_process_name "") as [|_]; [contradiction|].
  unfold bind.
  now destruct (is_process_name_running P specific_process_name w) as [[[|]| | | |] w'].
Qed.

(** C6: when the caller gives a name and the run gets to the check
    (the preparation and the locking have returned), a name that is in
    use makes [run_in_environment] throw an error that names it, every
    event of the run being neither a record written nor a child
    started, and the directory being as the preparation left it; a
    name that is not in use is the name the registration and the
    supervision are run with. *)
Theorem explicit_name_in_use_is_refused {bytes : Type} (P : platform bytes)
    (fuel : nat) (command : list string) (cwd : string) (stream_options : Z)
    (clean_env detach : bool) (env_vars : list string) (specific_process_name : string)
    (w w1 w2 : world bytes) (exec_command wrapped_command : list string)
    (opt : Reproc.options) (proc_dir_lock : bool) :
  specific_process_name <> "" ->
  prepare_run P command cwd stream_options clean_env detach env_vars w
  = (Ok (exec_command, wrapped_command, opt), w1) ->
  lock_proc_dir P w1 = (Ok proc_dir_lock, w2) ->
  let run := run_in_environment P fuel command cwd stream_options clean_env detach
               env_vars specific_process_name w in
  (fst (is_process_name_running P specific_process_name w2) = Ok true ->
   fst run = Throw (runtime_error ("Another process with name '" ++ specific_process_name
                                   ++ "' is currently running."))
   /\ extends silent w (snd run)
   /\ proc (snd run) = proc w1)
  /\ (fst (is_process_name_running P specific_process_name w2) = Ok false ->
      run = register_and_supervise P specific_process_name command proc_dir_lock
              wrapped_command opt
              (snd (is_process_name_running P specific_process_name w2))).
Proof.
  intros Hname Hprep Hlock run.
  assert (Hcmd : exists c0 crest, exec_command = c0 :: crest).
  { destruct (prepare_run_returns P _ _ _ _ _ _ _ _ _ Hprep) as (_ & front & rest & -> & E).
    cbn [fst] in E. rewrite E. destruct (front =? "exec"); eauto. }
  destruct Hcmd as (c0 & crest & ->).
  assert (Hrun : run = bind (at_scope_exit_on_throw
                               (resolve_process_name P fuel (c0 :: crest) specific_process_name)
                               (LockFile_release proc_dir_lock))
                            (fun named => let '(process_name, _) := named in
                               register_and_supervise P process_name command proc_dir_lock
                                 wrapped_command opt) w2).
  { unfold run, run_in_environment. unfold bind at 1. rewrite Hprep.
    unfold bind at 1. now rewrite Hlock. }
  pose proof (resolve_explicit_name P fuel c0 crest specific_process_name w2 Hname) as Hres.
  destruct (is_process_name_running P specific_process_name w2) as [r2 w2'] eqn:Hcheck.
  cbn [fst snd] in Hres |- *.
  split; intros ->.
  - destruct (LockFile_release proc_dir_lock w2') as [r3 w3] eqn:Hrel.
    assert (Hst := Hrel).
    apply (stable_LockFile_release silent (fun _ H => H)) in Hst as (Hx3 & Hp3 & _).
    assert (Hok := Hrel). apply LockFile_release_proc in Hok as (-> & _ & _).
    assert (Hthrows : run = (Throw (runtime_error
                                      ("Another process with name '" ++ specific_process_name
                                       ++ "' is currently running.")), w3)).
    { rewrite Hrun. unfold bind at 1, at_scope_exit_on_throw. rewrite Hres.
      unfold bind, noexcept, throw. now rewrite Hrel. }
    rewrite Hthrows. cbn [fst snd].
    apply (stable_is_process_name_running P silent (fun _ H => H)) in Hcheck
      as (Hx2 & Hp2 & _).
    apply (stable_lock_proc_dir P silent (fun _ H => H)) in Hlock as (Hx1 & Hp1 & _).
    apply (extends_prepare_run P silent (fun _ H => H)) in Hprep.
    split; [reflexivity|]. split; [|congruence].
    eauto using extends_trans.
  - rewrite Hrun. unfold bind at 1, at_scope_exit_on_throw. now rewrite Hres.
Qed.

Lemma explicit_name_in_use_is_refused_witness :
  let H := Example.host [] in
  let w := Example.start (Dir true [ Example.record_file 8 "curious_echo" ]) in
  let run := run_in_environment H 1 ["echo"; "hi"] "" 0 false false [] "curious_echo" w in
  fst run = Throw (runtime_error "Another process with name 'curious_echo' is currently running.")
  /\ extends silent w (snd run)
  /\ proc (snd run) = Dir true [ Example.record_file 8 "curious_echo" ].
Proof.
  intros H w run.
  refine (proj1 (explicit_name_in_use_is_refused H 1 ["echo"; "hi"] "" 0 false false []
                   "curious_echo" w
                   (snd (prepare_run H ["echo"; "hi"] "" 0 false false [] w))
                   (snd (lock_proc_dir H
                           (snd (prepare_run H ["echo"; "hi"] "" 0 false false [] w))))
                   ["exec"; "echo"; "hi"]
                   ["/bin/bash"; "/tmp/mamba_wrap.sh"; "exec"; "echo"; "hi"]
                   (start_options H "" 0 false []) true _ _ _) _).
  - discriminate.
  - vm_compute. reflexivity.
  - vm_compute. reflexivity.
  - vm_compute. reflexivity.
Defined.

(** A name that is not in use is written to the record as it was
    given. *)
Lemma explicit_name_is_used_verbatim :
  let run := run_in_environment (Example.host []) 1 ["echo"; "hi"] "" 0 false false []
               "my_echo" (Example.start (Dir true [ Example.record_file 8 "curious_echo" ])) in
  fst run = Ok 0%Z
  /\ List.filter is_record_written (trace (snd run))
     = [ EvRecordWritten "/home/user/.mamba/proc/100.json"
           (JObject [ ("command", JArray [JString "echo"; JString "hi"]);
                      ("name", JString "my_echo");
                      ("prefix", JString "/opt/env") ]) ].
Proof. vm_compute. split; reflexivity. Qed.

(** ** The process the record is named after *)

Section IdentityFacts.

Context {bytes : Type}.
Variable P : platform bytes.
Implicit Types w : world bytes.

Lemma keeps_identity_refl w : keeps_identity P w w.
Proof. split; [apply extends_refl | reflexivity]. Qed.

Lemma keeps_identity_trans w1 w2 w3 :
  keeps_identity P w1 w2 -> keeps_identity P w2 w3 -> keeps_identity P w1 w3.
Proof.
  intros [E1 I1] [E2 I2]. rewrite I1 in E2.
  split; [eapply extends_trans; eauto | congruence].
Qed.

Lemma unwritten_is_written_to (path : string) (e : event) :
  is_record_written e = false -> written_to path e.
Proof. now destruct e. Qed.

Lemma identity_of_stable {A} (m : M bytes A) :
  respects (stable (fun e => is_record_written e = false)) m ->
  respects (keeps_identity P) m.
Proof.
  intros H w r w' E. apply H in E as (Hx & _ & Hi & _).
  split; [|exact Hi]. eapply extends_weaken; [|exact Hx].
  apply unwritten_is_written_to.
Qed.

Lemma keeps_identity_emit (e : event) :
  is_record_written e = false -> respects (keeps_identity P) (emit (bytes := bytes) e).
Proof.
  intros He w r w' H. injection H as _ <-. split; [|reflexivity].
  apply extends_emit. now apply unwritten_is_written_to.
Qed.

Lemma keeps_identity_same_trace w w' :
  trace w' = trace w -> self_pid w' = self_pid w -> keeps_identity P w w'.
Proof. intros Ht Hi. split; [now apply extends_same_trace | exact Hi]. Qed.

End IdentityFacts.

#[local] Hint Resolve keeps_identity_refl keeps_identity_trans : run.

Lemma silent_is_unwritten (e : event) : silent e -> is_record_written e = false.
Proof. now intros [H _]. Qed.

Ltac identity_steps :=
  repeat first
    [ assumption
    | solve [ auto with run ]
    | apply identity_of_stable;
      solve [ auto using stable_lock_proc_dir, stable_LockFile_release,
                stable_resolve_process_name, stable_launch_and_supervise,
                silent_is_unwritten ]
    | apply keeps_identity_emit; reflexivity
    | respects_step
    | apply respects_modify; intros ?; apply keeps_identity_same_trace; reflexivity ].

Section IdentityPhases.

Context {bytes : Type}.
Variable P : platform bytes.
Implicit Types w : world bytes.

Lemma keeps_identity_init (name : string) (command : list string) (lk : bool) :
  respects (keeps_identity P) (ScopedProcFile_init P name command lk).
Proof.
  intros w r w'. unfold ScopedProcFile_init.
  unfold bind at 1, get. cbv zeta. unfold bind at 1.
  destruct (use_lockfiles P && negb lk).
  - intros H. injection H as _ <-. apply keeps_identity_refl.
  - unfold ret at 1. destruct (proc w) as [|writable entries].
    + intros H. injection H as _ <-. apply keeps_identity_refl.
    + destruct (can_open_for_writing _ _).
      * rewrite file_json_stored. unfold bind at 1, lift.
        destruct (dump_throws P (stored_record P name command)).
        { unfold bind, modify, throw. intros H. injection H as _ <-.
          now apply keeps_identity_same_trace. }
        unfold bind, modify, emit, ret.
        intros H. injection H as _ <-. split; [|reflexivity].
        eexists. split; [reflexivity|]. constructor; [|constructor].
        reflexivity.
      * intros H. injection H as _ <-. apply keeps_identity_refl.
Qed.

Hint Resolve keeps_identity_init : run.

Lemma keeps_identity_ctor (name : string) (command : list string) (lk : bool) :
  respects (keeps_identity P) (ScopedProcFile_ctor P name command lk).
Proof. unfold ScopedProcFile_ctor. identity_steps. Qed.

Lemma keeps_identity_dtor (location : string) :
  respects (keeps_identity P) (ScopedProcFile_dtor P location).
Proof. unfold ScopedProcFile_dtor, log. identity_steps. Qed.

Hint Resolve keeps_identity_ctor keeps_identity_dtor : run.

Lemma keeps_identity_register_and_supervise (process_name : string)
    (raw_command : list string) (lk : bool) (wrapped_command : list string)
    (opt : Reproc.options) :
  respects (keeps_identity P)
    (register_and_supervise P process_name raw_command lk wrapped_command opt).
Proof. unfold register_and_supervise. identity_steps. Qed.

End IdentityPhases.

#[local] Hint Resolve keeps_identity_register_and_supervise : run.


(** A detached run: the record is the file of the forked supervisor,
    4242, and the child, 777, has no file. *)
Lemma detached_record_is_named_after_the_forked_supervisor :
  let H := Example.host [] in
  let run := run_in_environment H 1 ["echo"; "hi"] "" 0 false true [] ""
               (Example.start (Dir true [])) in
  supervisor_pid H true (Example.start (Dir true [])) = 4242
  /\ child_pid H = 777
  /\ List.filter is_record_written (trace (snd run))
     = [ EvRecordWritten "/home/user/.mamba/proc/4242.json"
           (JObject [ ("command", JArray [JString "echo"; JString "hi"]);
                      ("name", JString "curious_echo");
                      ("prefix", JString "/opt/env") ]) ].
Proof. vm_compute. repeat split. Qed.

(** * Further properties *)

(** ** The extra environment of the child *)

Section EnvFacts.

Context {bytes : Type}.
Variable P : platform bytes.
Implicit Types w : world bytes.

(** The loop over [env_vars] returns the map [collected_env] gives and
    logs the warnings of the entries that set nothing. *)
Lemma collect_env_spec (env_vars : list string) :
  forall env_map w,
    collect_env P env_vars env_map w
    = (Ok (collected_env P env_vars env_map),
       with_trace (trace w ++ env_warnings P env_vars) w).
Proof.
  induction env_vars as [|e rest IH]; intros env_map w.
  - cbn. unfold ret. now rewrite with_trace_nil.
  - cbn [collect_env collected_env]. unfold env_warnings. cbn [List.filter].
    destruct (split_at_eq e) as [[k v]|] eqn:Es.
    + assert (E : env_setting P e = Some (k, v)) by (unfold env_setting; now rewrite Es).
      rewrite E. apply IH.
    + destruct (env_get P e) as [val|] eqn:Eg.
      * assert (E : env_setting P e = Some (e, val))
          by (unfold env_setting; now rewrite Es, Eg).
        rewrite E. apply IH.
      * assert (E : env_setting P e = None)
          by (unfold env_setting; now rewrite Es, Eg).
        rewrite E. unfold bind, log, emit, modify. rewrite IH.
        cbn [map]. now rewrite with_trace_twice.
Qed.

Lemma env_lookup_assign (key k v : string) (env_map : list (string * string)) :
  env_lookup key (map_assign k v env_map)
  = if k =? key then Some v else env_lookup key env_map.
Proof.
  induction env_map as [|[k' v'] rest IH]; cbn [map_assign env_lookup].
  - reflexivity.
  - destruct (String.compare k k') eqn:C; cbn [env_lookup].
    + apply String.compare_eq_iff in C. subst k'. now destruct (k =? key).
    + reflexivity.
    + rewrite IH. destruct (String.eqb_spec k key) as [->|]; [|reflexivity].
      destruct (String.eqb_spec k' key) as [->|]; [|reflexivity].
      now rewrite JsonFacts.compare_refl in C.
Qed.

Lemma collected_env_lookup (key : string) (env_vars : list string) :
  forall env_map,
    env_lookup key (collected_env P env_vars env_map)
    = last_setting P key env_vars (env_lookup key env_map).
Proof.
  unfold last_setting.
  induction env_vars as [|e rest IH]; intros env_map; cbn [collected_env fold_left].
  - reflexivity.
  - destruct (env_setting P e) as [[k v]|]; rewrite IH; [|reflexivity].
    now rewrite env_lookup_assign.
Qed.

Lemma compare_lt_trans (a b c : string) :
  String.compare a b = Lt -> String.compare b c = Lt -> String.compare a c = Lt.
Proof.
  intros H1 H2.
  apply OrderedTypeEx.String_as_OT.cmp_lt in H1.
  apply OrderedTypeEx.String_as_OT.cmp_lt in H2.
  apply OrderedTypeEx.String_as_OT.cmp_lt.
  eapply OrderedTypeEx.String_as_OT.lt_trans; eauto.
Qed.

Lemma compare_gt_lt (a b : string) : String.compare a b = Gt -> String.compare b a = Lt.
Proof. intros H. rewrite String.compare_antisym, H. reflexivity. Qed.

Lemma keys_ascending_cons (k v : string) (env_map : list (string * string)) :
  keys_ascending ((k, v) :: env_map) = true
  <-> above k env_map /\ keys_ascending env_map = true.
Proof.
  cbn [keys_ascending]. destruct env_map as [|[k' v'] rest]; cbn [above].
  - tauto.
  - destruct (String.compare k k'); split; try tauto; try discriminate;
      intros [? ?]; discriminate.
Qed.

Lemma map_assign_ascending (k v : string) (env_map : list (string * string)) :
  keys_ascending env_map = true ->
  keys_ascending (map_assign k v env_map) = true
  /\ forall k0, String.compare k0 k = Lt -> above k0 env_map ->
                above k0 (map_assign k v env_map).
Proof.
  induction env_map as [|[k' v'] rest IH]; intros H.
  - split; [reflexivity | intros k0 H0 _; exact H0].
  - apply keys_ascending_cons in H as [Hab Hrest]. cbn [map_assign].
    destruct (String.compare k k') eqn:C.
    + apply String.compare_eq_iff in C. subst k'. split.
      * apply keys_ascending_cons. now split.
      * intros k0 H0 _. exact H0.
    + split.
      * apply keys_ascending_cons. split; [exact C|].
        apply keys_ascending_cons. now split.
      * intros k0 H0 _. exact H0.
    + destruct (IH Hrest) as [IH1 IH2]. split.
      * apply keys_ascending_cons. split; [|exact IH1].
        apply IH2; [now apply compare_gt_lt | exact Hab].
      * intros k0 _ H0. exact H0.
Qed.

Lemma collected_env_ascending (env_vars : list string) :
  forall env_map,
    keys_ascending env_map = true ->
    keys_ascending (collected_env P env_vars env_map) = true.
Proof.
  induction env_vars as [|e rest IH]; intros env_map H; cbn [collected_env].
  - exact H.
  - destruct (env_setting P e) as [[k v]|]; apply IH; [|exact H].
    now apply map_assign_ascending.
Qed.

Lemma ascending_above_all (k : string) (env_map : list (string * string)) :
  above k env_map -> keys_ascending env_map = true ->
  forall k', In k' (map fst env_map) -> String.compare k k' = Lt.
Proof.
  revert k. induction env_map as [|[k1 v1] rest IH]; intros k Hab H k' Hin.
  - contradiction.
  - apply keys_ascending_cons in H as [Hab1 Hrest]. cbn [above] in Hab.
    destruct Hin as [<-|Hin]; [exact Hab|].
    eapply compare_lt_trans; [exact Hab|]. now apply (IH k1).
Qed.

Lemma ascending_keys_once (env_map : list (string * string)) :
  keys_ascending env_map = true -> NoDup (map fst env_map).
Proof.
  induction env_map as [|[k v] rest IH]; intros H; cbn [map fst].
  - constructor.
  - apply keys_ascending_cons in H as [Hab Hrest]. constructor; [|now apply IH].
    intros Hin. pose proof (ascending_above_all k rest Hab Hrest k Hin) as C.
    now rewrite JsonFacts.compare_refl in C.
Qed.

End EnvFacts.

(** X1: each variable of the extra environment has the value the last
    entry that sets it gives: an entry with ["="] sets the variable on
    its left to what is on its right, an entry without sets the
    variable it names to the value the environment has for it, and one
    the environment does not have sets nothing and is logged as a
    warning.  The loop never fails. *)
Theorem later_setting_of_a_variable_wins {bytes : Type} (P : platform bytes)
    (env_vars : list string) (env_map : list (string * string)) (w : world bytes)
    (key : string) :
  exists collected,
    collect_env P env_vars env_map w
    = (Ok collected, with_trace (trace w ++ env_warnings P env_vars) w)
    /\ env_lookup key collected
       = last_setting P key env_vars (env_lookup key env_map).
Proof.
  exists (collected_env P env_vars env_map). split.
  - apply collect_env_spec.
  - apply collected_env_lookup.
Qed.

(** The entries of the third end-to-end scenario: [FOO] is set, [PATH]
    is taken from the environment, and [NOPE123], which the environment
    does not have, is left out with a warning. *)
Lemma env_of_the_third_scenario :
  collect_env (Example.host []) ["FOO=bar"; "PATH"; "NOPE123"] []
              (Example.start (Dir true []))
  = (Ok [ ("FOO", "bar"); ("PATH", "/usr/bin") ],
     with_trace [ EvLog LOG_WARNING "Requested env var NOPE123 does not exist in environment" ]
                (Example.start (Dir true []))).
Proof. reflexivity. Qed.

(** X2: the extra environment holds each variable once, the variables in
    ascending order, whatever the entries and their order. *)
Theorem extra_environment_has_each_variable_once {bytes : Type} (P : platform bytes)
    (env_vars : list string) (w : world bytes) :
  exists collected,
    fst (collect_env P env_vars [] w) = Ok collected
    /\ keys_ascending collected = true
    /\ NoDup (map fst collected).
Proof.
  exists (collected_env P env_vars []). rewrite collect_env_spec.
  assert (H : keys_ascending (collected_env P env_vars []) = true)
    by now apply collected_env_ascending.
  split; [reflexivity|]. split; [exact H|]. now apply ascending_keys_once.
Qed.

(** ** The listing, whatever the directory holds *)

Section ListingFrames.

Context {bytes : Type}.
Variable P : platform bytes.
Implicit Types w : world bytes.

(** The loop passes over the files whose name does not end in
    [.json], reads nothing of the world, and changes its trace
    only. *)
Lemma scan_entries_json_only (filter : option (json -> result bool))
    (entries : list (file bytes)) :
  forall acc w1 w2,
    trace w1 = trace w2 ->
    let all := scan_entries P filter entries acc w1 in
    let json_only :=
      scan_entries P filter (List.filter (is_record_file (bytes := bytes)) entries) acc w2 in
    fst all = fst json_only /\ trace (snd all) = trace (snd json_only).
Proof.
  induction entries as [|entry rest IH]; intros acc w1 w2 Ht; cbv zeta.
  - now split.
  - cbn [List.filter scan_entries].
    change (is_record_file entry) with (Path.extension (fname entry) =? ".json").
    destruct (Path.extension (fname entry) =? ".json") eqn:E; cbn [negb];
      [|now apply IH].
    cbn [scan_entries]. rewrite E. cbn [negb].
    destruct (can_read entry); cbn [negb].
    + destruct (parse P (content entry)) as [parsed|]; [|now split].
      destruct (Json.set "pid" (JString (Path.replace_extension (fname entry))) parsed)
        as [doc| | | |]; cbv beta iota delta [bind lift]; try now split.
      destruct filter as [f|]; cbv beta iota delta [ret].
      * destruct (f doc) as [[|]| | | |]; cbv beta iota; try now split.
        -- destruct (Json.push_back acc doc) as [acc'| | | |]; try now split.
           now apply IH.
        -- now apply IH.
      * destruct (Json.push_back acc doc) as [acc'| | | |]; try now split.
        now apply IH.
    + cbv beta iota delta [bind log emit modify]. apply IH.
      cbn [trace with_trace]. now rewrite Ht.
Qed.

End ListingFrames.

(** X3: the listing opens the files whose name ends in [.json] and no
    other: whatever the other entries of the directory are, and
    whether they can be read or not, the listing returns, throws and
    warns as it does without them. *)
Theorem listing_reads_json_files_only {bytes : Type} (P : platform bytes)
    (filter : option (json -> result bool)) (writable : bool)
    (entries : list (file bytes)) (w : world bytes) :
  let all := get_all_running_processes_info P filter (with_proc (Dir writable entries) w) in
  let json_only :=
    get_all_running_processes_info P filter
      (with_proc (Dir writable (List.filter (is_record_file (bytes := bytes)) entries)) w) in
  fst all = fst json_only /\ trace (snd all) = trace (snd json_only).
Proof.
  intros all json_only. unfold all, json_only, get_all_running_processes_info.
  unfold bind, get. cbn [proc with_proc].
  now apply scan_entries_json_only.
Qed.

(** A file that is no record, here one that cannot be read and holds
    no document, leaves the listing as it is. *)
Lemma listing_passes_over_a_lock_file :
  let lockfile := {| fname := "proc.lock"; can_read := false; can_write := false;
                     content := Example.malformed "" |} in
  fst (get_all_running_processes_info (Example.host []) None
         (Example.start (Dir true [ lockfile; Example.record_file 8 "curious_sleep" ])))
  = fst (get_all_running_processes_info (Example.host []) None
           (Example.start (Dir true [ Example.record_file 8 "curious_sleep" ]))).
Proof. reflexivity. Qed.

(** X4: a name is reported as running exactly when the record of a file
    that opens has it under ["name"], the comparison being the one of
    strings; this on a directory that exists, whose record files that
    open hold a document with a name.  On any other directory the
    check does not answer. *)
Theorem name_check_is_exact {bytes : Type} (P : platform bytes) (name : string)
    (w : world bytes) :
  (healthy P (proc w) = true ->
   fst (is_process_name_running P name w)
   = Ok (existsb (name_is name) (records P (dir_entries (proc w)))))
  /\ (healthy P (proc w) = false ->
      forall running : bool, fst (is_process_name_running P name w) <> Ok running).
Proof.
  rewrite is_process_name_running_result. split.
  - apply healthy_running.
  - intros H running E. apply running_healthy in E. congruence.
Qed.

(** ** Runs that end before the lock is taken *)

(** X5: when the registry directory exists and cannot be listed, be it for
    one record file that opens and holds no document,
    [run_in_environment] throws what the listing throws: nothing is
    locked, written or started, and the directory is left as it is. *)
Theorem unlistable_registry_aborts_the_run {bytes : Type} (P : platform bytes)
    (fuel : nat) (command : list string) (cwd : string) (stream_options : Z)
    (clean_env detach : bool) (env_vars : list string) (specific_process_name : string)
    (w : world bytes) (e : exn) :
  proc w <> Absent ->
  fst (get_all_running_processes_info P None w) = Throw e ->
  let run := run_in_environment P fuel command cwd stream_options clean_env detach
               env_vars specific_process_name w in
  fst run = Throw e
  /\ stable silent w (snd run)
  /\ same_lock w (snd run).
Proof.
  intros Hdir Hlist run.
  assert (Hrun : run = (Throw e, snd (get_all_running_processes_info P None w))).
  { unfold run, run_in_environment, prepare_run. unfold bind at 1 2 3.
    unfold ensure_proc_dir. unfold bind at 1, get at 1.
    destruct (proc w) as [|writable entries]; [contradiction|]. unfold ret at 1.
    destruct (get_all_running_processes_info P None w) as [r w1].
    cbn [fst] in Hlist. now subst r. }
  rewrite Hrun. cbn [fst snd]. split; [reflexivity|].
  destruct (get_all_running_processes_info P None w) as [r w1] eqn:E. cbn [snd].
  split.
  - apply (stable_get_all P silent (fun _ H => H)) in E. exact E.
  - unfold get_all_running_processes_info, bind, get in E.
    destruct (proc w) as [|writable entries]; [contradiction|].
    destruct (scan_entries_spec P None entries JNull w) as (evs & Hs & _).
    rewrite Hs in E. injection E as _ <-. now split.
Qed.

Lemma unlistable_registry_aborts_the_run_witness :
  let w := Example.start (Dir true [ Example.record_file 8 "curious_sleep";
                                     Example.malformed_file 9 ]) in
  let run := run_in_environment (Example.host []) 1 ["echo"; "hi"] "" 0 false false []
               "" w in
  fst run = Throw parse_error
  /\ stable silent w (snd run)
  /\ same_lock w (snd run).
Proof.
  intros w run.
  apply (unlistable_registry_aborts_the_run (Example.host []) 1 ["echo"; "hi"] "" 0
           false false [] "" w parse_error).
  - discriminate.
  - reflexivity.
Defined.

(** X6: when the registry directory does not exist and cannot be created,
    [run_in_environment] logs the warning of line 259 and then throws
    the error of the directory iterator, at line 263: nothing is
    locked, written or started. *)
Theorem missing_registry_aborts_the_run {bytes : Type} (P : platform bytes)
    (fuel : nat) (command : list string) (cwd : string) (stream_options : Z)
    (clean_env detach : bool) (env_vars : list string) (specific_process_name : string)
    (w : world bytes) :
  proc w = Absent ->
  can_create_proc_dir P = false ->
  let run := run_in_environment P fuel command cwd stream_options clean_env detach
               env_vars specific_process_name w in
  (exists what, fst run = Throw (filesystem_error what))
  /\ snd run
     = with_trace (trace w ++ [ EvLog LOG_WARNING
                                  ("Could not create proc dir: " ++ proc_dir_path P
                                   ++ " (" ++ create_error P ++ ")") ]) w.
Proof.
  intros Hdir Hcreate run.
  assert (Hrun : run = (Throw (filesystem_error ("directory iterator cannot open directory: "
                                                 ++ proc_dir_path P)),
                        with_trace (trace w ++ [ EvLog LOG_WARNING
                                                   ("Could not create proc dir: "
                                                    ++ proc_dir_path P
                                                    ++ " (" ++ create_error P ++ ")") ]) w)).
  { unfold run, run_in_environment, prepare_run. unfold bind at 1 2 3.
    unfold ensure_proc_dir. unfold bind at 1, get at 1. rewrite Hdir, Hcreate.
    unfold log, emit, modify.
    unfold get_all_running_processes_info. unfold bind at 1, get at 1.
    replace (proc (with_trace _ w)) with (proc w) by reflexivity.
    now rewrite Hdir. }
  rewrite Hrun. cbn [fst snd]. split; [eauto | reflexivity].
Qed.

Lemma missing_registry_aborts_the_run_witness :
  let H := host_where true (fun _ => true) false (Some 4242) true true (Example.host []) in
  let run := run_in_environment H 1 ["echo"; "hi"] "" 0 false false [] ""
               (Example.start Absent) in
  (exists what, fst run = Throw (filesystem_error what))
  /\ trace (snd run)
     = [ EvLog LOG_WARNING
           "Could not create proc dir: /home/user/.mamba/proc (permission denied)" ].
Proof.
  intros H run.
  destruct (missing_registry_aborts_the_run H 1 ["echo"; "hi"] "" 0 false false [] ""
              (Example.start Absent) eq_refl eq_refl) as [Hthrow Hworld].
  split; [exact Hthrow|]. unfold run. now rewrite Hworld.
Defined.

(** ** The names the generator makes, and its pools *)

Section PoolFacts.

Context {bytes : Type}.
Variable P : platform bytes.
Implicit Types w : world bytes.

Lemma erase_incl {A} (v : list A) : forall idx, incl (erase idx v) v.
Proof.
  unfold erase. induction v as [|x v IH]; intros idx y Hy.
  - destruct idx; exact Hy.
  - destruct idx as [|idx]; cbn [firstn skipn app] in Hy.
    + now right.
    + destruct Hy as [<-|Hy]; [now left | right; exact (IH idx y Hy)].
Qed.

Lemma erase_shorter {A} (idx : nat) (v : list A) : length (erase idx v) <= length v.
Proof.
  unfold erase. rewrite List.length_app, List.length_firstn, List.length_skipn. lia.
Qed.

Lemma pools_within_refl w : pools_within w w.
Proof. split; [auto | split; [apply incl_refl | apply Nat.le_refl]]. Qed.

Lemma pools_within_trans w1 w2 w3 :
  pools_within w1 w2 -> pools_within w2 w3 -> pools_within w1 w3.
Proof.
  intros (B1 & A1 & L1) (B2 & A2 & L2). split; [auto|].
  split; [eapply incl_tran; eauto | lia].
Qed.

Lemma pools_within_same w w' :
  prefixes_bag w' = prefixes_bag w -> alt_names w' = alt_names w -> pools_within w w'.
Proof. intros Hb Ha. unfold pools_within. rewrite Hb, Ha. apply pools_within_refl. Qed.

(** The draw of a prefix is one of the bag. *)
Lemma drawn_from (v : list string) (n : nat) :
  v <> [] -> In (nth (n mod length v) v "") v.
Proof.
  intros H. apply nth_In. apply Nat.mod_upper_bound.
  destruct v; [congruence | discriminate].
Qed.

Lemma name_loop_pools (fuel : nat) :
  forall program_name selected_name w r w',
    name_loop P fuel program_name selected_name w = (r, w') -> pools_within w w'.
Proof.
  induction fuel as [|fuel IH]; intros pn sel w r w' H.
  - injection H as _ <-. apply pools_within_refl.
  - destruct (prefixes_bag w) as [|b bag] eqn:Hbag.
    + destruct (alt_names w) as [|a alt] eqn:Halt.
      * rewrite (name_loop_fail_safe P fuel pn sel w Hbag Halt) in H.
        destruct (return_unless_running_eq P (random_string_at P 8 (rng_pos w)) pn
                    (name_loop P fuel pn pn) (with_rng_pos (8 + rng_pos w) w))
          as (evs & _ & E).
        rewrite E in H. clear E.
        destruct (running_in P _ _) as [[|]| | | |];
          try (injection H as _ <-; now apply pools_within_same).
        apply IH in H. eapply pools_within_trans; [|exact H].
        now apply pools_within_same.
      * rewrite (name_loop_from_alt P fuel pn sel w Hbag) in H
          by (rewrite Halt; discriminate).
        apply IH in H. eapply pools_within_trans; [|exact H].
        cbv zeta. split; [intros _; apply incl_refl|].
        cbn [alt_names with_pools with_rng_pos].
        split; [apply erase_incl | apply erase_shorter].
    + rewrite (name_loop_from_bag P fuel pn sel w) in H by (rewrite Hbag; discriminate).
      cbv zeta in H.
      assert (Hstep : forall evs,
                 pools_within w
                   (with_trace evs
                      (with_pools (erase (random_draw P (rng_pos w) mod length (prefixes_bag w))
                                         (prefixes_bag w))
                                  (alt_names w) (with_rng_pos (S (rng_pos w)) w)))).
      { intros evs. split; [|split; [apply incl_refl | apply Nat.le_refl]].
        intros Hin. cbn [prefixes_bag with_trace with_pools].
        eapply incl_tran; [apply erase_incl | exact Hin]. }
      match type of H with
      | return_unless_running P ?pre ?s ?next ?w1 = _ =>
          destruct (return_unless_running_eq P pre s next w1) as (evs & _ & E)
      end.
      rewrite E in H. clear E.
      destruct (running_in P _ _) as [[|]| | | |];
        try (injection H as _ <-; now apply Hstep).
      apply IH in H. eapply pools_within_trans; [|exact H]. apply Hstep.
Qed.

Lemma name_loop_shape (fuel : nat) :
  forall program_name selected_name w name w',
    incl (prefixes_bag w) prefixes ->
    name_loop P fuel program_name selected_name w = (Ok name, w') ->
    exists selected_prefix noun,
      name = format_name selected_prefix noun
      /\ ((prefixes_bag w <> [] \/ alt_names w <> [])
          /\ In selected_prefix prefixes
          /\ (noun = selected_name \/ In noun (alt_names w))
          \/ String.length selected_prefix = 8
             /\ alphanumeric selected_prefix
             /\ noun = program_name).
Proof.
  induction fuel as [|fuel IH]; intros pn sel w name w' Hin H; [discriminate|].
  destruct (prefixes_bag w) as [|b bag] eqn:Hbag.
  - destruct (alt_names w) as [|a alt] eqn:Halt.
    + rewrite (name_loop_fail_safe P fuel pn sel w Hbag Halt) in H.
      destruct (return_unless_running_eq P (random_string_at P 8 (rng_pos w)) pn
                  (name_loop P fuel pn pn) (with_rng_pos (8 + rng_pos w) w))
        as (evs & _ & E).
      rewrite E in H. clear E.
      destruct (running_in P _ _) as [[|]| | | |]; try discriminate.
      * apply IH in H as (p & n & -> & [(Hpools & _)|Hrandom]).
        -- cbn [prefixes_bag alt_names with_trace with_rng_pos] in Hpools.
           rewrite Hbag, Halt in Hpools. now destruct Hpools.
        -- exists p, n. split; [reflexivity | now right].
        -- cbn [prefixes_bag with_trace with_rng_pos]. rewrite Hbag.
           apply incl_nil_l.
      * pose proof (random_string_length P 8 (rng_pos w)) as Hlen.
        pose proof (random_string_alphanumeric P 8 (rng_pos w)) as Hchars.
        remember (random_string_at P 8 (rng_pos w)) as random_prefix.
        injection H as <- _. exists random_prefix, pn. split; [reflexivity|]. right.
        now split.
    + rewrite (name_loop_from_alt P fuel pn sel w Hbag) in H
        by (rewrite Halt; discriminate).
      cbv zeta in H.
      apply IH in H as (p & n & -> & [(_ & Hp & Hn)|Hrandom]).
      * exists p, n. split; [reflexivity|]. left.
        split; [right; discriminate|]. split; [exact Hp|]. right.
        cbn [alt_names with_pools with_rng_pos] in Hn. rewrite Halt in Hn.
        destruct Hn as [->|Hn].
        -- apply drawn_from. discriminate.
        -- exact (erase_incl _ _ _ Hn).
      * exists p, n. split; [reflexivity | now right].
      * cbn [prefixes_bag with_pools with_rng_pos]. apply incl_refl.
  - rewrite (name_loop_from_bag P fuel pn sel w) in H by (rewrite Hbag; discriminate).
    cbv zeta in H.
    match type of H with
    | return_unless_running P ?pre ?s ?next ?w1 = _ =>
        destruct (return_unless_running_eq P pre s next w1) as (evs & _ & E)
    end.
    rewrite E in H. clear E.
    destruct (running_in P _ _) as [[|]| | | |]; try discriminate.
    + apply IH in H as (p & n & -> & [(_ & Hp & Hn)|Hrandom]).
      * exists p, n. split; [reflexivity|]. left.
        split; [left; discriminate|]. split; [exact Hp | exact Hn].
      * exists p, n. split; [reflexivity | now right].
      * cbn [prefixes_bag with_trace with_pools with_rng_pos]. rewrite Hbag.
        eapply incl_tran; [apply erase_incl | exact Hin].
    + injection H as <- _. eexists _, _. split; [reflexivity|]. left.
      split; [left; discriminate|]. split; [|now left].
      apply Hin. rewrite <- Hbag. apply drawn_from. rewrite Hbag. discriminate.
Qed.

End PoolFacts.

(** X7: a name the generator returns is a prefix, an underscore and a
    noun: a prefix of the list with the name of the program or one of
    the alternative names that are left, or, in the fail-safe, eight
    alphanumeric characters with the name of the program.  This from a
    bag that holds prefixes of the list only, as it does from the
    start. *)
Theorem generated_name_is_prefix_and_noun {bytes : Type} (P : platform bytes)
    (fuel : nat) (program_name : string) (w : world bytes) (name : string)
    (w' : world bytes) :
  incl (prefixes_bag w) prefixes ->
  generate_unique_process_name P fuel program_name w = (Ok name, w') ->
  exists selected_prefix noun,
    name = selected_prefix ++ "_" ++ noun
    /\ (In selected_prefix prefixes
        /\ (noun = program_name \/ In noun (alt_names w))
        \/ String.length selected_prefix = 8
           /\ alphanumeric selected_prefix
           /\ noun = program_name).
Proof.
  intros Hin. unfold generate_unique_process_name.
  destruct (program_name =? ""); [discriminate|]. intros H.
  apply name_loop_shape in H as (p & n & -> & [(_ & Hp & Hn)|Hrandom]); [| |exact Hin].
  - exists p, n. split; [reflexivity | left; now split].
  - exists p, n. split; [reflexivity | now right].
Qed.

Lemma generated_name_is_prefix_and_noun_witness :
  exists selected_prefix noun,
    "curious_echo" = selected_prefix ++ "_" ++ noun
    /\ (In selected_prefix prefixes
        /\ (noun = "echo" \/ In noun alt_names_initial)
        \/ String.length selected_prefix = 8
           /\ alphanumeric selected_prefix
           /\ noun = "echo").
Proof.
  apply (generated_name_is_prefix_and_noun (Example.host []) 1 "echo"
           (Example.start (Dir true [])) "curious_echo"
           (snd (generate_unique_process_name (Example.host []) 1 "echo"
                   (Example.start (Dir true []))))).
  - apply incl_refl.
  - vm_compute. reflexivity.
Defined.

(** X8: whatever a call of the generator does, it leaves a bag that holds
    prefixes of the list only when it found one, and alternative names
    that were all there before the call and are not more: a name that
    was taken out does not come back. *)
Theorem generator_keeps_its_pools {bytes : Type} (P : platform bytes)
    (fuel : nat) (program_name : string) (w : world bytes) :
  let w' := snd (generate_unique_process_name P fuel program_name w) in
  (incl (prefixes_bag w) prefixes -> incl (prefixes_bag w') prefixes)
  /\ incl (alt_names w') (alt_names w)
  /\ length (alt_names w') <= length (alt_names w).
Proof.
  cbv zeta. unfold generate_unique_process_name.
  destruct (program_name =? ""); [apply pools_within_refl|].
  destruct (name_loop P fuel program_name program_name w) as [r w'] eqn:E.
  exact (name_loop_pools P fuel _ _ _ _ _ E).
Qed.

(** ** The lock, from the start of a run to its end *)

Section LockFacts.

Context {bytes : Type}.
Implicit Types w : world bytes.

Lemma same_lock_refl w : same_lock w w.
Proof. now split. Qed.

Lemma same_lock_trans w1 w2 w3 : same_lock w1 w2 -> same_lock w2 w3 -> same_lock w1 w3.
Proof. intros [H1 A1] [H2 A2]. split; congruence. Qed.

Lemma same_lock_emit (e : event) : respects same_lock (emit (bytes := bytes) e).
Proof. intros w r w' H. injection H as _ <-. now split. Qed.

Lemma same_lock_log (level : log_level) (msg : string) :
  respects same_lock (log (bytes := bytes) level msg).
Proof. apply same_lock_emit. Qed.

Lemma same_lock_events (evs : list event) w : same_lock w (with_trace evs w).
Proof. now split. Qed.

(** What came back from a scope came back from its body, and the
    destructors returned. *)
Lemma at_scope_exit_came_back {A} (body : M bytes A) (destructors : M bytes unit)
    w (r : result A) w' :
  at_scope_exit body destructors w = (r, w') ->
  came_back r = true ->
  exists w1, body w = (r, w1) /\ destructors w1 = (Ok tt, w').
Proof.
  unfold at_scope_exit. destruct (body w) as [[a|e| | |] w1];
    try (intros H; injection H as <- _; discriminate).
  - unfold bind, noexcept.
    destruct (destructors w1) as [[[]|e| | |] w2] eqn:D; intros H; injection H as <- <-;
      try discriminate.
    eauto.
  - unfold bind, noexcept.
    destruct (destructors w1) as [[[]|e'| | |] w2] eqn:D; intros H; injection H as <- <-;
      try discriminate.
    eauto.
Qed.

End LockFacts.

#[local] Hint Resolve same_lock_refl same_lock_trans same_lock_emit same_lock_log : run.

(** Steps that neither take the lock nor try to. *)
Ltac lock_steps :=
  repeat first
    [ respects_step
    | apply respects_modify; intros ?; split; reflexivity ].

Section LockDiscipline.

Context {bytes : Type}.
Variable P : platform bytes.
Implicit Types w : world bytes.

Lemma same_lock_get_all (filter : option (json -> result bool)) :
  respects same_lock (get_all_running_processes_info P filter).
Proof.
  unfold get_all_running_processes_info. lock_steps.
  intros w r w' H.
  destruct (scan_entries_spec P filter entries JNull w) as (evs & E & _).
  rewrite E in H. injection H as _ <-. apply same_lock_events.
Qed.

Lemma same_lock_is_process_name_running (name : string) :
  respects same_lock (is_process_name_running P name).
Proof.
  intros w r w' H.
  destruct (is_process_name_running_spec P name w) as (evs & E & _).
  rewrite E in H. injection H as _ <-. apply same_lock_events.
Qed.

Hint Resolve same_lock_get_all same_lock_is_process_name_running : run.

Lemma same_lock_random_int (lo hi : nat) : respects same_lock (random_int P lo hi).
Proof. unfold random_int. lock_steps. Qed.

Hint Resolve same_lock_random_int : run.

Lemma same_lock_random_string (len : nat) :
  respects same_lock (generate_random_alphanumeric_string P len).
Proof. induction len; simpl; lock_steps. Qed.

Hint Resolve same_lock_random_string : run.

Lemma same_lock_name_loop (fuel : nat) :
  forall program_name selected_name,
    respects same_lock (name_loop P fuel program_name selected_name).
Proof.
  induction fuel as [|fuel IH]; intros pn sel; simpl; unfold return_unless_running;
    lock_steps.
Qed.

Lemma same_lock_resolve_process_name (fuel : nat) (command : list string)
    (specific_process_name : string) :
  respects same_lock (resolve_process_name P fuel command specific_process_name).
Proof.
  unfold resolve_process_name, generate_unique_process_name. lock_steps.
  apply same_lock_name_loop.
Qed.

Lemma same_lock_collect_env (env_vars : list string) (env_map : list (string * string)) :
  respects same_lock (collect_env P env_vars env_map).
Proof.
  intros w r w' H. rewrite collect_env_spec in H. injection H as _ <-.
  apply same_lock_events.
Qed.

Lemma same_lock_daemonize : respects same_lock (daemonize P).
Proof. unfold daemonize. lock_steps. Qed.

Hint Resolve same_lock_collect_env same_lock_daemonize : run.

Lemma same_lock_prepare_run (command : list string) (cwd : string) (stream_options : Z)
    (clean_env detach : bool) (env_vars : list string) :
  respects same_lock (prepare_run P command cwd stream_options clean_env detach env_vars).
Proof. unfold prepare_run, ensure_proc_dir. lock_steps. Qed.

Lemma same_lock_init (name : string) (command : list string) (lk : bool) :
  respects same_lock (ScopedProcFile_init P name command lk).
Proof. unfold ScopedProcFile_init. lock_steps. Qed.

Lemma same_lock_run_stop_actions (actions : list Reproc.stop_action) :
  forall r, respects same_lock (run_stop_actions P actions r).
Proof. induction actions as [|a rest IH]; intros r; cbn [run_stop_actions]; lock_steps. Qed.

Hint Resolve same_lock_run_stop_actions : run.

Lemma same_lock_launch_and_supervise (wrapped_command : list string)
    (opt : Reproc.options) :
  respects same_lock (launch_and_supervise P wrapped_command opt).
Proof.
  unfold launch_and_supervise, drain, sigterm_handler, proc_stop. lock_steps.
Qed.

(** Taking the lock: a lock that is returned is held when locking is
    enabled and holds nothing otherwise; a failure leaves the lock as
    it was, and throws. *)
Lemma lock_proc_dir_held w (r : result bool) w' :
  lock_proc_dir P w = (r, w') ->
  match r with
  | Ok lockfile =>
      lockfile = use_lockfiles P /\ lock_held w' = (lockfile || lock_held w)
  | Throw _ => lock_held w' = lock_held w
  | _ => False
  end.
Proof.
  unfold lock_proc_dir, LockFile_acquire. cbv zeta.
  destruct (use_lockfiles P).
  - unfold bind at 1 2 3, get, modify. destruct (lock_io_ok P (lock_attempts w)).
    + unfold bind, modify, emit, ret. cbn. intros H. injection H as <- <-. now split.
    + unfold ret. cbn. intros H. injection H as <- <-. reflexivity.
  - unfold bind, ret, log, emit, modify. cbn. intros H. injection H as <- <-. now split.
Qed.

Lemma LockFile_release_held (lockfile : bool) w :
  exists w',
    LockFile_release lockfile w = (Ok tt, w')
    /\ lock_held w' = (if lockfile then false else lock_held w)
    /\ lock_attempts w' = lock_attempts w.
Proof.
  destruct lockfile; unfold LockFile_release, bind, get, modify, emit, ret; cbn;
    eexists; (split; [reflexivity|]); split; reflexivity.
Qed.

(** The constructor leaves with the lock released. *)
Lemma ScopedProcFile_ctor_unlocks (name : string) (command : list string) (lk : bool)
    w (r : result string) w' :
  ScopedProcFile_ctor P name command lk w = (r, w') ->
  came_back r = true ->
  lock_held w = lk ->
  lock_held w' = false /\ lock_attempts w' = lock_attempts w.
Proof.
  unfold ScopedProcFile_ctor. intros H Hr Hlk.
  apply at_scope_exit_came_back in H as (w1 & Hinit & Hrel); [|exact Hr].
  apply same_lock_init in Hinit as [Hh Ha].
  destruct (LockFile_release_held lk w1) as (w2 & E & Hh2 & Ha2).
  rewrite E in Hrel. injection Hrel as <-.
  split; [|congruence]. rewrite Hh2. destruct lk; congruence.
Qed.

(** So does the destructor, which takes the lock for itself. *)
Lemma ScopedProcFile_dtor_unlocks (location : string) w w' :
  ScopedProcFile_dtor P location w = (Ok tt, w') ->
  lock_held w = false ->
  lock_held w' = false.
Proof.
  unfold ScopedProcFile_dtor. unfold bind at 1. intros H Hfree.
  destruct (lock_proc_dir P w) as [[lk2| | | |] w1] eqn:Hlock; try discriminate.
  apply lock_proc_dir_held in Hlock as [_ Hheld].
  apply at_scope_exit_came_back in H as (w2 & Hbody & Hrel); [|reflexivity].
  assert (Hsame : same_lock w1 w2).
  { revert Hbody. match goal with |- ?m w1 = _ -> _ => assert (Hm : respects same_lock m) end.
    { lock_steps. }
    apply Hm. }
  destruct Hsame as [Hh _].
  destruct (LockFile_release_held lk2 w2) as (w3 & E & Hh3 & _).
  rewrite E in Hrel. injection Hrel as <-.
  rewrite Hh3. destruct lk2; [reflexivity|]. rewrite Hh, Hheld, Hfree. reflexivity.
Qed.

Lemma register_and_supervise_unlocks (process_name : string) (raw_command : list string)
    (lk : bool) (wrapped_command : list string) (opt : Reproc.options)
    w (r : result Z) w' :
  register_and_supervise P process_name raw_command lk wrapped_command opt w = (r, w') ->
  came_back r = true ->
  lock_held w = lk ->
  lock_held w' = false.
Proof.
  unfold register_and_supervise. unfold bind at 1, get. intros H Hr Hlk.
  destruct (can_register w).
  - unfold bind at 1 in H.
    destruct (ScopedProcFile_ctor P process_name raw_command lk w)
      as [[location|e| | |] w1] eqn:Hctor;
      try (injection H as <- _; discriminate).
    + apply ScopedProcFile_ctor_unlocks in Hctor as [Hfree _]; [|reflexivity|exact Hlk].
      apply at_scope_exit_came_back in H as (w2 & Hrun & Hdtor); [|exact Hr].
      apply same_lock_launch_and_supervise in Hrun as [Hh _].
      apply ScopedProcFile_dtor_unlocks in Hdtor; [exact Hdtor | congruence].
    + injection H as _ <-.
      now apply ScopedProcFile_ctor_unlocks in Hctor as [Hfree _].
  - apply at_scope_exit_came_back in H as (w1 & Hrun & Hrel); [|exact Hr].
    apply same_lock_launch_and_supervise in Hrun as [Hh _].
    destruct (LockFile_release_held lk w1) as (w2 & E & Hh2 & _).
    rewrite E in Hrel. injection Hrel as <-. rewrite Hh2.
    destruct lk; congruence.
Qed.

End LockDiscipline.

(** X9: when locking is enabled and the lock cannot be taken, a run that
    got through its preparation throws the lock failure of
    [lock_proc_dir], which names the directory and the error: no name
    is resolved, nothing is written or started, and the lock is as it
    was. *)
Theorem lock_failure_aborts_the_run {bytes : Type} (P : platform bytes)
    (fuel : nat) (command : list string) (cwd : string) (stream_options : Z)
    (clean_env detach : bool) (env_vars : list string) (specific_process_name : string)
    (w w1 : world bytes) (prepared : list string * list string * Reproc.options) :
  prepare_run P command cwd stream_options clean_env detach env_vars w
  = (Ok prepared, w1) ->
  use_lockfiles P = true ->
  lock_io_ok P (lock_attempts w1) = false ->
  let run := run_in_environment P fuel command cwd stream_options clean_env detach
               env_vars specific_process_name w in
  fst run
  = Throw (mamba_error ("'mamba run' failed to lock (" ++ proc_dir_path P
                        ++ ") or lockfile was not properly deleted - error: "
                        ++ lock_error P))
  /\ extends silent w (snd run)
  /\ proc (snd run) = proc w1
  /\ lock_held (snd run) = lock_held w1.
Proof.
  intros Hprep Hlocking Hfail run.
  assert (Hrun : run = (Throw (mamba_error
                                 ("'mamba run' failed to lock (" ++ proc_dir_path P
                                  ++ ") or lockfile was not properly deleted - error: "
                                  ++ lock_error P)),
                        with_lock (lock_held w1) (S (lock_attempts w1)) w1)).
  { unfold run, run_in_environment. unfold bind at 1. rewrite Hprep.
    destruct prepared as [[exec_command wrapped_command] opt].
    unfold bind at 1. unfold lock_proc_dir, LockFile_acquire. rewrite Hlocking.
    unfold bind at 1 2 3 4, get, modify. rewrite Hfail. reflexivity. }
  rewrite Hrun. cbn [fst snd]. split; [reflexivity|]. split; [|now split].
  apply (extends_prepare_run P silent (fun _ H => H)) in Hprep.
  destruct Hprep as (evs & Ht & F). now exists evs.
Qed.

Lemma lock_failure_aborts_the_run_witness :
  let H := host_where true (fun _ => false) true (Some 4242) true true (Example.host []) in
  let w := Example.start (Dir true []) in
  let run := run_in_environment H 1 ["echo"; "hi"] "" 0 false false [] "" w in
  fst run
  = Throw (mamba_error ("'mamba run' failed to lock (/home/user/.mamba/proc"
                        ++ ") or lockfile was not properly deleted - error: "
                        ++ "cannot lock"))
  /\ extends silent w (snd run)
  /\ proc (snd run) = Dir true []
  /\ lock_held (snd run) = false.
Proof.
  intros H w run.
  exact (lock_failure_aborts_the_run H 1 ["echo"; "hi"] "" 0 false false [] "" w
           (snd (prepare_run H ["echo"; "hi"] "" 0 false false [] w))
           (["exec"; "echo"; "hi"],
            ["/bin/bash"; "/tmp/mamba_wrap.sh"; "exec"; "echo"; "hi"],
            start_options H "" 0 false [])
           ltac:(vm_compute; reflexivity) eq_refl eq_refl).
Defined.

(** X10: a run that comes back to its caller, by returning or by throwing,
    has released the lock, whichever way it went: the lock is not
    held then, when it was not held at the start. *)
Theorem lock_is_released_when_the_run_comes_back {bytes : Type} (P : platform bytes)
    (fuel : nat) (command : list string) (cwd : string) (stream_options : Z)
    (clean_env detach : bool) (env_vars : list string) (specific_process_name : string)
    (w : world bytes) :
  lock_held w = false ->
  let run := run_in_environment P fuel command cwd stream_options clean_env detach
               env_vars specific_process_name w in
  came_back (fst run) = true ->
  lock_held (snd run) = false.
Proof.
  intros Hfree run.
  assert (Hrun : forall r w', run = (r, w') -> came_back r = true -> lock_held w' = false).
  2:{ destruct run as [r w'] eqn:E. cbn [fst snd]. now apply (Hrun r w'). }
  intros r w' H Hr. unfold run, run_in_environment in H. unfold bind at 1 in H.
  destruct (prepare_run P command cwd stream_options clean_env detach env_vars w)
    as [r1 w1] eqn:Hprep.
  apply same_lock_prepare_run in Hprep as [Hh1 _].
  destruct r1 as [[[exec_command wrapped_command] opt]| | | |];
    try (injection H as <- <-; congruence).
  unfold bind at 1 in H.
  destruct (lock_proc_dir P w1) as [r2 w2] eqn:Hlock.
  apply lock_proc_dir_held in Hlock.
  destruct r2 as [lk|e| | |]; try contradiction; [|injection H as <- <-; congruence].
  destruct Hlock as [_ Hh2]. rewrite Hh1, Hfree, orb_false_r in Hh2.
  unfold bind at 1, at_scope_exit_on_throw in H.
  destruct (resolve_process_name P fuel exec_command specific_process_name w2)
    as [r3 w3] eqn:Hname.
  apply same_lock_resolve_process_name in Hname as [Hh3 _].
  destruct r3 as [[process_name named_command]|e| | |];
    try (injection H as <- _; discriminate).
  - eapply register_and_supervise_unlocks; [exact H | exact Hr | congruence].
  - unfold bind, noexcept, throw in H.
    destruct (LockFile_release_held lk w3) as (w4 & E & Hh4 & _). rewrite E in H.
    injection H as _ <-. rewrite Hh4. destruct lk; congruence.
Qed.

Lemma lock_is_released_when_the_run_comes_back_witness :
  lock_held (snd (run_in_environment (Example.host []) 1 ["echo"; "hi"] "" 0 false false
                    [] "" (Example.start (Dir false [])))) = false.
Proof.
  apply (lock_is_released_when_the_run_comes_back (Example.host []) 1 ["echo"; "hi"] ""
           0 false false [] "" (Example.start (Dir false []))).
  - reflexivity.
  - vm_compute. reflexivity.
Defined.

(** ** The record, from the registration to the end of the run *)

Section RegistrationSteps.

Context {bytes : Type}.
Variable P : platform bytes.
Implicit Types w : world bytes.

(** A run whose preparation, locking and name resolution return goes
    on with the registration. *)
Lemma run_reaches_registration (fuel : nat) (command : list string) (cwd : string)
    (stream_options : Z) (clean_env detach : bool) (env_vars : list string)
    (specific_process_name : string) w w1 w2 w3
    (exec_command wrapped_command named_command : list string) (opt : Reproc.options)
    (proc_dir_lock : bool) (process_name : string) :
  prepare_run P command cwd stream_options clean_env detach env_vars w
  = (Ok (exec_command, wrapped_command, opt), w1) ->
  lock_proc_dir P w1 = (Ok proc_dir_lock, w2) ->
  resolve_process_name P fuel exec_command specific_process_name w2
  = (Ok (process_name, named_command), w3) ->
  run_in_environment P fuel command cwd stream_options clean_env detach env_vars
    specific_process_name w
  = register_and_supervise P process_name command proc_dir_lock wrapped_command opt w3.
Proof.
  intros Hprep Hlock Hname. unfold run_in_environment. unfold bind at 1. rewrite Hprep.
  unfold bind at 1. rewrite Hlock.
  unfold bind at 1, at_scope_exit_on_throw. now rewrite Hname.
Qed.

Lemma remove_written (name : string) (c : bytes) (entries : list (file bytes)) :
  remove_file name (write_file name c entries) = remove_file name entries.
Proof.
  induction entries as [|f rest IH]; cbn [write_file remove_file].
  - cbn [fname]. now rewrite String.eqb_refl.
  - destruct (fname f =? name) eqn:E; cbn [remove_file fname].
    + now rewrite String.eqb_refl.
    + now rewrite E, IH.
Qed.

Lemma remove_absent (name : string) (entries : list (file bytes)) :
  find_file name entries = None -> remove_file name entries = entries.
Proof.
  induction entries as [|f rest IH]; cbn [find_file remove_file]; [reflexivity|].
  destruct (fname f =? name); [discriminate|]. intros H. now rewrite IH.
Qed.

Lemma lock_proc_dir_fails w :
  use_lockfiles P = true ->
  lock_io_ok P (lock_attempts w) = false ->
  lock_proc_dir P w
  = (Throw (mamba_error ("'mamba run' failed to lock (" ++ proc_dir_path P
                         ++ ") or lockfile was not properly deleted - error: "
                         ++ lock_error P)),
     with_lock (lock_held w) (S (lock_attempts w)) w).
Proof.
  intros Hlocking Hfail. unfold lock_proc_dir, LockFile_acquire. rewrite Hlocking.
  unfold bind at 1 2 3, get, modify. now rewrite Hfail.
Qed.

(** The constructor on a file it cannot open. *)
Lemma ScopedProcFile_ctor_fails (name : string) (command : list string) (lk : bool) w :
  can_open_for_writing (pid_file_name (self_pid w)) (proc w) = false ->
  lk = use_lockfiles P ->
  ScopedProcFile_ctor P name command lk w
  = (Throw (runtime_error ("'mamba run' failed to open/create file: "
                           ++ Path.join (proc_dir_path P) (pid_file_name (self_pid w)))),
     snd (LockFile_release lk w)).
Proof.
  intros Hopen ->.
  assert (Hinit : ScopedProcFile_init P name command (use_lockfiles P) w
                  = (Throw (runtime_error
                              ("'mamba run' failed to open/create file: "
                               ++ Path.join (proc_dir_path P)
                                            (pid_file_name (self_pid w)))), w)).
  { rewrite ScopedProcFile_init_cases. cbv zeta. rewrite andb_negb_r, Hopen.
    now destruct (proc w). }
  unfold ScopedProcFile_ctor, at_scope_exit. rewrite Hinit.
  destruct (LockFile_release_held (use_lockfiles P) w) as (w2 & E & _).
  unfold throw, bind, noexcept. now rewrite E.
Qed.

(** The destructor when the lock cannot be taken. *)
Lemma ScopedProcFile_dtor_fails (location : string) w :
  use_lockfiles P = true ->
  lock_io_ok P (lock_attempts w) = false ->
  exists e,
    ScopedProcFile_dtor P location w
    = (Throw e, with_lock (lock_held w) (S (lock_attempts w)) w).
Proof.
  intros Hlocking Hfail. unfold ScopedProcFile_dtor. unfold bind at 1.
  rewrite (lock_proc_dir_fails w Hlocking Hfail). eauto.
Qed.

(** A registration that writes the record and returns has removed
    it. *)
Lemma tracked_registration_returns (process_name : string) (raw_command : list string)
    (lk : bool) (wrapped_command : list string) (opt : Reproc.options)
    w (status : Z) w' :
  can_register w = true ->
  register_and_supervise P process_name raw_command lk wrapped_command opt w
  = (Ok status, w') ->
  exists entries,
    proc w = Dir true entries
    /\ proc w' = Dir true (remove_file (pid_file_name (self_pid w)) entries).
Proof.
  intros Hcan H. unfold register_and_supervise in H. unfold bind at 1, get in H.
  rewrite Hcan in H. unfold bind at 1 in H.
  destruct (ScopedProcFile_ctor P process_name raw_command lk w)
    as [[location| | | |] w1] eqn:Hctor; try discriminate.
  apply ScopedProcFile_ctor_returns in Hctor
    as (-> & _ & writable & entries & Hdir & Hwritten).
  unfold can_register in Hcan. rewrite Hdir in Hcan. subst writable.
  exists entries. split; [exact Hdir|].
  apply at_scope_exit_came_back in H as (w2 & Hrun & Hdtor); [|reflexivity].
  apply launch_starts_the_child in Hrun as (Hp2 & _).
  unfold ScopedProcFile_dtor in Hdtor. unfold bind at 1 in Hdtor.
  destruct (lock_proc_dir P w2) as [[lk2| | | |] w3] eqn:Hlock; try discriminate.
  apply (stable_lock_proc_dir P silent (fun _ H => H)) in Hlock as (_ & Hp3 & _).
  apply at_scope_exit_came_back in Hdtor as (w4 & Hbody & Hrel); [|reflexivity].
  apply LockFile_release_proc in Hrel as (_ & Hp5 & _).
  unfold bind at 1, get in Hbody. rewrite Hp3, Hp2, Hwritten in Hbody.
  destruct (find_written (self_pid w) (dump P (stored_record P process_name raw_command))
              entries) as (f & Hfind & _).
  rewrite Hfind in Hbody. unfold bind, modify, emit in Hbody.
  injection Hbody as <-. rewrite Hp5. cbn [proc with_trace with_proc].
  now rewrite remove_written.
Qed.

End RegistrationSteps.

(** X11: when the directory takes records and the file of the supervisor
    cannot be opened for writing, a file of that name being there
    already, the run throws the error of the constructor, which names
    the file: the directory is left as it is, the lock is released and
    the child is not started. *)
Theorem unwritable_record_file_aborts_the_run {bytes : Type} (P : platform bytes)
    (fuel : nat) (command : list string) (cwd : string) (stream_options : Z)
    (clean_env detach : bool) (env_vars : list string) (specific_process_name : string)
    (w w1 w2 w3 : world bytes) (exec_command wrapped_command named_command : list string)
    (opt : Reproc.options) (proc_dir_lock : bool) (process_name : string) :
  prepare_run P command cwd stream_options clean_env detach env_vars w
  = (Ok (exec_command, wrapped_command, opt), w1) ->
  lock_proc_dir P w1 = (Ok proc_dir_lock, w2) ->
  resolve_process_name P fuel exec_command specific_process_name w2
  = (Ok (process_name, named_command), w3) ->
  can_register w3 = true ->
  can_open_for_writing (pid_file_name (self_pid w3)) (proc w3) = false ->
  let run := run_in_environment P fuel command cwd stream_options clean_env detach
               env_vars specific_process_name w in
  fst run
  = Throw (runtime_error ("'mamba run' failed to open/create file: "
                          ++ Path.join (proc_dir_path P) (pid_file_name (self_pid w3))))
  /\ proc (snd run) = proc w3
  /\ trace (snd run)
     = (trace w3 ++ (if proc_dir_lock then [EvLockReleased] else []))%list.
Proof.
  intros Hprep Hlock Hname Hcan Hopen run. unfold run.
  rewrite (run_reaches_registration P _ _ _ _ _ _ _ _ _ _ _ _ _ _ _ _ _ _
             Hprep Hlock Hname).
  apply lock_proc_dir_held in Hlock as [Hlk _].
  assert (Hreg : register_and_supervise P process_name command proc_dir_lock
                   wrapped_command opt w3
                 = (Throw (runtime_error
                             ("'mamba run' failed to open/create file: "
                              ++ Path.join (proc_dir_path P)
                                           (pid_file_name (self_pid w3)))),
                    snd (LockFile_release proc_dir_lock w3))).
  { unfold register_and_supervise. unfold bind at 1, get. rewrite Hcan.
    unfold bind at 1.
    now rewrite (ScopedProcFile_ctor_fails P process_name command proc_dir_lock w3
                   Hopen Hlk). }
  rewrite Hreg. cbn [fst snd]. split; [reflexivity|].
  destruct proc_dir_lock; unfold LockFile_release, bind, get, modify, emit, ret;
    cbn [fst snd proc trace with_trace with_lock]; split; try reflexivity.
  now rewrite List.app_nil_r.
Qed.

Lemma unwritable_record_file_aborts_the_run_witness :
  let H := Example.host [] in
  let w := Example.start (Dir true [ Example.unreadable_file 100 ]) in
  let run := run_in_environment H 1 ["echo"; "hi"] "" 0 false false [] "my_echo" w in
  fst run
  = Throw (runtime_error ("'mamba run' failed to open/create file: "
                          ++ "/home/user/.mamba/proc/100.json"))
  /\ proc (snd run) = Dir true [ Example.unreadable_file 100 ]
  /\ List.filter is_spawn (trace (snd run)) = [].
Proof.
  intros H w run.
  pose (w1 := snd (prepare_run H ["echo"; "hi"] "" 0 false false [] w)).
  pose (w2 := snd (lock_proc_dir H w1)).
  pose (w3 := snd (resolve_process_name H 1 ["exec"; "echo"; "hi"] "my_echo" w2)).
  destruct (unwritable_record_file_aborts_the_run H 1 ["echo"; "hi"] "" 0 false false []
              "my_echo" w w1 w2 w3 ["exec"; "echo"; "hi"]
              ["/bin/bash"; "/tmp/mamba_wrap.sh"; "exec"; "echo"; "hi"]
              ["exec"; "-a"; "my_echo"; "echo"; "hi"]
              (start_options H "" 0 false []) true "my_echo"
              ltac:(vm_compute; reflexivity) ltac:(vm_compute; reflexivity)
              ltac:(vm_compute; reflexivity) ltac:(vm_compute; reflexivity)
              ltac:(vm_compute; reflexivity))
    as (Hthrow & Hproc & Htrace).
  split; [exact Hthrow|]. split; [exact Hproc|].
  change (trace (snd run) = (trace w3 ++ [EvLockReleased])%list) in Htrace.
  rewrite Htrace. vm_compute. reflexivity.
Defined.

(** X12: a run that writes its record and returns has removed it: the
    directory holds what it held at the registration, less the file
    named after the supervisor; it is as it was at the registration
    when no file of that name was there. *)
Theorem tracked_run_removes_its_record {bytes : Type} (P : platform bytes)
    (fuel : nat) (command : list string) (cwd : string) (stream_options : Z)
    (clean_env detach : bool) (env_vars : list string) (specific_process_name : string)
    (w w1 w2 w3 : world bytes) (exec_command wrapped_command named_command : list string)
    (opt : Reproc.options) (proc_dir_lock : bool) (process_name : string) (status : Z) :
  prepare_run P command cwd stream_options clean_env detach env_vars w
  = (Ok (exec_command, wrapped_command, opt), w1) ->
  lock_proc_dir P w1 = (Ok proc_dir_lock, w2) ->
  resolve_process_name P fuel exec_command specific_process_name w2
  = (Ok (process_name, named_command), w3) ->
  can_register w3 = true ->
  let run := run_in_environment P fuel command cwd stream_options clean_env detach
               env_vars specific_process_name w in
  fst run = Ok status ->
  exists entries,
    proc w3 = Dir true entries
    /\ proc (snd run) = Dir true (remove_file (pid_file_name (self_pid w3)) entries)
    /\ (find_file (pid_file_name (self_pid w3)) entries = None ->
        proc (snd run) = proc w3).
Proof.
  intros Hprep Hlock Hname Hcan run. unfold run.
  rewrite (run_reaches_registration P _ _ _ _ _ _ _ _ _ _ _ _ _ _ _ _ _ _
             Hprep Hlock Hname).
  destruct (register_and_supervise P process_name command proc_dir_lock wrapped_command
              opt w3) as [r w'] eqn:Hreg.
  cbn [fst snd]. intros ->.
  destruct (tracked_registration_returns P _ _ _ _ _ _ _ _ Hcan Hreg)
    as (entries & Hdir & Hafter).
  exists entries. split; [exact Hdir|]. split; [exact Hafter|].
  intros Hnone. now rewrite Hafter, Hdir, remove_absent.
Qed.

Lemma tracked_run_removes_its_record_witness :
  let H := Example.host [] in
  let d := Dir true [ Example.record_file 8 "curious_sleep" ] in
  let run := run_in_environment H 1 ["echo"; "hi"] "" 0 false false [] "my_echo"
               (Example.start d) in
  proc (snd run) = d.
Proof.
  intros H d run.
  pose (w := Example.start d).
  pose (w1 := snd (prepare_run H ["echo"; "hi"] "" 0 false false [] w)).
  pose (w2 := snd (lock_proc_dir H w1)).
  pose (w3 := snd (resolve_process_name H 1 ["exec"; "echo"; "hi"] "my_echo" w2)).
  destruct (tracked_run_removes_its_record H 1 ["echo"; "hi"] "" 0 false false []
              "my_echo" w w1 w2 w3 ["exec"; "echo"; "hi"]
              ["/bin/bash"; "/tmp/mamba_wrap.sh"; "exec"; "echo"; "hi"]
              ["exec"; "-a"; "my_echo"; "echo"; "hi"]
              (start_options H "" 0 false []) true "my_echo" 0%Z
              ltac:(vm_compute; reflexivity) ltac:(vm_compute; reflexivity)
              ltac:(vm_compute; reflexivity) ltac:(vm_compute; reflexivity)
              ltac:(vm_compute; reflexivity))
    as (entries & Hdir & _ & Hsame).
  assert (Hd : proc w3 = d) by (vm_compute; reflexivity).
  transitivity (proc w3); [|exact Hd].
  apply Hsame.
  assert (E : entries = [ Example.record_file 8 "curious_sleep" ]).
  { rewrite Hd in Hdir. now injection Hdir as <-. }
  rewrite E. vm_compute. reflexivity.
Defined.

(** X13: when the lock cannot be taken again at the end of a run whose
    constructor of the record returned, the exception of
    [lock_proc_dir] leaves the destructor of the record: the process
    is terminated, and the record stays in the directory. *)
Theorem record_stays_when_the_last_lock_fails {bytes : Type} (P : platform bytes)
    (fuel : nat) (command : list string) (cwd : string) (stream_options : Z)
    (clean_env detach : bool) (env_vars : list string) (specific_process_name : string)
    (w w1 w2 w3 w4 : world bytes)
    (exec_command wrapped_command named_command : list string)
    (opt : Reproc.options) (proc_dir_lock : bool) (process_name location : string) :
  prepare_run P command cwd stream_options clean_env detach env_vars w
  = (Ok (exec_command, wrapped_command, opt), w1) ->
  lock_proc_dir P w1 = (Ok proc_dir_lock, w2) ->
  resolve_process_name P fuel exec_command specific_process_name w2
  = (Ok (process_name, named_command), w3) ->
  can_register w3 = true ->
  ScopedProcFile_ctor P process_name command proc_dir_lock w3 = (Ok location, w4) ->
  use_lockfiles P = true ->
  lock_io_ok P (lock_attempts w3) = false ->
  let run := run_in_environment P fuel command cwd stream_options clean_env detach
               env_vars specific_process_name w in
  fst run = Terminate
  /\ exists f,
       find_file (pid_file_name (self_pid w3)) (dir_entries (proc (snd run))) = Some f
       /\ content f = dump P (stored_record P process_name command).
Proof.
  intros Hprep Hlock Hname Hcan Hctor Hlocking Hfail run. unfold run.
  rewrite (run_reaches_registration P _ _ _ _ _ _ _ _ _ _ _ _ _ _ _ _ _ _
             Hprep Hlock Hname).
  assert (Ha4 : lock_attempts w4 = lock_attempts w3).
  { pose proof Hctor as Hc. unfold ScopedProcFile_ctor in Hc.
    apply at_scope_exit_came_back in Hc as (w' & Hinit & Hrel); [|reflexivity].
    apply same_lock_init in Hinit as [_ Ha].
    destruct (LockFile_release_held proc_dir_lock w') as (w'' & E & _ & Ha2).
    rewrite E in Hrel. injection Hrel as <-. congruence. }
  pose proof (ScopedProcFile_ctor_returns P _ _ _ _ _ _ Hctor)
    as (-> & _ & writable & entries & Hdir & Hp4).
  destruct (returns_launch_and_supervise P wrapped_command opt w4) as (status & w5 & Hrun).
  pose proof (launch_starts_the_child P _ _ _ _ _ Hrun) as (Hp5 & _).
  pose proof (same_lock_launch_and_supervise P _ _ _ _ _ Hrun) as [_ Ha5].
  destruct (ScopedProcFile_dtor_fails P (pid_file_name (self_pid w3)) w5 Hlocking
              ltac:(now rewrite Ha5, Ha4)) as (e & Hdtor).
  assert (Hreg : register_and_supervise P process_name command proc_dir_lock
                   wrapped_command opt w3
                 = (Terminate, with_lock (lock_held w5) (S (lock_attempts w5)) w5)).
  { unfold register_and_supervise. unfold bind at 1, get. rewrite Hcan.
    unfold bind at 1. rewrite Hctor. unfold at_scope_exit. rewrite Hrun.
    unfold bind, noexcept. now rewrite Hdtor. }
  rewrite Hreg. cbn [fst snd]. split; [reflexivity|].
  cbn [proc with_lock]. rewrite Hp5, Hp4. cbn [dir_entries].
  apply find_written.
Qed.

Lemma record_stays_when_the_last_lock_fails_witness :
  let H := host_where true (fun n => Nat.eqb n 0) true (Some 4242) true true
             (Example.host []) in
  let run := run_in_environment H 1 ["echo"; "hi"] "" 0 false false [] "my_echo"
               (Example.start (Dir true [])) in
  fst run = Terminate
  /\ exists f,
       find_file "100.json" (dir_entries (proc (snd run))) = Some f
       /\ content f
          = Example.json_text
              (JObject [ ("command", JArray [JString "echo"; JString "hi"]);
                         ("name", JString "my_echo");
                         ("prefix", JString "/opt/env") ]).
Proof.
  intros H run.
  pose (w := Example.start (Dir true [])).
  pose (w1 := snd (prepare_run H ["echo"; "hi"] "" 0 false false [] w)).
  pose (w2 := snd (lock_proc_dir H w1)).
  pose (w3 := snd (resolve_process_name H 1 ["exec"; "echo"; "hi"] "my_echo" w2)).
  pose (w4 := snd (ScopedProcFile_ctor H "my_echo" ["echo"; "hi"] true w3)).
  exact (record_stays_when_the_last_lock_fails H 1 ["echo"; "hi"] "" 0 false false []
           "my_echo" w w1 w2 w3 w4 ["exec"; "echo"; "hi"]
           ["/bin/bash"; "/tmp/mamba_wrap.sh"; "exec"; "echo"; "hi"]
           ["exec"; "-a"; "my_echo"; "echo"; "hi"]
           (start_options H "" 0 false []) true "my_echo" "100.json"
           ltac:(vm_compute; reflexivity) ltac:(vm_compute; reflexivity)
           ltac:(vm_compute; reflexivity) ltac:(vm_compute; reflexivity)
           ltac:(vm_compute; reflexivity) eq_refl ltac:(vm_compute; reflexivity)).
Defined.

(** ** What a run starts *)

Section QuietChild.

Context {bytes : Type}.
Variable P : platform bytes.
Variable Q : event -> Prop.
Hypothesis silent_in_Q : forall e, silent e -> Q e.
Implicit Types w : world bytes.

Lemma quiet_emit (e : event) :
  is_record_written e = false -> is_spawn e = false ->
  respects (stable Q) (emit (bytes := bytes) e).
Proof. intros H1 H2. apply stable_emit. apply silent_in_Q. now split. Qed.

Lemma quiet_run_stop_actions (actions : list Reproc.stop_action) :
  forall r, respects (stable Q) (run_stop_actions P actions r).
Proof.
  induction actions as [|a rest IH]; intros r; cbn [run_stop_actions]; stable_steps;
    now apply quiet_emit.
Qed.

Hint Resolve quiet_run_stop_actions : run.

Lemma quiet_proc_stop (actions : Reproc.stop_actions) :
  respects (stable Q) (proc_stop P actions).
Proof. unfold proc_stop. stable_steps. now apply quiet_emit. Qed.

Hint Resolve quiet_proc_stop : run.

Lemma quiet_supervision (opt : Reproc.options) :
  respects (stable Q)
    (if negb (child_starts P)
     then emit (EvStderr (error_message P (start_error P))) ;;; ret 1%Z
     else
       emit EvHandlerInstalled ;;;
       drain P ;;;
       status <- proc_stop P (Reproc.stop_policy opt) ;;
       (if (status <? 0)%Z then emit (EvStderr (error_message P status)) else ret tt) ;;;
       ret status).
Proof.
  unfold drain, sigterm_handler, log. stable_steps; now apply quiet_emit.
Qed.

End QuietChild.

Section SpawnFacts.

Context {bytes : Type}.
Variable P : platform bytes.
Implicit Types w : world bytes.

(** The child is started first; what follows starts none, writes no
    record and leaves the directory as it is. *)
Lemma launch_spawns_once (wrapped_command : list string) (opt : Reproc.options)
    w (r : result Z) w' :
  launch_and_supervise P wrapped_command opt w = (r, w') ->
  exists evs,
    trace w' = (trace w ++ EvSpawn wrapped_command opt :: evs)%list
    /\ Forall silent evs.
Proof.
  unfold launch_and_supervise. unfold bind at 1, emit at 1, modify at 1. cbv zeta.
  intros H. apply (quiet_supervision P silent (fun _ H => H)) in H as ((evs & Ht & F) & _).
  cbn [trace with_trace] in Ht. exists evs. split; [|exact F].
  rewrite Ht. now rewrite <- List.app_assoc.
Qed.

Lemma silent_spawns_none (evs : list event) :
  Forall silent evs -> List.filter is_spawn evs = [].
Proof.
  induction 1 as [|e evs [_ He] _ IH]; cbn [List.filter]; [reflexivity|].
  now rewrite He.
Qed.

Lemma spawns_of_extension (Q : event -> Prop) w w' :
  (forall e, Q e -> is_spawn e = false) ->
  extends Q w w' ->
  List.filter is_spawn (trace w') = List.filter is_spawn (trace w).
Proof.
  intros HQ (evs & -> & F). rewrite List.filter_app.
  assert (E : List.filter is_spawn evs = []).
  { induction F as [|e evs He _ IH]; cbn [List.filter]; [reflexivity|].
    now rewrite (HQ e He). }
  now rewrite E, List.app_nil_r.
Qed.

Lemma silent_is_unspawned (e : event) : silent e -> is_spawn e = false.
Proof. now intros [_ H]. Qed.

(** The constructor starts nothing. *)
Lemma ScopedProcFile_ctor_spawns_none (name : string) (command : list string) (lk : bool) :
  respects (extends (fun e => is_spawn e = false)) (ScopedProcFile_ctor P name command lk).
Proof.
  unfold ScopedProcFile_ctor, ScopedProcFile_init, LockFile_release.
  repeat first
    [ apply respects_extends_emit; reflexivity
    | respects_step
    | apply respects_modify; intros ?; apply extends_same_trace; reflexivity ].
Qed.

(** A run that returned went through the registration. *)
Lemma run_returned (fuel : nat) (command : list string) (cwd : string)
    (stream_options : Z) (clean_env detach : bool) (env_vars : list string)
    (specific_process_name : string) w (status : Z) w' :
  run_in_environment P fuel command cwd stream_options clean_env detach env_vars
    specific_process_name w = (Ok status, w') ->
  exists w1 w2 w3 exec_command wrapped_command named_command opt proc_dir_lock process_name,
    prepare_run P command cwd stream_options clean_env detach env_vars w
    = (Ok (exec_command, wrapped_command, opt), w1)
    /\ lock_proc_dir P w1 = (Ok proc_dir_lock, w2)
    /\ resolve_process_name P fuel exec_command specific_process_name w2
       = (Ok (process_name, named_command), w3)
    /\ register_and_supervise P process_name command proc_dir_lock wrapped_command opt w3
       = (Ok status, w').
Proof.
  unfold run_in_environment. intros H. unfold bind at 1 in H.
  destruct (prepare_run P command cwd stream_options clean_env detach env_vars w)
    as [[[[exec_command wrapped_command] opt]| | | |] w1] eqn:Hprep; try discriminate.
  unfold bind at 1 in H.
  destruct (lock_proc_dir P w1) as [[lk| | | |] w2] eqn:Hlock; try discriminate.
  unfold bind at 1, at_scope_exit_on_throw in H.
  destruct (resolve_process_name P fuel exec_command specific_process_name w2)
    as [[[process_name named_command]|e| | |] w3] eqn:Hname; try discriminate.
  - exists w1, w2, w3, exec_command, wrapped_command, named_command, opt, lk, process_name.
    auto.
  - unfold bind, noexcept, throw in H.
    destruct (LockFile_release lk w3) as [[[]| | | |] ?]; discriminate.
Qed.

(** What the preparation returns. *)
Lemma prepare_run_prepared (command : list string) (cwd : string) (stream_options : Z)
    (clean_env detach : bool) (env_vars : list string) w
    (prepared : list string * list string * Reproc.options) w1 :
  prepare_run P command cwd stream_options clean_env detach env_vars w = (Ok prepared, w1) ->
  prepared
  = (exec_command command,
     fst (prepare_wrapped_call P (target_prefix P) (exec_command command)),
     start_options P cwd stream_options clean_env (collected_env P env_vars [])).
Proof.
  unfold prepare_run. intros H.
  bind_returned H E1. bind_returned H E2.
  unfold bind at 1, emit at 1, modify at 1 in H.
  unfold bind at 1, log at 1, emit at 1, modify at 1 in H.
  destruct command as [|front rest]; [discriminate|].
  unfold bind at 1, ret at 1 in H. cbn [exec_command].
  destruct (prepare_wrapped_call P (target_prefix P) _) as [wrapped script].
  unfold bind at 1, log at 1, emit at 1, modify at 1 in H.
  unfold bind at 1 in H. rewrite collect_env_spec in H.
  bind_returned H E3. injection H as <- _. reflexivity.
Qed.

Lemma registration_spawns_once (process_name : string) (raw_command : list string)
    (lk : bool) (wrapped_command : list string) (opt : Reproc.options)
    w (status : Z) w' :
  register_and_supervise P process_name raw_command lk wrapped_command opt w
  = (Ok status, w') ->
  List.filter is_spawn (trace w')
  = (List.filter is_spawn (trace w) ++ [EvSpawn wrapped_command opt])%list.
Proof.
  unfold register_and_supervise. unfold bind at 1, get. intros H.
  assert (Hrun : forall w1 w2 d,
             at_scope_exit (launch_and_supervise P wrapped_command opt) d w1 = (Ok status, w2) ->
             respects (extends silent) d ->
             List.filter is_spawn (trace w2)
             = (List.filter is_spawn (trace w1) ++ [EvSpawn wrapped_command opt])%list).
  { intros w1 w2 d Hs Hd.
    apply at_scope_exit_came_back in Hs as (w3 & Hl & Hx); [|reflexivity].
    apply launch_spawns_once in Hl as (evs & Ht & F).
    apply Hd in Hx.
    rewrite (spawns_of_extension silent w3 w2 silent_is_unspawned Hx), Ht.
    rewrite List.filter_app. cbn [List.filter is_spawn].
    now rewrite (silent_spawns_none evs F). }
  destruct (can_register w).
  - unfold bind at 1 in H.
    destruct (ScopedProcFile_ctor P process_name raw_command lk w)
      as [[location| | | |] w1] eqn:Hctor; try discriminate.
    apply ScopedProcFile_ctor_spawns_none in Hctor.
    rewrite (Hrun w1 w' _ H (extends_ScopedProcFile_dtor P silent (fun _ H => H) location)).
    now rewrite (spawns_of_extension _ w w1 (fun _ H => H) Hctor).
  - apply (Hrun w w' _ H).
    apply extends_of_stable. apply stable_LockFile_release. exact (fun _ H => H).
Qed.

End SpawnFacts.

(** X14: a run that returns has started one child, and one only: the
    wrapped call of the command of the caller with [exec] in front,
    with the start options made of the arguments.  The name of the
    process, which is resolved afterwards, is no part of it. *)
Theorem child_is_started_once_as_prepared {bytes : Type} (P : platform bytes)
    (fuel : nat) (command : list string) (cwd : string) (stream_options : Z)
    (clean_env detach : bool) (env_vars : list string) (specific_process_name : string)
    (w : world bytes) (status : Z) :
  let run := run_in_environment P fuel command cwd stream_options clean_env detach
               env_vars specific_process_name w in
  fst run = Ok status ->
  List.filter is_spawn (trace (snd run))
  = (List.filter is_spawn (trace w)
     ++ [ EvSpawn (fst (prepare_wrapped_call P (target_prefix P) (exec_command command)))
                  (start_options P cwd stream_options clean_env
                     (collected_env P env_vars [])) ])%list.
Proof.
  intros run. destruct run as [r w'] eqn:Hrun. cbn [fst snd]. intros ->.
  apply run_returned in Hrun
    as (w1 & w2 & w3 & ec & wc & nc & opt & lk & pn & Hprep & Hlock & Hname & Hreg).
  pose proof (prepare_run_prepared P _ _ _ _ _ _ _ _ _ Hprep) as E.
  injection E as -> -> ->.
  apply (extends_prepare_run P silent (fun _ H => H)) in Hprep.
  apply (stable_lock_proc_dir P silent (fun _ H => H)) in Hlock as [Hlock _].
  apply (stable_resolve_process_name P silent (fun _ H => H)) in Hname as [Hname _].
  rewrite (registration_spawns_once P _ _ _ _ _ _ _ _ Hreg).
  f_equal.
  apply (spawns_of_extension silent); [apply silent_is_unspawned|].
  eauto using extends_trans.
Qed.

Lemma child_is_started_once_as_prepared_witness :
  let run := run_in_environment (Example.host []) 1 ["echo"; "hi"] "" 0 false false
               ["FOO=bar"] "" (Example.start (Dir true [])) in
  List.filter is_spawn (trace (snd run))
  = [ EvSpawn ["/bin/bash"; "/tmp/mamba_wrap.sh"; "exec"; "echo"; "hi"]
              (start_options (Example.host []) "" 0 false [("FOO", "bar")]) ].
Proof.
  intros run.
  exact (child_is_started_once_as_prepared (Example.host []) 1 ["echo"; "hi"] "" 0
           false false ["FOO=bar"] "" (Example.start (Dir true [])) 0%Z
           ltac:(vm_compute; reflexivity)).
Defined.

(** ** What a run does to the child, and when *)

(** Steps that do nothing to the child. *)
Ltac apart_steps :=
  repeat first
    [ apply respects_extends_emit; reflexivity
    | respects_step
    | apply respects_modify; intros ?; apply extends_same_trace; reflexivity ].

Section ApartFromTheChild.

Context {bytes : Type}.
Variable P : platform bytes.
Implicit Types w : world bytes.

Lemma warnings_are_apart (evs : list event) : Forall is_warning evs -> Forall apart evs.
Proof.
  apply Forall_impl. intros e H. destruct e; try contradiction. reflexivity.
Qed.

Lemma apart_events (evs : list event) w :
  Forall apart evs -> extends apart w (with_trace (trace w ++ evs) w).
Proof. intros F. now exists evs. Qed.

Lemma apart_get_all (filter : option (json -> result bool)) :
  respects (extends apart) (get_all_running_processes_info P filter).
Proof.
  unfold get_all_running_processes_info. apart_steps.
  intros w r w' H.
  destruct (scan_entries_spec P filter entries JNull w) as (evs & E & F).
  rewrite E in H. injection H as _ <-. apply apart_events. now apply warnings_are_apart.
Qed.

Lemma apart_is_process_name_running (name : string) :
  respects (extends apart) (is_process_name_running P name).
Proof.
  intros w r w' H.
  destruct (is_process_name_running_spec P name w) as (evs & E & F).
  rewrite E in H. injection H as _ <-. apply apart_events. now apply warnings_are_apart.
Qed.

Hint Resolve apart_get_all apart_is_process_name_running : run.

Lemma apart_random_string (len : nat) :
  respects (extends apart) (generate_random_alphanumeric_string P len).
Proof. induction len; simpl; unfold random_int; apart_steps. Qed.

Hint Resolve apart_random_string : run.

Lemma apart_name_loop (fuel : nat) :
  forall program_name selected_name,
    respects (extends apart) (name_loop P fuel program_name selected_name).
Proof.
  induction fuel as [|fuel IH]; intros pn sel; simpl;
    unfold return_unless_running, random_int; apart_steps.
Qed.

Lemma apart_resolve_process_name (fuel : nat) (command : list string)
    (specific_process_name : string) :
  respects (extends apart) (resolve_process_name P fuel command specific_process_name).
Proof.
  unfold resolve_process_name, generate_unique_process_name. apart_steps.
  apply apart_name_loop.
Qed.

Lemma apart_LockFile_release (lockfile : bool) :
  respects (extends apart) (LockFile_release (bytes := bytes) lockfile).
Proof. unfold LockFile_release. apart_steps. Qed.

Lemma apart_lock_proc_dir : respects (extends apart) (lock_proc_dir P).
Proof. unfold lock_proc_dir, LockFile_acquire, log. apart_steps. Qed.

Hint Resolve apart_LockFile_release apart_lock_proc_dir : run.

Lemma apart_prepare_run (command : list string) (cwd : string) (stream_options : Z)
    (clean_env detach : bool) (env_vars : list string) :
  respects (extends apart)
           (prepare_run P command cwd stream_options clean_env detach env_vars).
Proof.
  assert (Henv : forall env_map, respects (extends apart) (collect_env P env_vars env_map)).
  { intros env_map w r w' H. rewrite collect_env_spec in H. injection H as _ <-.
    apply apart_events. unfold env_warnings. apply Forall_map.
    apply Forall_forall. reflexivity. }
  unfold prepare_run, ensure_proc_dir, daemonize, log. apart_steps.
Qed.

Lemma apart_ctor (name : string) (command : list string) (lk : bool) :
  respects (extends apart) (ScopedProcFile_ctor P name command lk).
Proof. unfold ScopedProcFile_ctor, ScopedProcFile_init. apart_steps. Qed.

Lemma apart_dtor (location : string) :
  respects (extends apart) (ScopedProcFile_dtor P location).
Proof. unfold ScopedProcFile_dtor, log. apart_steps. Qed.

Lemma child_events_of_extension w w' :
  extends apart w w' ->
  List.filter of_the_child (trace w') = List.filter of_the_child (trace w).
Proof.
  intros (evs & -> & F). rewrite List.filter_app.
  assert (E : List.filter of_the_child evs = []).
  { induction F as [|e evs He _ IH]; cbn [List.filter]; [reflexivity|].
    unfold apart in He. now rewrite He. }
  now rewrite E, List.app_nil_r.
Qed.

(** Whatever the registration does to the child, it does between the
    writing of the record and its removal, in [launch_and_supervise]. *)
Lemma registration_child_events (process_name : string) (raw_command : list string)
    (lk : bool) (wrapped_command : list string) (opt : Reproc.options)
    w (status : Z) w' :
  register_and_supervise P process_name raw_command lk wrapped_command opt w
  = (Ok status, w') ->
  exists w1 w2,
    launch_and_supervise P wrapped_command opt w1 = (Ok status, w2)
    /\ List.filter of_the_child (trace w1) = List.filter of_the_child (trace w)
    /\ List.filter of_the_child (trace w') = List.filter of_the_child (trace w2).
Proof.
  unfold register_and_supervise. unfold bind at 1, get. intros H.
  destruct (can_register w).
  - unfold bind at 1 in H.
    destruct (ScopedProcFile_ctor P process_name raw_command lk w)
      as [[location| | | |] w1] eqn:Hctor; try discriminate.
    apply apart_ctor in Hctor.
    apply at_scope_exit_came_back in H as (w2 & Hrun & Hdtor); [|reflexivity].
    apply apart_dtor in Hdtor.
    exists w1, w2. split; [exact Hrun|].
    split; now apply child_events_of_extension.
  - apply at_scope_exit_came_back in H as (w2 & Hrun & Hrel); [|reflexivity].
    apply apart_LockFile_release in Hrel.
    exists w, w2. split; [exact Hrun|].
    split; [reflexivity | now apply child_events_of_extension].
Qed.

(** The same for the whole run. *)
Lemma run_child_events (fuel : nat) (command : list string) (cwd : string)
    (stream_options : Z) (clean_env detach : bool) (env_vars : list string)
    (specific_process_name : string) w (status : Z) w' :
  run_in_environment P fuel command cwd stream_options clean_env detach env_vars
    specific_process_name w = (Ok status, w') ->
  exists w1 w2,
    launch_and_supervise P
      (fst (prepare_wrapped_call P (target_prefix P) (exec_command command)))
      (start_options P cwd stream_options clean_env (collected_env P env_vars []))
      w1 = (Ok status, w2)
    /\ List.filter of_the_child (trace w1) = List.filter of_the_child (trace w)
    /\ List.filter of_the_child (trace w') = List.filter of_the_child (trace w2).
Proof.
  intros Hrun.
  apply run_returned in Hrun
    as (w1 & w2 & w3 & ec & wc & nc & opt & lk & pn & Hprep & Hlock & Hname & Hreg).
  pose proof (prepare_run_prepared P _ _ _ _ _ _ _ _ _ Hprep) as E.
  injection E as -> -> ->.
  apply apart_prepare_run in Hprep. apply apart_lock_proc_dir in Hlock.
  apply apart_resolve_process_name in Hname.
  apply registration_child_events in Hreg as (w4 & w5 & Hl & H4 & H5).
  exists w4, w5. split; [exact Hl|]. split; [|exact H5].
  rewrite H4. apply child_events_of_extension. eauto using extends_trans.
Qed.

End ApartFromTheChild.

(** X15: when the child cannot be started, a run that returns returns 1,
    and all it did about the child is the attempt to start it and the
    message of the error on the standard error stream: no handler is
    installed, and no stop request is made. *)
Theorem child_that_does_not_start_gives_status_one {bytes : Type} (P : platform bytes)
    (fuel : nat) (command : list string) (cwd : string) (stream_options : Z)
    (clean_env detach : bool) (env_vars : list string) (specific_process_name : string)
    (w : world bytes) (status : Z) :
  child_starts P = false ->
  let run := run_in_environment P fuel command cwd stream_options clean_env detach
               env_vars specific_process_name w in
  fst run = Ok status ->
  status = 1%Z
  /\ List.filter of_the_child (trace (snd run))
     = (List.filter of_the_child (trace w)
        ++ [ EvSpawn (fst (prepare_wrapped_call P (target_prefix P)
                             (exec_command command)))
                     (start_options P cwd stream_options clean_env
                        (collected_env P env_vars []));
             EvStderr (error_message P (start_error P)) ])%list.
Proof.
  intros Hstart run. destruct run as [r w'] eqn:Hrun. cbn [fst snd]. intros ->.
  apply run_child_events in Hrun as (w1 & w2 & Hl & H1 & H2).
  unfold launch_and_supervise in Hl. rewrite Hstart in Hl.
  unfold bind, emit, modify, ret in Hl. cbn [negb] in Hl.
  injection Hl as <- <-. split; [reflexivity|].
  rewrite H2. cbn [trace with_trace]. rewrite <- List.app_assoc, List.filter_app.
  now rewrite H1.
Qed.

Lemma child_that_does_not_start_gives_status_one_witness :
  let H := host_where true (fun _ => true) true (Some 4242) true false (Example.host []) in
  let run := run_in_environment H 1 ["echo"; "hi"] "" 0 false false [] ""
               (Example.start (Dir true [])) in
  fst run = Ok 1%Z
  /\ List.filter of_the_child (trace (snd run))
     = [ EvSpawn ["/bin/bash"; "/tmp/mamba_wrap.sh"; "exec"; "echo"; "hi"]
                 (start_options H "" 0 false []);
         EvStderr "error" ].
Proof.
  intros H run.
  destruct (child_that_does_not_start_gives_status_one H 1 ["echo"; "hi"] "" 0
              false false [] "" (Example.start (Dir true [])) 1%Z eq_refl
              ltac:(vm_compute; reflexivity)) as [_ Hevents].
  split; [vm_compute; reflexivity | exact Hevents].
Defined.

(** ** What a run writes *)

Section RecordContent.

Context {bytes : Type}.
Variable P : platform bytes.
Variable command : list string.
Variable specific_process_name : string.
Implicit Types w : world bytes.

Lemma unwritten_records_command (e : event) :
  is_record_written e = false -> records_command P command specific_process_name e.
Proof. destruct e; try discriminate; intros _; exact I. Qed.

Lemma silent_records_command (e : event) :
  silent e -> records_command P command specific_process_name e.
Proof. intros [H _]. now apply unwritten_records_command. Qed.

(** The name an explicit name resolves to is that name. *)
Lemma resolve_process_name_named (fuel : nat) (exec_command : list string) w
    (process_name : string) (named_command : list string) w' :
  resolve_process_name P fuel exec_command specific_process_name w
  = (Ok (process_name, named_command), w') ->
  specific_process_name <> "" -> process_name = specific_process_name.
Proof.
  unfold resolve_process_name. intros H Hname.
  destruct exec_command as [|first rest]; [discriminate|].
  destruct (String.eqb_spec specific_process_name "") as [|_]; [contradiction|].
  unfold bind in H.
  destruct (is_process_name_running P specific_process_name w) as [[[|]| | | |] w1];
    try discriminate.
  now injection H as <- _ _.
Qed.

Variable process_name : string.
Hypothesis named : specific_process_name <> "" -> process_name = specific_process_name.

Lemma init_records_command (lk : bool) :
  respects (extends (records_command P command specific_process_name))
           (ScopedProcFile_init P process_name command lk).
Proof.
  intros w r w'. unfold ScopedProcFile_init.
  unfold bind at 1, get. cbv zeta. unfold bind at 1.
  destruct (use_lockfiles P && negb lk).
  - intros H. injection H as _ <-. apply extends_refl.
  - unfold ret at 1. destruct (proc w) as [|writable entries].
    + intros H. injection H as _ <-. apply extends_refl.
    + destruct (can_open_for_writing _ _).
      * rewrite file_json_stored. unfold bind at 1, lift.
        destruct (dump_throws P (stored_record P process_name command)).
        { unfold bind, modify, throw. intros H. injection H as _ <-.
          now apply extends_same_trace. }
        unfold bind, modify, emit, ret.
        intros H. injection H as _ <-.
        eexists. split; [reflexivity|]. constructor; [|constructor].
        exists process_name. now split.
      * intros H. injection H as _ <-. apply extends_refl.
Qed.

Lemma registration_records_command (lk : bool) (wrapped_command : list string)
    (opt : Reproc.options) :
  respects (extends (records_command P command specific_process_name))
           (register_and_supervise P process_name command lk wrapped_command opt).
Proof.
  pose proof init_records_command as Hinit.
  pose proof (extends_ScopedProcFile_dtor P _ silent_records_command) as Hdtor.
  pose proof (extends_of_stable _ _ (stable_launch_and_supervise P _
                                        unwritten_records_command wrapped_command opt))
    as Hrun.
  pose proof (fun lockfile =>
                extends_of_stable _ _ (stable_LockFile_release
                                         (bytes := bytes) _ silent_records_command lockfile))
    as Hrel.
  unfold register_and_supervise, ScopedProcFile_ctor. extends_steps.
Qed.

End RecordContent.

(** X16: every record a run writes holds the command as the caller gave
    it, without the [exec] put in front and without the name, and the
    prefix of the context, under a name that is the one the caller
    asked for when there is one. *)
Theorem record_holds_the_command_of_the_caller {bytes : Type} (P : platform bytes)
    (fuel : nat) (command : list string) (cwd : string) (stream_options : Z)
    (clean_env detach : bool) (env_vars : list string) (specific_process_name : string)
    (w : world bytes) :
  let run := run_in_environment P fuel command cwd stream_options clean_env detach
               env_vars specific_process_name w in
  extends (records_command P command specific_process_name) w (snd run).
Proof.
  intros run.
  assert (Hrun : forall r w', run = (r, w') ->
                   extends (records_command P command specific_process_name) w w').
  2:{ destruct run as [r w'] eqn:E. now apply (Hrun r w'). }
  intros r w' H. unfold run, run_in_environment in H. unfold bind at 1 in H.
  pose proof (silent_records_command P command specific_process_name) as HQ.
  destruct (prepare_run P command cwd stream_options clean_env detach env_vars w)
    as [r1 w1] eqn:Hprep.
  apply (extends_prepare_run P _ HQ) in Hprep.
  destruct r1 as [[[exec_command wrapped_command] opt]| | | |];
    try (injection H as _ <-; exact Hprep).
  eapply extends_trans; [exact Hprep|]. clear Hprep.
  unfold bind at 1 in H.
  destruct (lock_proc_dir P w1) as [r2 w2] eqn:Hlock.
  apply (stable_lock_proc_dir P _ HQ) in Hlock as [Hlock _].
  destruct r2 as [lk| | | |]; try (injection H as _ <-; exact Hlock).
  eapply extends_trans; [exact Hlock|]. clear Hlock.
  unfold bind at 1, at_scope_exit_on_throw in H.
  destruct (resolve_process_name P fuel exec_command specific_process_name w2)
    as [r3 w3] eqn:Hname.
  pose proof (stable_resolve_process_name P _ HQ _ _ _ _ _ _ Hname) as [Hx _].
  destruct r3 as [[process_name named_command]|e| | |];
    try (injection H as _ <-; exact Hx).
  - eapply extends_trans; [exact Hx|].
    apply (registration_records_command P command specific_process_name process_name
             (resolve_process_name_named P specific_process_name _ _ _ _ _ _ Hname)
             _ _ _ _ _ _ H).
  - eapply extends_trans; [exact Hx|].
    unfold bind, noexcept, throw in H.
    destruct (LockFile_release lk w3) as [r4 w4] eqn:Hrel.
    apply (stable_LockFile_release _ HQ) in Hrel as [Hrel _].
    destruct r4 as [[]| | | |]; injection H as _ <-; exact Hrel.
Qed.

(** A run the caller gives ["sleep"; "5"] and the name ["nap"]: the
    record holds the two words and the name, and the child is started
    with [exec] in front and with neither ["-a"] nor the name. *)
Lemma record_and_child_of_a_named_run :
  let run := run_in_environment (Example.host []) 1 ["sleep"; "5"] "" 0 false false []
               "nap" (Example.start (Dir true [])) in
  List.filter (fun e => is_record_written e || is_spawn e) (trace (snd run))
  = [ EvRecordWritten "/home/user/.mamba/proc/100.json"
        (JObject [ ("command", JArray [JString "sleep"; JString "5"]);
                   ("name", JString "nap");
                   ("prefix", JString "/opt/env") ]);
      EvSpawn ["/bin/bash"; "/tmp/mamba_wrap.sh"; "exec"; "sleep"; "5"]
              (start_options (Example.host []) "" 0 false []) ].
Proof. vm_compute. reflexivity. Qed.

(** ** Detaching *)

Section DetachFacts.

Context {bytes : Type}.
Variable P : platform bytes.
Implicit Types w : world bytes.

Lemma ensure_proc_dir_returns w : fst (ensure_proc_dir P w) = Ok tt.
Proof.
  unfold ensure_proc_dir, bind, get, modify, emit, log, ret.
  destruct (proc w); [destruct (can_create_proc_dir P)|]; reflexivity.
Qed.

(** A detachment that fails ends the process with status 1. *)
Lemma daemonize_fails w :
  parent_pid w <> 1 ->
  fork_result P = None \/ setsid_ok P = false ->
  fst (daemonize P w) = Exit 1.
Proof.
  intros Hppid Hfail. unfold daemonize, bind, get.
  destruct (Nat.eqb_spec (parent_pid w) 1) as [|_]; [contradiction|].
  destruct (fork_result P) as [pid|]; [|reflexivity].
  destruct Hfail as [|Hsid]; [discriminate|]. rewrite Hsid. reflexivity.
Qed.

Lemma prepare_run_detach_fails (command : list string) (cwd : string) (stream_options : Z)
    (clean_env : bool) (env_vars : list string) w (running : json) :
  command <> [] ->
  fst (get_all_running_processes_info P None (snd (ensure_proc_dir P w))) = Ok running ->
  parent_pid w <> 1 ->
  fork_result P = None \/ setsid_ok P = false ->
  fst (prepare_run P command cwd stream_options clean_env true env_vars w) = Exit 1.
Proof.
  intros Hcommand Hlist Hppid Hfail. unfold prepare_run. unfold bind at 1.
  pose proof (ensure_proc_dir_returns w) as Hdir.
  destruct (ensure_proc_dir P w) as [r0 w0] eqn:E0. cbn [fst snd] in Hdir, Hlist.
  subst r0. apply ensure_proc_dir_ids in E0 as [_ J0].
  unfold bind at 1.
  destruct (get_all_running_processes_info P None w0) as [r1 w1] eqn:E1.
  cbn [fst] in Hlist. subst r1.
  apply (stable_get_all P silent (fun _ H => H)) in E1 as (_ & _ & _ & J1).
  unfold bind at 1, emit at 1, modify at 1.
  unfold bind at 1, log at 1, emit at 1, modify at 1.
  destruct command as [|front rest]; [contradiction|].
  unfold bind at 1, ret at 1.
  destruct (prepare_wrapped_call P (target_prefix P) _) as [wrapped script].
  unfold bind at 1, log at 1, emit at 1, modify at 1.
  unfold bind at 1. rewrite collect_env_spec.
  unfold bind at 1. unfold bind at 1, emit at 1, modify at 1.
  match goal with
  | |- context [daemonize P ?wd] =>
      pose proof (daemonize_fails wd) as Hd; destruct (daemonize P wd) as [rd wd']
  end.
  cbn [fst] in Hd. rewrite Hd; [reflexivity| |exact Hfail].
  cbn [parent_pid with_trace]. congruence.
Qed.

End DetachFacts.



(** ** The record and the names in use *)

Section RegisteredNames.

Context {bytes : Type}.
Variable P : platform bytes.
Implicit Types w : world bytes.

Hypothesis round_trip : forall doc, parse P (dump P doc) = Some doc.

Lemma name_is_listed_record (other : string) (pid : nat) (name : string)
    (command : list string) :
  name_is other (listed_record P pid name command) = (name =? other).
Proof. reflexivity. Qed.

(** A record written to a new file adds its name to the names in use,
    and leaves a healthy directory healthy. *)
Lemma names_after_write (pid : nat) (name : string) (command : list string)
    (writable : bool) (entries : list (file bytes)) :
  healthy P (Dir writable entries) = true ->
  find_file (pid_file_name pid) entries = None ->
  let written := write_file (pid_file_name pid) (dump P (stored_record P name command))
                            entries in
  healthy P (Dir writable written) = true
  /\ forall other,
       existsb (name_is other) (records P written)
       = (existsb (name_is other) (records P entries) || (name =? other)).
Proof.
  intros Hh Hnone written. unfold written. rewrite (write_fresh_file _ _ _ Hnone).
  assert (Hnew : records P [ {| fname := pid_file_name pid; can_read := true;
                               can_write := true;
                               content := dump P (stored_record P name command) |} ]
                 = [listed_record P pid name command]).
  { unfold records. cbn [flat_map].
    rewrite written_is_record_file, (record_of_written P pid round_trip).
    reflexivity. }
  split.
  - cbn [healthy] in Hh |- *. apply andb_prop in Hh as [Hh1 Hh2].
    rewrite forallb_app, records_app, forallb_app, Hh1, Hh2, Hnew.
    cbn [forallb]. unfold well_formed.
    rewrite written_is_record_file, (record_of_written P pid round_trip).
    reflexivity.
  - intros other. rewrite records_app, existsb_app, Hnew. cbn [existsb].
    now rewrite orb_false_r, name_is_listed_record.
Qed.

End RegisteredNames.

(** X18: once a supervisor has written its record under a name, the name
    check answers yes for that name, and for any other name what it
    answered before.  This on a directory that could be searched, in
    which the file of the supervisor is new, and with a JSON library
    that reads back what it wrote. *)
Theorem registered_name_is_reported_running {bytes : Type} (P : platform bytes)
    (name : string) (command : list string) (proc_dir_lock : bool)
    (w w' : world bytes) (location : string) :
  (forall doc, parse P (dump P doc) = Some doc) ->
  healthy P (proc w) = true ->
  find_file (pid_file_name (self_pid w)) (dir_entries (proc w)) = None ->
  ScopedProcFile_ctor P name command proc_dir_lock w = (Ok location, w') ->
  fst (is_process_name_running P name w') = Ok true
  /\ forall other before,
       fst (is_process_name_running P other w) = Ok before ->
       fst (is_process_name_running P other w') = Ok (before || (name =? other)).
Proof.
  intros Hcodec Hh Hnone Hctor.
  apply ScopedProcFile_ctor_returns in Hctor
    as (-> & _ & writable & entries & Hdir & Hdir').
  rewrite Hdir in Hh, Hnone. cbn [dir_entries] in Hnone.
  destruct (names_after_write P Hcodec (self_pid w) name command writable entries Hh Hnone)
    as [Hh' Hnames].
  assert (Hafter : forall other,
             fst (is_process_name_running P other w')
             = Ok (existsb (name_is other) (records P entries) || (name =? other))).
  { intros other. rewrite is_process_name_running_result, Hdir'.
    rewrite (healthy_running P _ other Hh'). cbn [dir_entries]. now rewrite Hnames. }
  split.
  - rewrite Hafter, String.eqb_refl. now rewrite orb_true_r.
  - intros other before Hbefore.
    rewrite is_process_name_running_result, Hdir in Hbefore.
    rewrite (healthy_running P _ other Hh) in Hbefore. injection Hbefore as <-.
    apply Hafter.
Qed.

Lemma registered_name_is_reported_running_witness :
  let H := Example.host [] in
  let w := with_lock true 1 (Example.start (Dir true [ Example.record_file 8 "gentle_sleep" ])) in
  let w' := snd (ScopedProcFile_ctor H "curious_echo" ["echo"; "hi"] true w) in
  fst (is_process_name_running H "curious_echo" w') = Ok true
  /\ fst (is_process_name_running H "gentle_sleep" w') = Ok true
  /\ fst (is_process_name_running H "happy_echo" w') = Ok false.
Proof.
  intros H w w'.
  destruct (registered_name_is_reported_running H "curious_echo" ["echo"; "hi"] true w w'
              "100.json" (fun doc => eq_refl) eq_refl eq_refl eq_refl)
    as [Hname Hothers].
  split; [exact Hname|]. split.
  - exact (Hothers "gentle_sleep" true eq_refl).
  - exact (Hothers "happy_echo" false eq_refl).
Defined.

(** ** The run, from the record to its removal *)

(** X19: in a run that writes its record and returns, the child is started
    and supervised between the constructor of the record and its
    destructor, with the lock released and the record in the
    directory, from the start of the child to the end of its
    supervision. *)
Theorem tracked_child_runs_recorded_and_unlocked {bytes : Type} (P : platform bytes)
    (fuel : nat) (command : list string) (cwd : string) (stream_options : Z)
    (clean_env detach : bool) (env_vars : list string) (specific_process_name : string)
    (w w1 w2 w3 : world bytes) (exec_command wrapped_command named_command : list string)
    (opt : Reproc.options) (proc_dir_lock : bool) (process_name : string) (status : Z) :
  lock_held w = false ->
  prepare_run P command cwd stream_options clean_env detach env_vars w
  = (Ok (exec_command, wrapped_command, opt), w1) ->
  lock_proc_dir P w1 = (Ok proc_dir_lock, w2) ->
  resolve_process_name P fuel exec_command specific_process_name w2
  = (Ok (process_name, named_command), w3) ->
  can_register w3 = true ->
  let run := run_in_environment P fuel command cwd stream_options clean_env detach
               env_vars specific_process_name w in
  fst run = Ok status ->
  exists location w4 w5,
    ScopedProcFile_ctor P process_name command proc_dir_lock w3 = (Ok location, w4)
    /\ launch_and_supervise P wrapped_command opt w4 = (Ok status, w5)
    /\ ScopedProcFile_dtor P location w5 = (Ok tt, snd run)
    /\ lock_held w4 = false /\ lock_held w5 = false
    /\ proc w5 = proc w4
    /\ exists f,
         find_file location (dir_entries (proc w4)) = Some f
         /\ content f = dump P (stored_record P process_name command).
Proof.
  intros Hfree Hprep Hlock Hname Hcan run. unfold run.
  rewrite (run_reaches_registration P _ _ _ _ _ _ _ _ _ _ _ _ _ _ _ _ _ _
             Hprep Hlock Hname).
  destruct (register_and_supervise P process_name command proc_dir_lock wrapped_command
              opt w3) as [r w'] eqn:Hreg.
  cbn [fst snd]. intros ->.
  assert (Hheld : lock_held w3 = proc_dir_lock).
  { apply same_lock_prepare_run in Hprep as [Hh1 _].
    apply lock_proc_dir_held in Hlock as [_ Hh2].
    apply same_lock_resolve_process_name in Hname as [Hh3 _].
    rewrite Hh3, Hh2, Hh1, Hfree. apply orb_false_r. }
  unfold register_and_supervise in Hreg. unfold bind at 1, get in Hreg.
  rewrite Hcan in Hreg. unfold bind at 1 in Hreg.
  destruct (ScopedProcFile_ctor P process_name command proc_dir_lock w3)
    as [[location| | | |] w4] eqn:Hctor; try discriminate.
  apply at_scope_exit_came_back in Hreg as (w5 & Hrun & Hdtor); [|reflexivity].
  exists location, w4, w5.
  split; [reflexivity|]. split; [exact Hrun|]. split; [exact Hdtor|].
  pose proof (ScopedProcFile_ctor_unlocks P _ _ _ _ _ _ Hctor eq_refl Hheld) as [Hfree4 _].
  pose proof (same_lock_launch_and_supervise P _ _ _ _ _ Hrun) as [Hh5 _].
  pose proof (launch_starts_the_child P _ _ _ _ _ Hrun) as [Hp5 _].
  split; [exact Hfree4|]. split; [congruence|]. split; [exact Hp5|].
  apply ScopedProcFile_ctor_returns in Hctor as (-> & _ & writable & entries & _ & ->).
  cbn [dir_entries]. apply find_written.
Qed.

Lemma tracked_child_runs_recorded_and_unlocked_witness :
  let H := Example.host [] in
  let w := Example.start (Dir true []) in
  let run := run_in_environment H 1 ["echo"; "hi"] "" 0 false false [] "my_echo" w in
  exists location w4 w5,
    launch_and_supervise H ["/bin/bash"; "/tmp/mamba_wrap.sh"; "exec"; "echo"; "hi"]
      (start_options H "" 0 false []) w4 = (Ok 0%Z, w5)
    /\ ScopedProcFile_dtor H location w5 = (Ok tt, snd run)
    /\ lock_held w4 = false /\ lock_held w5 = false
    /\ exists f, find_file location (dir_entries (proc w5)) = Some f.
Proof.
  intros H w run.
  pose (w1 := snd (prepare_run H ["echo"; "hi"] "" 0 false false [] w)).
  pose (w2 := snd (lock_proc_dir H w1)).
  pose (w3 := snd (resolve_process_name H 1 ["exec"; "echo"; "hi"] "my_echo" w2)).
  destruct (tracked_child_runs_recorded_and_unlocked H 1 ["echo"; "hi"] "" 0 false false
              [] "my_echo" w w1 w2 w3 ["exec"; "echo"; "hi"]
              ["/bin/bash"; "/tmp/mamba_wrap.sh"; "exec"; "echo"; "hi"]
              ["exec"; "-a"; "my_echo"; "echo"; "hi"]
              (start_options H "" 0 false []) true "my_echo" 0%Z
              eq_refl ltac:(vm_compute; reflexivity) ltac:(vm_compute; reflexivity)
              ltac:(vm_compute; reflexivity) ltac:(vm_compute; reflexivity)
              ltac:(vm_compute; reflexivity))
    as (location & w4 & w5 & _ & Hrun & Hdtor & H4 & H5 & Hp & f & Hf & _).
  exists location, w4, w5. split; [exact Hrun|]. split; [exact Hdtor|].
  split; [exact H4|]. split; [exact H5|]. exists f. now rewrite Hp.
Defined.

(** X20: when the file of the record cannot be removed, because it is not
    there any more or because the directory does not allow it, the
    destructor logs a warning and returns: the directory is left as it
    is. *)
Theorem failed_removal_is_only_a_warning {bytes : Type} (P : platform bytes)
    (location : string) (w w1 : world bytes) (lock : bool) :
  lock_proc_dir P w = (Ok lock, w1) ->
  match proc w with
  | Dir true entries => find_file location entries
  | _ => None
  end = None ->
  exists w' message,
    ScopedProcFile_dtor P location w = (Ok tt, w')
    /\ proc w' = proc w
    /\ trace w'
       = (trace w1 ++ EvLog LOG_WARNING message
                   :: (if lock then [EvLockReleased] else []))%list.
Proof.
  intros Hlock Hgone.
  pose proof (stable_lock_proc_dir P silent (fun _ H => H) _ _ _ Hlock) as (_ & Hp1 & _).
  rewrite <- Hp1 in Hgone.
  set (message := "Failed to remove file '" ++ Path.join (proc_dir_path P) location
                  ++ "' : " ++ remove_error P).
  assert (Hbody : forall body,
             body = (w0 <- get ;;
                     match proc w0 with
                     | Dir true entries =>
                         match find_file location entries with
                         | Some _ =>
                             modify (with_proc (Dir true (remove_file location entries))) ;;;
                             emit (EvRecordRemoved (Path.join (proc_dir_path P) location))
                         | None => log LOG_WARNING message
                         end
                     | _ => log LOG_WARNING message
                     end) ->
             body w1 = (Ok tt, with_trace (trace w1 ++ [EvLog LOG_WARNING message]) w1)).
  { intros body ->. unfold bind, get.
    destruct (proc w1) as [|[|] entries]; try reflexivity. now rewrite Hgone. }
  unfold ScopedProcFile_dtor. unfold bind at 1. rewrite Hlock.
  unfold at_scope_exit. fold message. rewrite (Hbody _ eq_refl).
  match goal with
  | |- context [bind (noexcept (LockFile_release ?lk)) _ ?w2] =>
      destruct (LockFile_release_effect lk w2) as (w3 & E & Hp3 & _)
  end.
  unfold bind, noexcept. rewrite E. exists w3, message.
  split; [reflexivity|]. split; [now rewrite Hp3, <- Hp1|].
  destruct lock; unfold LockFile_release, bind, get, modify, emit, ret in E;
    injection E as <-; cbn [trace with_trace with_lock].
  - now rewrite <- List.app_assoc.
  - reflexivity.
Qed.

Lemma failed_removal_is_only_a_warning_witness :
  let H := Example.host [] in
  let w := Example.start (Dir true [ Example.record_file 8 "gentle_sleep" ]) in
  exists w' message,
    ScopedProcFile_dtor H "100.json" w = (Ok tt, w')
    /\ proc w' = proc w
    /\ trace w' = [ EvLockAcquired; EvLog LOG_WARNING message; EvLockReleased ].
Proof.
  intros H w.
  destruct (failed_removal_is_only_a_warning H "100.json" w (snd (lock_proc_dir H w)) true
              eq_refl eq_refl) as (w' & message & Hd & Hp & Ht).
  exists w', message. split; [exact Hd|]. split; [exact Hp | exact Ht].
Defined.

(** ** Runs that throw *)

Section DirFacts.

Context {bytes : Type}.
Implicit Types w : world bytes.

Lemma same_dir_refl w : same_dir w w.
Proof. reflexivity. Qed.

Lemma same_dir_trans w1 w2 w3 : same_dir w1 w2 -> same_dir w2 w3 -> same_dir w1 w3.
Proof. unfold same_dir. congruence. Qed.

Lemma same_dir_of_stable {A} (Q : event -> Prop) (m : M bytes A) :
  respects (stable Q) m -> respects same_dir m.
Proof. intros H w r w' E. now apply H in E as (_ & E & _). Qed.

Lemma same_dir_emit (e : event) : respects same_dir (emit (bytes := bytes) e).
Proof. intros w r w' H. now injection H as _ <-. Qed.

Lemma same_dir_log (level : log_level) (msg : string) :
  respects same_dir (log (bytes := bytes) level msg).
Proof. apply same_dir_emit. Qed.

End DirFacts.

#[local] Hint Resolve same_dir_refl same_dir_trans same_dir_emit same_dir_log : run.

(** Steps that leave the registry directory as it is. *)
Ltac dir_steps :=
  repeat first
    [ respects_step
    | apply respects_modify; intros ?; reflexivity ].

Section ThrowFacts.

Context {bytes : Type}.
Variable P : platform bytes.
Implicit Types w : world bytes.

Lemma same_dir_get_all (filter : option (json -> result bool)) :
  respects same_dir (get_all_running_processes_info P filter).
Proof. exact (same_dir_of_stable _ _ (stable_get_all P (fun _ => True) (fun _ _ => I) filter)). Qed.

Lemma same_dir_collect_env (env_vars : list string) (env_map : list (string * string)) :
  respects same_dir (collect_env P env_vars env_map).
Proof.
  exact (same_dir_of_stable _ _
           (stable_collect_env P (fun _ => True) (fun _ _ => I) env_vars env_map)).
Qed.

Lemma same_dir_daemonize : respects same_dir (daemonize P).
Proof. unfold daemonize. dir_steps. Qed.

Hint Resolve same_dir_get_all same_dir_collect_env same_dir_daemonize : run.

(** The preparation leaves the directory as [ensure_proc_dir] made
    it. *)
Lemma prepare_run_dir (command : list string) (cwd : string) (stream_options : Z)
    (clean_env detach : bool) (env_vars : list string) w
    (r : result (list string * list string * Reproc.options)) w1 :
  prepare_run P command cwd stream_options clean_env detach env_vars w = (r, w1) ->
  proc w1 = proc (snd (ensure_proc_dir P w)).
Proof.
  unfold prepare_run. unfold bind at 1. intros H.
  destruct (ensure_proc_dir P w) as [[[]| | | |] w0] eqn:E; cbn [snd];
    try (now injection H as _ <-).
  match type of H with
  | ?tail w0 = _ => assert (Htail : respects same_dir tail) by dir_steps
  end.
  exact (Htail _ _ _ H).
Qed.

(** A constructor that throws leaves the directory as it is, unless
    it is the serializer that throws: the file is there then, with
    what the stream had got. *)
Lemma ScopedProcFile_ctor_throws (name : string) (command : list string) (lk : bool)
    w (e : exn) w' :
  ScopedProcFile_ctor P name command lk w = (Throw e, w') ->
  extends silent w w'
  /\ (proc w' = proc w
      \/ exists writable entries,
           e = type_error
           /\ proc w = Dir writable entries
           /\ dump_throws P (stored_record P name command) = true
           /\ proc w' = Dir writable
                          (write_file (pid_file_name (self_pid w))
                             (dump_before_throw P (stored_record P name command))
                             entries)).
Proof.
  unfold ScopedProcFile_ctor. intros H.
  apply at_scope_exit_came_back in H as (w1 & Hinit & Hrel); [|reflexivity].
  apply (stable_LockFile_release silent (fun _ H => H)) in Hrel as (Hx & Hp & _).
  rewrite ScopedProcFile_init_cases in Hinit. cbv zeta in Hinit.
  assert (Hsame : w1 = w -> extends silent w w' /\ proc w' = proc w).
  { intros ->. now split. }
  destruct (use_lockfiles P && negb lk).
  { injection Hinit as _ <-. destruct Hsame; auto. }
  destruct (proc w) as [|writable entries] eqn:Hdir.
  { injection Hinit as _ <-. destruct Hsame; auto. }
  destruct (can_open_for_writing _ _).
  2:{ injection Hinit as _ <-. destruct Hsame; auto. }
  destruct (dump_throws P (stored_record P name command)) eqn:Hthrows; [|discriminate].
  injection Hinit as <- <-. split.
  - eapply extends_trans; [|exact Hx]. now apply extends_same_trace.
  - right. exists writable, entries. rewrite Hp. now repeat split.
Qed.

Lemma registration_throws (process_name : string) (raw_command : list string)
    (lk : bool) (wrapped_command : list string) (opt : Reproc.options)
    w (e : exn) w' :
  register_and_supervise P process_name raw_command lk wrapped_command opt w
  = (Throw e, w') ->
  extends silent w w'
  /\ (proc w' = proc w
      \/ exists entries,
           e = type_error
           /\ proc w = Dir true entries
           /\ dump_throws P (stored_record P process_name raw_command) = true
           /\ proc w' = Dir true
                          (write_file (pid_file_name (self_pid w))
                             (dump_before_throw P (stored_record P process_name raw_command))
                             entries)).
Proof.
  unfold register_and_supervise. unfold bind at 1, get. intros H.
  assert (Hnever : forall d w1 w2,
             at_scope_exit (launch_and_supervise P wrapped_command opt) d w1
             <> (Throw e, w2)).
  { intros d w1 w2 Hs.
    apply at_scope_exit_came_back in Hs as (w3 & Hl & _); [|reflexivity].
    destruct (returns_launch_and_supervise P wrapped_command opt w1) as (s & w4 & E).
    rewrite E in Hl. discriminate. }
  destruct (can_register w) eqn:Hcan; [|now apply Hnever in H].
  unfold bind at 1 in H.
  destruct (ScopedProcFile_ctor P process_name raw_command lk w)
    as [[location|e'| | |] w1] eqn:Hctor; try discriminate.
  - now apply Hnever in H.
  - injection H as <- <-.
    apply ScopedProcFile_ctor_throws in Hctor
      as (Hx & [Hp | (writable & entries & -> & Hdir & Hthrows & Hp)]).
    + split; [exact Hx | now left].
    + split; [exact Hx|]. right. exists entries.
      unfold can_register in Hcan. rewrite Hdir in Hcan. subst writable.
      now repeat split.
Qed.

End ThrowFacts.

(** X21: a run that throws has started no child and has completed no
    record: after the child is started, nothing throws to the caller.
    It leaves the directory as it was at the start (as it was made
    then, when it was missing), unless it is the serializer of the
    record that throws: the file of the supervisor, opened and cut to
    nothing before the record is put into it, is left behind then,
    with what the stream had got. *)
Theorem run_that_throws_has_started_nothing {bytes : Type} (P : platform bytes)
    (fuel : nat) (command : list string) (cwd : string) (stream_options : Z)
    (clean_env detach : bool) (env_vars : list string) (specific_process_name : string)
    (w : world bytes) (e : exn) :
  let run := run_in_environment P fuel command cwd stream_options clean_env detach
               env_vars specific_process_name w in
  let made := proc (snd (ensure_proc_dir P w)) in
  fst run = Throw e ->
  extends silent w (snd run)
  /\ (proc (snd run) = made
      \/ exists entries name,
           e = type_error
           /\ made = Dir true entries
           /\ dump_throws P (stored_record P name command) = true
           /\ proc (snd run)
              = Dir true (write_file (pid_file_name (supervisor_pid P detach w))
                            (dump_before_throw P (stored_record P name command))
                            entries)).
Proof.
  intros run made.
  assert (Hrun : forall r w',
             run = (r, w') -> r = Throw e ->
             extends silent w w'
             /\ (proc w' = made
                 \/ exists entries name,
                      e = type_error
                      /\ made = Dir true entries
                      /\ dump_throws P (stored_record P name command) = true
                      /\ proc w'
                         = Dir true
                             (write_file (pid_file_name (supervisor_pid P detach w))
                                (dump_before_throw P (stored_record P name command))
                                entries))).
  2:{ destruct run as [r w'] eqn:E. now apply (Hrun r w'). }
  intros r w' H ->. unfold run, run_in_environment in H. unfold bind at 1 in H.
  destruct (prepare_run P command cwd stream_options clean_env detach env_vars w)
    as [r1 w1] eqn:Hprep.
  pose proof (prepare_run_dir P _ _ _ _ _ _ _ _ _ Hprep) as Hd1. fold made in Hd1.
  pose proof (extends_prepare_run P silent (fun _ H => H) _ _ _ _ _ _ _ _ _ Hprep) as Hx1.
  destruct r1 as [[[exec_command wrapped_command] opt]| | | |];
    try (injection H as _ <-; split; [exact Hx1 | now left]).
  apply prepare_run_returns in Hprep as [Hpid _].
  unfold bind at 1 in H.
  destruct (lock_proc_dir P w1) as [r2 w2] eqn:Hlock.
  apply (stable_lock_proc_dir P silent (fun _ H => H)) in Hlock as (Hx2 & Hd2 & Hi2 & _).
  assert (Hx12 : extends silent w w2) by (eapply extends_trans; eassumption).
  destruct r2 as [lk| | | |];
    try (injection H as _ <-; split; [exact Hx12 | left; congruence]).
  unfold bind at 1, at_scope_exit_on_throw in H.
  destruct (resolve_process_name P fuel exec_command specific_process_name w2)
    as [r3 w3] eqn:Hname.
  apply (stable_resolve_process_name P silent (fun _ H => H)) in Hname
    as (Hx3 & Hd3 & Hi3 & _).
  assert (Hx13 : extends silent w w3) by (eapply extends_trans; eassumption).
  destruct r3 as [[process_name named_command]|e'| | |];
    try (injection H as _ <-; split; [exact Hx13 | left; congruence]).
  - apply registration_throws in H
      as (Hx & [Hp | (entries & -> & Hdir & Hthrows & Hp)]).
    + split; [eapply extends_trans; eassumption | left; congruence].
    + split; [eapply extends_trans; eassumption|].
      right. exists entries, process_name.
      split; [reflexivity|]. split; [congruence|]. split; [exact Hthrows|].
      rewrite Hp. do 3 f_equal. congruence.
  - unfold bind, noexcept, throw in H.
    destruct (LockFile_release lk w3) as [r4 w4] eqn:Hrel.
    apply (stable_LockFile_release silent (fun _ H => H)) in Hrel as (Hx4 & Hd4 & _).
    destruct r4 as [[]| | | |]; injection H as _ <-;
      (split; [eapply extends_trans; eassumption | left; congruence]).
Qed.

Lemma run_that_throws_has_started_nothing_witness :
  let H := Example.host [] in
  let w := Example.start (Dir true [ Example.record_file 8 "curious_sleep" ]) in
  let command := ["echo"; Example.not_text] in
  let run := run_in_environment H 1 command "" 0 false false [] "my_echo" w in
  extends silent w (snd run)
  /\ (proc (snd run) = proc w
      \/ exists entries name,
           proc w = Dir true entries
           /\ dump_throws H (stored_record H name command) = true
           /\ proc (snd run)
              = Dir true (write_file "100.json"
                            (dump_before_throw H (stored_record H name command))
                            entries)).
Proof.
  intros H w command run.
  destruct (run_that_throws_has_started_nothing H 1 command "" 0 false false []
              "my_echo" w type_error ltac:(vm_compute; reflexivity))
    as [Hx [Hp | (entries & name & _ & Hd & Ht & Hp)]].
  - split; [exact Hx | left; exact Hp].
  - split; [exact Hx|]. right. exists entries, name.
    split; [exact Hd|]. split; [exact Ht | exact Hp].
Defined.

(** On the host of the examples: the run of a command one argument of
    which is not UTF-8 throws the exception of the serializer, and
    leaves a file, for the supervisor, that does not parse; the next
    run, of any command, stops at it when it lists the directory. *)
Lemma truncated_record_is_left_behind :
  let H := Example.host [] in
  let run := run_in_environment H 1 ["echo"; Example.not_text] "" 0 false false []
               "my_echo" (Example.start (Dir true [])) in
  fst run = Throw type_error
  /\ proc (snd run) = Dir true [ Example.malformed_file 100 ]
  /\ fst (run_in_environment H 1 ["echo"; "hi"] "" 0 false false [] ""
            (Example.start (proc (snd run)))) = Throw parse_error.
Proof. vm_compute. repeat split. Qed.

(** ** The critical section *)

(** X22: when locking is enabled, the name of a run is checked and its
    record is written under one and the same lock: the lock that
    [lock_proc_dir] took is held when the name is resolved and is
    neither released nor taken again before the constructor of the
    record, which writes the record and then releases it, once and
    for all. *)
Theorem name_is_checked_and_recorded_under_one_lock {bytes : Type} (P : platform bytes)
    (fuel : nat) (command : list string) (cwd : string) (stream_options : Z)
    (clean_env detach : bool) (env_vars : list string) (specific_process_name : string)
    (w w1 w2 w3 : world bytes) (exec_command wrapped_command named_command : list string)
    (opt : Reproc.options) (proc_dir_lock : bool) (process_name : string) :
  use_lockfiles P = true ->
  lock_held w = false ->
  prepare_run P command cwd stream_options clean_env detach env_vars w
  = (Ok (exec_command, wrapped_command, opt), w1) ->
  lock_proc_dir P w1 = (Ok proc_dir_lock, w2) ->
  resolve_process_name P fuel exec_command specific_process_name w2
  = (Ok (process_name, named_command), w3) ->
  proc_dir_lock = true
  /\ lock_held w1 = false
  /\ lock_held w2 = true
  /\ lock_held w3 = true /\ lock_attempts w3 = lock_attempts w2
  /\ forall location w4,
       ScopedProcFile_ctor P process_name command proc_dir_lock w3 = (Ok location, w4) ->
       lock_held w4 = false /\ lock_attempts w4 = lock_attempts w2.
Proof.
  intros Hlocking Hfree Hprep Hlock Hname.
  apply same_lock_prepare_run in Hprep as [Hh1 _].
  apply lock_proc_dir_held in Hlock as [Hlk Hh2].
  apply same_lock_resolve_process_name in Hname as [Hh3 Ha3].
  rewrite Hlocking in Hlk. subst proc_dir_lock. cbn [orb] in Hh2.
  split; [reflexivity|]. split; [congruence|]. split; [exact Hh2|].
  split; [congruence|]. split; [exact Ha3|].
  intros location w4 Hctor.
  apply ScopedProcFile_ctor_unlocks in Hctor as [Hh4 Ha4];
    [|reflexivity|congruence].
  split; [exact Hh4 | congruence].
Qed.

Lemma name_is_checked_and_recorded_under_one_lock_witness :
  let H := Example.host [] in
  let w := Example.start (Dir true []) in
  let w1 := snd (prepare_run H ["echo"; "hi"] "" 0 false false [] w) in
  let w2 := snd (lock_proc_dir H w1) in
  let w3 := snd (resolve_process_name H 1 ["exec"; "echo"; "hi"] "" w2) in
  let w4 := snd (ScopedProcFile_ctor H "curious_echo" ["echo"; "hi"] true w3) in
  lock_held w1 = false /\ lock_held w2 = true /\ lock_held w3 = true
  /\ lock_held w4 = false /\ lock_attempts w4 = 1.
Proof.
  intros H w w1 w2 w3 w4.
  destruct (name_is_checked_and_recorded_under_one_lock H 1 ["echo"; "hi"] "" 0
              false false [] "" w w1 w2 w3 ["exec"; "echo"; "hi"]
              ["/bin/bash"; "/tmp/mamba_wrap.sh"; "exec"; "echo"; "hi"]
              ["exec"; "-a"; "curious_echo"; "echo"; "hi"]
              (start_options H "" 0 false []) true "curious_echo"
              eq_refl eq_refl ltac:(vm_compute; reflexivity) ltac:(vm_compute; reflexivity)
              ltac:(vm_compute; reflexivity))
    as (_ & H1 & H2 & H3 & _ & Hctor).
  destruct (Hctor "100.json" w4 ltac:(vm_compute; reflexivity)) as [H4 Ha4].
  repeat split; assumption.
Defined.

(** ** The process a detached run announces *)

Section AnnounceFacts.

Context {bytes : Type}.
Variable P : platform bytes.
Implicit Types w : world bytes.

Lemma daemonize_announces w w' :
  daemonize P w = (Ok tt, w') ->
  parent_pid w <> 1 ->
  fork_result P = Some (self_pid w')
  /\ In (EvStdout ("Kill process with: kill " ++ to_string (self_pid w'))) (trace w').
Proof.
  unfold daemonize, bind, get, modify, emit, exit, ret. intros H Hppid.
  destruct (Nat.eqb_spec (parent_pid w) 1) as [|_]; [contradiction|].
  destruct (fork_result P) as [pid|]; [|discriminate]. cbn in H.
  destruct (setsid_ok P); cbn in H; [|discriminate].
  injection H as <-. cbn [self_pid trace with_trace with_pids]. split; [reflexivity|].
  apply in_or_app. right. now left.
Qed.

Lemma prepare_run_announces (command : list string) (cwd : string) (stream_options : Z)
    (clean_env : bool) (env_vars : list string) w
    (prepared : list string * list string * Reproc.options) w1 :
  prepare_run P command cwd stream_options clean_env true env_vars w = (Ok prepared, w1) ->
  parent_pid w <> 1 ->
  fork_result P = Some (self_pid w1)
  /\ In (EvStdout ("Kill process with: kill " ++ to_string (self_pid w1))) (trace w1).
Proof.
  unfold prepare_run. intros H Hppid.
  bind_returned H E1. apply ensure_proc_dir_ids in E1 as [_ J1].
  bind_returned H E2.
  apply (stable_get_all P (fun _ => True) (fun _ _ => I)) in E2 as (_ & _ & _ & J2).
  unfold bind at 1, emit at 1, modify at 1 in H.
  unfold bind at 1, log at 1, emit at 1, modify at 1 in H.
  destruct command as [|front rest]; [discriminate|].
  unfold bind at 1, ret at 1 in H.
  destruct (prepare_wrapped_call P (target_prefix P) _) as [wrapped script].
  unfold bind at 1, log at 1, emit at 1, modify at 1 in H.
  unfold bind at 1 in H. rewrite collect_env_spec in H.
  unfold bind at 1 in H. unfold bind at 1, emit at 1, modify at 1 in H.
  match type of H with
  | context [daemonize P ?wd] =>
      destruct (daemonize P wd) as [[[]| | | |] wd'] eqn:E4; try discriminate H;
      apply daemonize_announces in E4
  end.
  - injection H as _ <-. exact E4.
  - cbn [parent_pid with_trace]. congruence.
Qed.

Lemma in_extension (Q : event -> Prop) (e : event) w w' :
  extends Q w w' -> In e (trace w) -> In e (trace w').
Proof. intros (evs & -> & _) H. apply in_or_app. now left. Qed.

End AnnounceFacts.

(** X23: a detached run that forks and returns has announced, with
    [Kill process with: kill], the process that [fork] created, and
    every record it wrote is the file named after that process: the
    process to kill is the one the registry lists. *)
Theorem detached_run_announces_the_pid_of_its_record {bytes : Type} (P : platform bytes)
    (fuel : nat) (command : list string) (cwd : string) (stream_options : Z)
    (clean_env : bool) (env_vars : list string) (specific_process_name : string)
    (w : world bytes) (status : Z) :
  parent_pid w <> 1 ->
  let run := run_in_environment P fuel command cwd stream_options clean_env true
               env_vars specific_process_name w in
  fst run = Ok status ->
  exists pid,
    fork_result P = Some pid
    /\ In (EvStdout ("Kill process with: kill " ++ to_string pid)) (trace (snd run))
    /\ extends (written_to (Path.join (proc_dir_path P) (to_string pid ++ ".json")))
               w (snd run).
Proof.
  intros Hppid run. destruct run as [r w'] eqn:Hrun. cbn [fst snd]. intros ->.
  apply run_returned in Hrun
    as (w1 & w2 & w3 & ec & wc & nc & opt & lk & pn & Hprep & Hlock & Hname & Hreg).
  destruct (prepare_run_announces P _ _ _ _ _ _ _ _ Hprep Hppid) as [Hfork Hline].
  exists (self_pid w1). split; [exact Hfork|].
  apply (extends_prepare_run P silent (fun _ H => H)) in Hprep.
  apply (stable_lock_proc_dir P silent (fun _ H => H)) in Hlock as (Hx2 & _ & Hi2 & _).
  apply (stable_resolve_process_name P silent (fun _ H => H)) in Hname
    as (Hx3 & _ & Hi3 & _).
  apply keeps_identity_register_and_supervise in Hreg as [Hx4 _].
  rewrite Hi3, Hi2 in Hx4.
  assert (Hquiet : forall e, silent e ->
                     written_to (record_path P (self_pid w1)) e).
  { intros e He. apply unwritten_is_written_to. now apply silent_is_unwritten. }
  assert (Hafter : extends (written_to (record_path P (self_pid w1))) w1 w').
  { eapply extends_trans; [|exact Hx4].
    eapply extends_weaken; [exact Hquiet|]. eauto using extends_trans. }
  split.
  - exact (in_extension _ _ _ _ Hafter Hline).
  - eapply extends_trans; [|exact Hafter].
    eapply extends_weaken; [exact Hquiet | exact Hprep].
Qed.

Lemma detached_run_announces_the_pid_of_its_record_witness :
  let H := Example.host [] in
  let run := run_in_environment H 1 ["echo"; "hi"] "" 0 false true [] ""
               (Example.start (Dir true [])) in
  In (EvStdout "Kill process with: kill 4242") (trace (snd run))
  /\ extends (written_to "/home/user/.mamba/proc/4242.json")
             (Example.start (Dir true [])) (snd run).
Proof.
  intros H run.
  destruct (detached_run_announces_the_pid_of_its_record H 1 ["echo"; "hi"] "" 0 false
              [] "" (Example.start (Dir true [])) 0%Z ltac:(discriminate)
              ltac:(vm_compute; reflexivity)) as (pid & Hfork & Hline & Hrecords).
  injection Hfork as <-. split; [exact Hline | exact Hrecords].
Defined.
